(** * antler: node/sockdiag.c

    A shallow embedding of the netlink socket-diagnostics sampler
    ([sockdiag_sample] and its helpers [send_request], [grow] and
    [parse_response]) together with the properties of it that the design
    document states, and further properties of the code: its behaviour on
    failures and on input that is not well formed, and the session
    functions [sockdiag_open] and [sockdiag_close].
    [sockdiag_free_samples] is left out: it hands the array to [free], and
    the array is modelled by its contents, without the identity of a heap
    block that could tell a released block from a live one.

    The C code works on three kinds of memory: the caller's [struct samples]
    with its heap array, the 32 KiB receive buffer on the stack, and the
    process-wide [errno].  All three live in [state]; the kernel (the results
    of [sendmsg] and [recv]) and the allocator (whether [realloc] succeeds)
    are scripts inside the same state, consumed call by call. *)

From Stdlib Require Import ZArith Lia.
From Stdlib.Strings Require Import Byte.
From stdpp Require Import base tactics option list gmap.

Local Open Scope Z_scope.

(** ** The platform

    Two facts come from the machine and the kernel headers the code is
    compiled against, not from the repository: the byte order of the host
    and [sizeof(struct tcp_info)] (from [<linux/tcp.h>]). *)

Class Platform := {
  big_endian : bool;
  sizeof_tcp_info : nat;
}.

(** ** Bytes and fixed-width integers *)

Definition byte_val (b : byte) : Z := Z.of_N (Byte.to_N b).

Definition byte_of (z : Z) : byte :=
  default x00 (Byte.of_N (Z.to_N (z mod 256))).

Fixpoint le_val (bs : list byte) : Z :=
  match bs with
  | [] => 0
  | b :: bs' => byte_val b + 256 * le_val bs'
  end.

Definition be_val (bs : list byte) : Z := le_val (rev bs).

Fixpoint le_bytes (n : nat) (z : Z) : list byte :=
  match n with
  | O => []
  | S n' => byte_of z :: le_bytes n' (z / 256)
  end.

Definition be_bytes (n : nat) (z : Z) : list byte := rev (le_bytes n z).

(** [uint32_t], [uint8_t] and [int] arithmetic, with the wrap-around
    written out.  [to_int] is the conversion of a wider or unsigned result
    to [int] (two's complement). *)
Definition wrap32 (z : Z) : Z := z mod 2 ^ 32.
Definition wrap8 (z : Z) : Z := z mod 2 ^ 8.
Definition to_int (z : Z) : Z := (z + 2 ^ 31) mod 2 ^ 32 - 2 ^ 31.

Definition zeros (n : nat) : list byte := replicate n x00.

(** [memcpy(dst, src, n)] on arrays held as lists. *)
Definition memcpy (dst src : list byte) (n : nat) : list byte :=
  take n src ++ drop n dst.

Section Host.
Context `{Platform}.

(** A multi-byte field in the host's own byte order. *)
Definition host_val (bs : list byte) : Z :=
  if big_endian then be_val bs else le_val bs.

Definition host_bytes (n : nat) (z : Z) : list byte :=
  if big_endian then be_bytes n z else le_bytes n z.

(** [htons] of [<arpa/inet.h>]: the identity on a big-endian host, a swap
    of the two bytes on a little-endian one. *)
Definition htons (x : Z) : Z :=
  if big_endian then x
  else Z.lor (Z.shiftl (Z.land x 255) 8) (Z.land (Z.shiftr x 8) 255).

(** A pointer into the receive buffer is the part of the buffer that
    starts at it.  Loading [n] bytes at offset [off] fails when the buffer
    ends before them. *)
Definition load (p : list byte) (off n : nat) : option (list byte) :=
  let bs := take n (drop off p) in
  if decide (length bs = n) then Some bs else None.

Definition load_uint (p : list byte) (off n : nat) : option Z :=
  host_val <$> load p off n.

Definition load_int (p : list byte) (off : nat) : option Z :=
  to_int <$> load_uint p off 4.

Definition advance (p : list byte) (n : Z) : list byte :=
  drop (Z.to_nat n) p.
End Host.

(** ** Data model (sockdiag.h) *)

(** [struct sample]: [info] is the [struct tcp_info] block, kept as the
    bytes it is copied from. *)
Record sample := {
  family : Z;
  saddr : list byte;
  sport : Z;
  daddr : list byte;
  dport : Z;
  info : list byte;
}.

(** The heap array behind [samples->sample]: the null pointer, or a block
    of slots, each still uninitialised ([None]) or holding a sample. *)
Inductive pointer :=
  | NULL
  | Block (slots : list (option sample)).

(** [struct samples]; [len] and [cap] are [uint32_t]. *)
Record samples := {
  sample_ptr : pointer;
  len : Z;
  cap : Z;
}.

(** ** Machine state *)

Inductive send_result :=
  | SendOk
  | SendErr (err : Z).

Inductive recv_result :=
  | RecvOk (datagram : list byte)
  | RecvErr (err : Z).

Record state := {
  errno : Z;
  store : samples;                 (* the caller's [struct samples] *)
  stack : list byte;               (* what the array [b] holds *)
  allocs : list bool;              (* does the next [realloc] succeed *)
  sends : list send_result;        (* results of the next [sendmsg] calls *)
  recvs : list recv_result;        (* results of the next [recv] calls *)
  sent : list (Z * list byte);     (* messages handed to the kernel so far *)
}.

Definition set_errno (e : Z) (σ : state) : state :=
  {| errno := e; store := store σ; stack := stack σ; allocs := allocs σ;
     sends := sends σ; recvs := recvs σ; sent := sent σ |}.

Definition set_store (s : samples) (σ : state) : state :=
  {| errno := errno σ; store := s; stack := stack σ; allocs := allocs σ;
     sends := sends σ; recvs := recvs σ; sent := sent σ |}.

Definition set_stack (b : list byte) (σ : state) : state :=
  {| errno := errno σ; store := store σ; stack := b; allocs := allocs σ;
     sends := sends σ; recvs := recvs σ; sent := sent σ |}.

Definition set_allocs (a : list bool) (σ : state) : state :=
  {| errno := errno σ; store := store σ; stack := stack σ; allocs := a;
     sends := sends σ; recvs := recvs σ; sent := sent σ |}.

Definition set_sends (l : list send_result) (σ : state) : state :=
  {| errno := errno σ; store := store σ; stack := stack σ; allocs := allocs σ;
     sends := l; recvs := recvs σ; sent := sent σ |}.

Definition set_recvs (l : list recv_result) (σ : state) : state :=
  {| errno := errno σ; store := store σ; stack := stack σ; allocs := allocs σ;
     sends := sends σ; recvs := l; sent := sent σ |}.

Definition set_sent (l : list (Z * list byte)) (σ : state) : state :=
  {| errno := errno σ; store := store σ; stack := stack σ; allocs := allocs σ;
     sends := sends σ; recvs := recvs σ; sent := l |}.

(** ** Computations

    A C function either returns, with a new state, or it does not:
    - [Fault]: it dereferences the null pointer or reads or writes outside
      an object (undefined behaviour in C);
    - [Blocked]: it waits in a system call for which the script holds no
      further result;
    - [OutOfFuel]: an artefact of the embedding; the two inner loops recurse
      on a counter, and [parse_response_total] and [sockdiag_sample_total]
      show that the counter they are started with never runs out. *)
Inductive outcome (A : Type) :=
  | Done (a : A) (σ : state)
  | Fault
  | Blocked
  | OutOfFuel.
Arguments Done {A} a σ.
Arguments Fault {A}.
Arguments Blocked {A}.
Arguments OutOfFuel {A}.

Definition M (A : Type) : Type := state → outcome A.

Definition ret {A} (a : A) : M A := λ σ, Done a σ.

Definition bind {A B} (m : M A) (f : A → M B) : M B := λ σ,
  match m σ with
  | Done a σ' => f a σ'
  | Fault => Fault
  | Blocked => Blocked
  | OutOfFuel => OutOfFuel
  end.

Declare Scope c_scope.
Delimit Scope c_scope with C.
Notation "'let*' x := m 'in' k" := (bind m (λ x, k))
  (at level 10, x binder, m at level 100, k at level 200) : c_scope.
Notation "m ;;; k" := (bind m (λ _, k))
  (at level 100, k at level 200, right associativity) : c_scope.
Local Open Scope c_scope.

Definition fault {A} : M A := λ _, Fault.
Definition gets {A} (f : state → A) : M A := λ σ, Done (f σ) σ.
Definition modify (f : state → state) : M unit := λ σ, Done tt (f σ).

(** A load from the receive buffer: outside the buffer it is a fault. *)
Definition deref {A} (o : option A) : M A :=
  match o with
  | Some a => ret a
  | None => fault
  end.

Definition when (b : bool) (m : M unit) : M unit := if b then m else ret tt.

(** ** Constants and macros of the system headers

    The Linux headers the file includes ([<linux/netlink.h>],
    [<linux/rtnetlink.h>], [<linux/sock_diag.h>], [<linux/inet_diag.h>],
    [<sys/socket.h>], [<netinet/in.h>], [<errno.h>]) are not among the
    sources.  What the code takes from them is given here with the values
    of the Linux user-space ABI, which section 6 of the design document
    requires the wire format to match exactly. *)

(** Modelled from the spec: the constants of the missing headers named by
    sections 4.2, 4.3 and 6 (address families, protocol TCP, the message
    types for end-of-dump and error, the dump-request flags, the
    diagnostics-by-family type, the attribute tag of the extended TCP info,
    the two error numbers). *)
Definition AF_INET : Z := 2.
Definition AF_INET6 : Z := 10.
Definition IPPROTO_TCP : Z := 6.
Definition ENOMEM : Z := 12.
Definition ENODATA : Z := 61.

Definition NLMSG_ERROR : Z := 2.
Definition NLMSG_DONE : Z := 3.
Definition NLM_F_REQUEST : Z := 1.
Definition NLM_F_DUMP : Z := 768.        (* NLM_F_ROOT | NLM_F_MATCH *)
Definition SOCK_DIAG_BY_FAMILY : Z := 20.
Definition INET_DIAG_INFO : Z := 2.

(** From sockdiag.c itself. *)
Definition TCP_ESTABLISHED : Z := 1.
Definition INIT_CAP : Z := 16.
Definition sizeof_b : nat := 32 * 1024.

(** Modelled from the spec: [sizeof] of the missing struct declarations. *)
Definition sizeof_nlmsghdr : Z := 16.
Definition sizeof_nlmsgerr : Z := 20.       (* int error; struct nlmsghdr msg *)
Definition sizeof_rtattr : Z := 4.
Definition sizeof_inet_diag_msg : Z := 72.
Definition sizeof_inet_diag_req_v2 : Z := 56.
Definition sizeof_inet_diag_sockid : nat := 48.

(** Modelled from the spec: the macros [NLMSG_ALIGN] and [RTA_ALIGN] of
    the missing headers, by which a length "is padded to the platform's
    alignment boundary" (section 4.3): [((len) + 4U - 1) & ~(4U - 1)],
    computed in [unsigned int]. *)
Definition NLMSG_ALIGN (n : Z) : Z :=
  Z.land (wrap32 (n + 4 - 1)) (wrap32 (Z.lnot (4 - 1))).
Definition RTA_ALIGN (n : Z) : Z :=
  Z.land (wrap32 (n + 4 - 1)) (wrap32 (Z.lnot (4 - 1))).

Definition NLMSG_HDRLEN : Z := NLMSG_ALIGN sizeof_nlmsghdr.
Definition NLMSG_LENGTH (n : Z) : Z := n + NLMSG_HDRLEN.
Definition RTA_LENGTH (n : Z) : Z := RTA_ALIGN sizeof_rtattr + n.

(** Modelled from the spec: the layout of the missing type declarations
    [struct nlmsghdr], [struct rtattr] and [struct inet_diag_msg] (with its
    [struct inet_diag_sockid id]), as the offsets of the fields the code
    reads. *)
Definition off_nlmsg_len : nat := 0.
Definition off_nlmsg_type : nat := 4.
Definition off_rta_len : nat := 0.
Definition off_rta_type : nat := 2.
Definition off_idiag_family : nat := 0.
Definition off_idiag_sport : nat := 4.
Definition off_idiag_dport : nat := 6.
Definition off_idiag_src : nat := 8.
Definition off_idiag_dst : nat := 24.

Section Program.
Context `{Platform}.

(** Modelled from the spec: the macros [NLMSG_DATA] and [RTA_DATA] of the
    missing headers, the address behind the aligned header. *)
Definition NLMSG_DATA (nlh : list byte) : list byte :=
  advance nlh NLMSG_HDRLEN.
Definition RTA_DATA (rta : list byte) : list byte :=
  advance rta (RTA_LENGTH 0).

(** Modelled from the spec: the macro [NLMSG_OK(nlh, len)] of the missing
    [<linux/netlink.h>] ("remaining bytes are sufficient to hold a
    well-formed header and body", section 4.3).  Its three tests are
    joined by [&&], so [nlh->nlmsg_len] is only loaded once [len] covers a
    header.  The comparison of [nlmsg_len] with the [int] [len] is
    unsigned; [len] is at least 16 there, so it is the mathematical one. *)
Definition NLMSG_OK (nlh : list byte) (n : Z) : option bool :=
  if n <? sizeof_nlmsghdr then Some false
  else
    l ← load_uint nlh off_nlmsg_len 4;
    Some (bool_decide (sizeof_nlmsghdr ≤ l) && bool_decide (l ≤ n)).

(** Modelled from the spec: the macro [RTA_OK(rta, len)] of the missing
    [<linux/rtnetlink.h>], the same test for an attribute. *)
Definition RTA_OK (rta : list byte) (n : Z) : option bool :=
  if n <? sizeof_rtattr then Some false
  else
    l ← load_uint rta off_rta_len 2;
    Some (bool_decide (sizeof_rtattr ≤ l) && bool_decide (l ≤ n)).

(** *** The C library and the kernel *)

Definition slots_of (p : pointer) : list (option sample) :=
  match p with
  | NULL => []
  | Block sl => sl
  end.

Definition resize (n : nat) (sl : list (option sample)) : list (option sample) :=
  take n sl ++ replicate (n - length sl) None.

(** [realloc(p, n * sizeof(struct sample))]: a block of [n] slots that
    keeps the old contents, or the null pointer and [ENOMEM].  Past the end
    of the script every allocation succeeds. *)
Definition realloc (p : pointer) (n : Z) : M pointer := λ σ,
  match allocs σ with
  | false :: rest => Done NULL (set_errno ENOMEM (set_allocs rest σ))
  | true :: rest => Done (Block (resize (Z.to_nat n) (slots_of p))) (set_allocs rest σ)
  | [] => Done (Block (resize (Z.to_nat n) (slots_of p))) σ
  end.

(** [sendmsg] on the datagram socket: the whole message or nothing. *)
Definition sendmsg (fd : Z) (iov : list (list byte)) : M Z := λ σ,
  match sends σ with
  | [] => Blocked
  | SendOk :: rest =>
      Done (Z.of_nat (length (concat iov)))
           (set_sent (sent σ ++ [(fd, concat iov)]) (set_sends rest σ))
  | SendErr e :: rest => Done (-1) (set_errno e (set_sends rest σ))
  end.

(** [recv(fd, b, sizeof(b), 0)]: the datagram, cut to the size of [b], is
    written over the start of [b]; the rest of [b] keeps what it held. *)
Definition recv (fd : Z) : M Z := λ σ,
  match recvs σ with
  | [] => Blocked
  | RecvOk d :: rest =>
      let d' := take sizeof_b d in
      Done (Z.of_nat (length d'))
           (set_stack (d' ++ drop (length d') (stack σ)) (set_recvs rest σ))
  | RecvErr e :: rest => Done (-1) (set_errno e (set_recvs rest σ))
  end.

(** *** Access to the array behind [samples->sample] *)

(** [samples->sample[i] = x] *)
Definition poke (i : Z) (x : sample) : M unit := λ σ,
  match sample_ptr (store σ) with
  | NULL => Fault
  | Block sl =>
      if decide (Z.to_nat i < length sl)%nat then
        Done tt (set_store {| sample_ptr := Block (<[Z.to_nat i := Some x]> sl);
                              len := len (store σ); cap := cap (store σ) |} σ)
      else Fault
  end.

(** the value of [samples->sample[i]] *)
Definition peek (i : Z) : M sample := λ σ,
  match sample_ptr (store σ) with
  | NULL => Fault
  | Block sl =>
      match sl !! Z.to_nat i with
      | Some (Some x) => Done x σ
      | _ => Fault
      end
  end.

Definition with_saddr (a : list byte) (x : sample) : sample :=
  {| family := family x; saddr := a; sport := sport x;
     daddr := daddr x; dport := dport x; info := info x |}.

Definition with_daddr (a : list byte) (x : sample) : sample :=
  {| family := family x; saddr := saddr x; sport := sport x;
     daddr := a; dport := dport x; info := info x |}.

(** *** send_request *)

Record nlmsghdr := {
  nlmsg_len : Z; nlmsg_type : Z; nlmsg_flags : Z; nlmsg_seq : Z; nlmsg_pid : Z;
}.

Record inet_diag_req_v2 := {
  sdiag_family : Z; sdiag_protocol : Z; idiag_ext : Z; pad : Z;
  idiag_states : Z;
  id : list byte;                  (* struct inet_diag_sockid *)
}.

(** The structs as the bytes [sendmsg] is pointed at. *)
Definition bytes_of_nlmsghdr (h : nlmsghdr) : list byte :=
  host_bytes 4 (nlmsg_len h) ++ host_bytes 2 (nlmsg_type h)
  ++ host_bytes 2 (nlmsg_flags h) ++ host_bytes 4 (nlmsg_seq h)
  ++ host_bytes 4 (nlmsg_pid h).

Definition bytes_of_req (r : inet_diag_req_v2) : list byte :=
  [byte_of (sdiag_family r); byte_of (sdiag_protocol r);
   byte_of (idiag_ext r); byte_of (pad r)]
  ++ host_bytes 4 (idiag_states r) ++ id r.

(** The two structs [send_request] fills in ([= {0}], then the fields). *)
Definition request_r (family : Z) : inet_diag_req_v2 :=
  {| sdiag_family := family;
     sdiag_protocol := IPPROTO_TCP;
     idiag_ext := wrap8 (Z.lor 0 (Z.shiftl 1 (INET_DIAG_INFO - 1)));
     pad := 0;
     idiag_states := Z.shiftl 1 TCP_ESTABLISHED;
     id := zeros sizeof_inet_diag_sockid |}.

Definition request_h : nlmsghdr :=
  {| nlmsg_len := NLMSG_LENGTH sizeof_inet_diag_req_v2;
     nlmsg_type := SOCK_DIAG_BY_FAMILY;
     nlmsg_flags := Z.lor NLM_F_DUMP NLM_F_REQUEST;
     nlmsg_seq := 0;
     nlmsg_pid := 0 |}.

(** The message goes to the kernel (a zeroed [struct sockaddr_nl] with
    [nl_family = AF_NETLINK]) as an [iovec] of the two structs. *)
Definition send_request (fd : Z) (family : Z) : M Z :=
  let r := request_r family in
  let h := request_h in
  let v := [bytes_of_nlmsghdr h; bytes_of_req r] in
  sendmsg fd v.

(** *** grow *)

Definition grow : M unit :=
  let* s := gets store in
  let c := if cap s =? 0 then INIT_CAP else wrap32 (cap s * 2) in
  let* p := realloc (sample_ptr s) c in
  modify (set_store {| sample_ptr := p; len := len s; cap := c |}).

(** *** parse_response *)

(** The body of [if (attr->rta_type == INET_DIAG_INFO)], lines 94 to 111:
    grow when full, write the compound literal into the next slot, copy
    the two addresses over its zeroed address fields, count the sample. *)
Definition store_sample (msg attr : list byte) : M unit :=
  let t := RTA_DATA attr in
  let* s := gets store in
  when (bool_decide (cap s ≤ len s)) grow ;;;
  let* i := gets (λ σ, len (store σ)) in
  let* fam := deref (load_uint msg off_idiag_family 1) in
  let* sp := deref (load_uint msg off_idiag_sport 2) in
  let* dp := deref (load_uint msg off_idiag_dport 2) in
  let* ti := deref (load t 0 sizeof_tcp_info) in
  poke i {| family := fam; saddr := zeros 16; sport := htons sp;
            daddr := zeros 16; dport := htons dp; info := ti |} ;;;
  let al := if fam =? AF_INET then 4%nat else 16%nat in
  let* src := deref (load msg off_idiag_src al) in
  let* x := peek i in
  poke i (with_saddr (memcpy (saddr x) src al) x) ;;;
  let* dst := deref (load msg off_idiag_dst al) in
  let* x := peek i in
  poke i (with_daddr (memcpy (daddr x) dst al) x) ;;;
  modify (λ σ, set_store {| sample_ptr := sample_ptr (store σ);
                            len := wrap32 (len (store σ) + 1);
                            cap := cap (store σ) |} σ).

(** The [while (RTA_OK(attr, rtalen))] loop; [RTA_NEXT] subtracts in
    [unsigned int] and stores the result back into the [int] [rtalen]. *)
Fixpoint parse_attrs (fuel : nat) (msg attr : list byte) (rtalen : Z) : M unit :=
  let* ok := deref (RTA_OK attr rtalen) in
  if negb ok then ret tt
  else
    match fuel with
    | O => λ _, OutOfFuel
    | S fuel' =>
        let* rta_len := deref (load_uint attr off_rta_len 2) in
        let* rta_type := deref (load_uint attr off_rta_type 2) in
        when (rta_type =? INET_DIAG_INFO) (store_sample msg attr) ;;;
        parse_attrs fuel' msg (advance attr (RTA_ALIGN rta_len))
                    (to_int (rtalen - RTA_ALIGN rta_len))
    end.

Definition parse_response (msg : list byte) (rtalen : Z) : M unit :=
  let attr := advance msg sizeof_inet_diag_msg in      (* msg + 1 *)
  parse_attrs (Z.to_nat rtalen) msg attr rtalen.

(** *** sockdiag_sample *)

(** The [while (NLMSG_OK(h, n))] loop over the envelopes of one datagram.
    [Some r] is a [return r] out of [sockdiag_sample]; [None] is the end
    of the loop.  [rl] and the new [n] are computed in unsigned arithmetic
    and stored into an [int]; [-e->error] is taken to wrap for the one
    value, [INT_MIN], that has no negation. *)
Fixpoint parse_msgs (fuel : nat) (h : list byte) (n : Z) : M (option Z) :=
  let* ok := deref (NLMSG_OK h n) in
  if negb ok then ret None
  else
    match fuel with
    | O => λ _, OutOfFuel
    | S fuel' =>
        let* nlmsg_len := deref (load_uint h off_nlmsg_len 4) in
        let* nlmsg_type := deref (load_uint h off_nlmsg_type 2) in
        if nlmsg_type =? NLMSG_DONE then ret (Some 0)
        else if nlmsg_type =? NLMSG_ERROR then
          let e := NLMSG_DATA h in
          (if nlmsg_len <? NLMSG_LENGTH sizeof_nlmsgerr then
             modify (set_errno ENODATA)
           else
             let* error := deref (load_int e 0) in
             modify (set_errno (to_int (- error)))) ;;;
          ret (Some (-1))
        else
          let m := NLMSG_DATA h in
          let rl := to_int (nlmsg_len - NLMSG_LENGTH sizeof_inet_diag_msg) in
          when (0 <? rl) (parse_response m rl) ;;;
          parse_msgs fuel' (advance h (NLMSG_ALIGN nlmsg_len))
                     (to_int (n - NLMSG_ALIGN nlmsg_len))
    end.

(** The [while (1)] loop; each turn consumes one result of [recv], and
    [fuel] is the number of results the script still holds. *)
Fixpoint recv_loop (fuel : nat) (fd : Z) : M Z :=
  let* n := recv fd in
  if n =? -1 then ret (-1)
  else
    let* b := gets stack in
    let* r := parse_msgs (Z.to_nat n) b n in
    match r with
    | Some v => ret v
    | None =>
        match fuel with
        | O => λ _, OutOfFuel
        | S fuel' => recv_loop fuel' fd
        end
    end.

Definition zero_samples : samples := {| sample_ptr := NULL; len := 0; cap := 0 |}.

Definition sockdiag_sample (fd : Z) (family : Z) : M Z :=
  let* r := send_request fd family in
  if r <? 0 then ret (-1)
  else
    modify (set_store zero_samples) ;;;
    grow ;;;
    let* k := gets (λ σ, length (recvs σ)) in
    recv_loop k fd.
End Program.

(** ** The wire format, as the kernel lays it out

    The sampler only decodes.  To say what it decodes, this section builds
    the messages: an attribute, a connection-info record, an envelope. *)

Section Wire.
Context `{Platform}.

(** Zero bytes up to the next multiple of four. *)
Definition padding (n : nat) : list byte := zeros ((4 - n mod 4) mod 4).

(** [struct rtattr] followed by its payload. *)
Record attribute := {
  rta_type : Z;
  rta_payload : list byte;
}.

Definition bytes_of_attribute (a : attribute) : list byte :=
  host_bytes 2 (4 + Z.of_nat (length (rta_payload a)))
  ++ host_bytes 2 (rta_type a)
  ++ rta_payload a ++ padding (length (rta_payload a)).

Definition bytes_of_attributes (l : list attribute) : list byte :=
  concat (bytes_of_attribute <$> l).

(** [struct inet_diag_msg]; the ports travel in network byte order. *)
Record inet_diag_msg := {
  idiag_family : Z;
  idiag_state : Z;
  idiag_timer : Z;
  idiag_retrans : Z;
  idiag_sport : Z;
  idiag_dport : Z;
  idiag_src : list byte;
  idiag_dst : list byte;
  idiag_if : Z;
  idiag_cookie : list byte;
  idiag_expires : Z;
  idiag_rqueue : Z;
  idiag_wqueue : Z;
  idiag_uid : Z;
  idiag_inode : Z;
}.

Definition bytes_of_inet_diag_msg (m : inet_diag_msg) : list byte :=
  [byte_of (idiag_family m); byte_of (idiag_state m);
   byte_of (idiag_timer m); byte_of (idiag_retrans m)]
  ++ be_bytes 2 (idiag_sport m) ++ be_bytes 2 (idiag_dport m)
  ++ idiag_src m ++ idiag_dst m
  ++ host_bytes 4 (idiag_if m) ++ idiag_cookie m
  ++ host_bytes 4 (idiag_expires m) ++ host_bytes 4 (idiag_rqueue m)
  ++ host_bytes 4 (idiag_wqueue m) ++ host_bytes 4 (idiag_uid m)
  ++ host_bytes 4 (idiag_inode m).

Record wf_inet_diag_msg (m : inet_diag_msg) : Prop := {
  wf_family : 0 ≤ idiag_family m < 256;
  wf_sport : 0 ≤ idiag_sport m < 65536;
  wf_dport : 0 ≤ idiag_dport m < 65536;
  wf_src : length (idiag_src m) = 16%nat;
  wf_dst : length (idiag_dst m) = 16%nat;
  wf_cookie : length (idiag_cookie m) = 8%nat;
}.

(** An envelope: [struct nlmsghdr], the payload, padding. *)
Record envelope := {
  env_type : Z;
  env_flags : Z;
  env_seq : Z;
  env_pid : Z;
  env_payload : list byte;
}.

Definition bytes_of_envelope (e : envelope) : list byte :=
  bytes_of_nlmsghdr
    {| nlmsg_len := 16 + Z.of_nat (length (env_payload e));
       nlmsg_type := env_type e; nlmsg_flags := env_flags e;
       nlmsg_seq := env_seq e; nlmsg_pid := env_pid e |}
  ++ env_payload e ++ padding (length (env_payload e)).

(** A connection-info envelope: the record, its attributes, and whatever
    bytes follow the last attribute inside the envelope. *)
Record diag := {
  diag_type : Z;
  diag_flags : Z;
  diag_seq : Z;
  diag_pid : Z;
  diag_msg : inet_diag_msg;
  diag_attrs : list attribute;
  diag_tail : list byte;
}.

Definition envelope_of_diag (d : diag) : envelope :=
  {| env_type := diag_type d; env_flags := diag_flags d;
     env_seq := diag_seq d; env_pid := diag_pid d;
     env_payload := bytes_of_inet_diag_msg (diag_msg d)
                    ++ bytes_of_attributes (diag_attrs d) ++ diag_tail d |}.

Definition bytes_of_diag (d : diag) : list byte :=
  bytes_of_envelope (envelope_of_diag d).

Definition bytes_of_diags (l : list diag) : list byte :=
  concat (bytes_of_diag <$> l).

(** *** What the design document says the sampler makes of them *)

(** The sample for one extended-TCP-info attribute (section 4.3, item 3). *)
Definition sample_of (m : inet_diag_msg) (tcp_info : list byte) : sample :=
  let al := if idiag_family m =? AF_INET then 4%nat else 16%nat in
  {| family := idiag_family m;
     saddr := take al (idiag_src m) ++ zeros (16 - al);
     sport := idiag_sport m;
     daddr := take al (idiag_dst m) ++ zeros (16 - al);
     dport := idiag_dport m;
     info := tcp_info |}.

Definition is_info (a : attribute) : bool := rta_type a =? INET_DIAG_INFO.

Definition samples_of_attrs (m : inet_diag_msg) (l : list attribute) : list sample :=
  (λ a, sample_of m (take sizeof_tcp_info (rta_payload a))) <$> filter is_info l.

Definition samples_of_diag (d : diag) : list sample :=
  samples_of_attrs (diag_msg d) (diag_attrs d).

Definition samples_of_diags (l : list diag) : list sample :=
  l ≫= samples_of_diag.

(** [append(sample)] of the Sample Store (section 4.1): grow when the
    length has reached the capacity, write into the next free slot,
    increment the length. *)
Definition append (x : sample) : M unit :=
  let* s := gets store in
  when (bool_decide (cap s ≤ len s)) grow ;;;
  let* i := gets (λ σ, len (store σ)) in
  poke i x ;;;
  modify (λ σ, set_store {| sample_ptr := sample_ptr (store σ);
                            len := wrap32 (len (store σ) + 1);
                            cap := cap (store σ) |} σ).

Fixpoint appends (l : list sample) : M unit :=
  match l with
  | [] => ret tt
  | x :: l' => append x ;;; appends l'
  end.

(** Capacity after [n] appends: it starts at 16 and doubles whenever an
    append finds the length equal to the capacity. *)
Fixpoint capacity_after (n : nat) : Z :=
  match n with
  | O => INIT_CAP
  | S n' => if capacity_after n' =? Z.of_nat n' then 2 * capacity_after n'
            else capacity_after n'
  end.

(** The Store that holds exactly the samples [l], in this order. *)
Definition store_of (l : list sample) : samples :=
  {| sample_ptr :=
       Block ((Some <$> l)
              ++ replicate (Z.to_nat (capacity_after (length l)) - length l) None);
     len := Z.of_nat (length l);
     cap := capacity_after (length l) |}.

(** Element [i] of a Store. *)
Definition element (s : samples) (i : nat) : option sample :=
  if decide (Z.of_nat i < len s) then mjoin (slots_of (sample_ptr s) !! i)
  else None.
End Wire.

(** ** Well-formed input, invariants and the abstract view of the loops *)

(** The allocator never fails, now or later. *)
Definition alloc_ok (σ : state) : Prop := Forall (λ b, b = true) (allocs σ).

(** Two states agree on everything the kernel sees. *)
Record same_io (σ σ' : state) : Prop := {
  io_stack : stack σ' = stack σ;
  io_sends : sends σ' = sends σ;
  io_recvs : recvs σ' = recvs σ;
  io_sent : sent σ' = sent σ;
}.

(** A call returns, and its result and the state it leaves satisfy [P]. *)
Definition returns {A} (o : outcome A) (P : A → state → Prop) : Prop :=
  match o with
  | Done a σ => P a σ
  | _ => False
  end.

Section Spec.
Context `{Platform}.

(** An attribute the kernel can have written: tag and length fit their
    16-bit fields, and an extended-TCP-info attribute carries a whole
    [struct tcp_info]. *)
Record wf_attribute (a : attribute) : Prop := {
  wf_rta_type : 0 ≤ rta_type a < 65536;
  wf_rta_len : 4 + Z.of_nat (length (rta_payload a)) < 65536;
  wf_rta_info : is_info a = true → (sizeof_tcp_info ≤ length (rta_payload a))%nat;
}.

(** Bytes at which the attribute walk stops: too few for a header, or a
    header whose length is below four or beyond the bytes that are left. *)
Definition malformed (tail : list byte) : bool :=
  if decide (length tail < 4)%nat then true
  else match load_uint tail off_rta_len 2 with
       | Some l => bool_decide (l < 4) || bool_decide (Z.of_nat (length tail) < l)
       | None => true
       end.

(** An envelope whose type and length fit their header fields. *)
Record wf_envelope (e : envelope) : Prop := {
  wf_env_type : 0 ≤ env_type e < 65536;
  wf_env_len : 16 + Z.of_nat (length (env_payload e)) < 2 ^ 31;
}.

(** A connection-info envelope: neither end-of-dump nor error, a
    well-formed record and attributes, and behind them nothing, or bytes
    at which the attribute walk stops. *)
Record wf_diag (d : diag) : Prop := {
  wf_diag_type : 0 ≤ diag_type d < 65536;
  wf_diag_not_done : diag_type d ≠ NLMSG_DONE;
  wf_diag_not_error : diag_type d ≠ NLMSG_ERROR;
  wf_diag_msg : wf_inet_diag_msg (diag_msg d);
  wf_diag_attrs : Forall wf_attribute (diag_attrs d);
  wf_diag_tail : malformed (diag_tail d) = true;
}.

(** The [error] field of the [struct nlmsgerr] that starts a payload. *)
Definition error_field (payload : list byte) : Z :=
  to_int (host_val (take 4 payload)).

(** [recv] a datagram of connection-info envelopes, append its samples;
    then go on with [k]. *)
Fixpoint drain (fd : Z) (dss : list (list diag)) (k : M Z) : M Z :=
  match dss with
  | [] => k
  | ds :: dss' =>
      recv fd ;;; appends (samples_of_diags ds) ;;; drain fd dss' k
  end.

(** The invariant of the Store between appends. *)
Record store_inv (s : samples) : Prop := {
  inv_len : 0 ≤ len s ≤ cap s;
  inv_cap : 16 ≤ cap s < 2 ^ 32;
  inv_tight : cap s = 16 ∨ cap s < 2 * len s;
  inv_block : ∀ sl, sample_ptr s = Block sl → length sl = Z.to_nat (cap s);
}.

(** What a run of appends may change: the Store, kept within its
    invariant, the allocator script and [errno]; nothing else. *)
Definition steps (σ σ' : state) : Prop :=
  same_io σ σ' ∧ (store_inv (store σ) → store_inv (store σ')).

(** A datagram that holds connection-info envelopes. *)
Definition datagram_of (ds : list diag) : recv_result :=
  RecvOk (bytes_of_diags ds).

(** The datagram is not longer than the receive buffer. *)
Definition fits (ds : list diag) : Prop :=
  (length (bytes_of_diags ds) ≤ sizeof_b)%nat.

(** The request as [sendmsg] gathers it from the two [iovec] entries. *)
Definition request (family : Z) : list byte :=
  concat [bytes_of_nlmsghdr request_h; bytes_of_req (request_r family)].

(** The state in which the receive loop starts once the request is sent. *)
Definition after_send (fd family : Z) (ss : list send_result) (σ : state) : state :=
  set_store zero_samples
    (set_sent (sent σ ++ [(fd, request family)]) (set_sends ss σ)).

(** Lines 94 to 111 run once for each record and attribute of a list. *)
Fixpoint store_samples (l : list (list byte * list byte)) : M unit :=
  match l with
  | [] => ret tt
  | (msg, attr) :: l' => store_sample msg attr ;;; store_samples l'
  end.

(** *** Input that need not be well formed *)

(** All bytes of the datagrams a receive script holds. *)
Definition received (rs : list recv_result) : list byte :=
  rs ≫= λ r, match r with RecvOk d => d | RecvErr _ => [] end.

(** The Store can take an append: the allocator does not fail and the
    array is allocated. *)
Definition ready (σ : state) : Prop :=
  alloc_ok σ ∧ sample_ptr (store σ) ≠ NULL.

(** Every datagram of a receive script leaves room for one
    [struct tcp_info] behind it in the receive buffer. *)
Definition roomy (rs : list recv_result) : Prop :=
  Forall (λ r, ∀ d, r = RecvOk d →
                    (length d + sizeof_tcp_info ≤ sizeof_b)%nat) rs.

(** Every element of the Store below its length has been written. *)
Definition filled (s : samples) : Prop :=
  ∀ i, Z.of_nat i < len s → is_Some (element s i).
End Spec.

(** ** The process and its descriptors (sockdiag_open, sockdiag_close)

    [sockdiag_open] and [sockdiag_close] work on the descriptor table of
    the process.  The table, the memory of the sampler and the results of
    the coming [socket], [setsockopt] and [close] calls make up a
    [process]. *)

(** Modelled from the spec: the constants of the missing headers
    [<sys/socket.h>], [<linux/netlink.h>] and [<errno.h>] behind "creates
    the netlink socket bound to the diagnostics protocol family, sets a
    bounded receive timeout" (section 4.4), with the values of the Linux
    user-space ABI. *)
Definition AF_NETLINK : Z := 16.
Definition SOCK_DGRAM : Z := 2.
Definition NETLINK_SOCK_DIAG : Z := 4.
Definition SOL_SOCKET : Z := 1.
Definition SO_RCVTIMEO : Z := 20.
Definition EBADF : Z := 9.
Definition ENOPROTOOPT : Z := 92.

(** Modelled from the spec: [struct timeval] of the missing
    [<sys/time.h>], the type of the receive timeout "fixed at 1 second"
    (section 4.4). *)
Record timeval := { tv_sec : Z; tv_usec : Z }.

(** What the kernel keeps for an open socket; a zero [so_rcvtimeo] is no
    timeout. *)
Record socket_state := {
  so_domain : Z;
  so_type : Z;
  so_protocol : Z;
  so_rcvtimeo : timeval;
}.

Inductive sys_result :=
  | SysOk
  | SysErr (err : Z).

Record process := {
  memory : state;                        (* [errno] and the sampler's data *)
  descriptors : gmap nat socket_state;   (* the open descriptors *)
  syscalls : list sys_result;            (* results of the next system calls *)
}.

(** These calls always return. *)
Definition OS (A : Type) : Type := process → A * process.

Definition os_ret {A} (a : A) : OS A := λ π, (a, π).

Definition os_bind {A B} (m : OS A) (f : A → OS B) : OS B := λ π,
  let (a, π') := m π in f a π'.

Declare Scope os_scope.
Delimit Scope os_scope with OS.
Notation "'let*' x := m 'in' k" := (os_bind m (λ x, k))
  (at level 10, x binder, m at level 100, k at level 200) : os_scope.
Notation "m ;;; k" := (os_bind m (λ _, k))
  (at level 100, k at level 200, right associativity) : os_scope.

(** The socket behind an [int] descriptor, if it is open. *)
Definition descriptor (π : process) (fd : Z) : option socket_state :=
  if fd <? 0 then None else descriptors π !! Z.to_nat fd.

(** A system call fails: -1, and the error number in [errno]. *)
Definition fail_with (e : Z) (rest : list sys_result) (π : process) : Z * process :=
  (-1, {| memory := set_errno e (memory π); descriptors := descriptors π;
          syscalls := rest |}).

(** A socket as [socket] creates it: no timeout yet. *)
Definition new_socket (domain type protocol : Z) : socket_state :=
  {| so_domain := domain; so_type := type; so_protocol := protocol;
     so_rcvtimeo := {| tv_sec := 0; tv_usec := 0 |} |}.

Definition with_rcvtimeo (t : timeval) (s : socket_state) : socket_state :=
  {| so_domain := so_domain s; so_type := so_type s;
     so_protocol := so_protocol s; so_rcvtimeo := t |}.

(** [socket(domain, type, protocol)]: a descriptor that was not open, or
    -1.  Past the end of the script every call succeeds. *)
Definition socket (domain type protocol : Z) : OS Z := λ π,
  match syscalls π with
  | SysErr e :: rest => fail_with e rest π
  | script =>
      let fd := fresh (dom (descriptors π)) in
      (Z.of_nat fd,
       {| memory := memory π;
          descriptors := <[fd := new_socket domain type protocol]> (descriptors π);
          syscalls := tail script |})
  end.

(** [setsockopt(fd, level, optname, &optval, sizeof optval)] for an option
    whose value is a [struct timeval]; the receive timeout is the one
    option kept. *)
Definition setsockopt (fd level optname : Z) (optval : timeval) : OS Z := λ π,
  match descriptor π fd with
  | None => fail_with EBADF (syscalls π) π
  | Some s =>
      match syscalls π with
      | SysErr e :: rest => fail_with e rest π
      | script =>
          if (level =? SOL_SOCKET) && (optname =? SO_RCVTIMEO) then
            (0, {| memory := memory π;
                   descriptors :=
                     <[Z.to_nat fd := with_rcvtimeo optval s]> (descriptors π);
                   syscalls := tail script |})
          else fail_with ENOPROTOOPT (tail script) π
      end
  end.

(** [close(fd)]: on Linux the descriptor is released also when the call
    reports an error. *)
Definition close (fd : Z) : OS Z := λ π,
  match descriptor π fd with
  | None => fail_with EBADF (syscalls π) π
  | Some _ =>
      let released := delete (Z.to_nat fd) (descriptors π) in
      match syscalls π with
      | SysErr e :: rest =>
          (-1, {| memory := set_errno e (memory π); descriptors := released;
                  syscalls := rest |})
      | script =>
          (0, {| memory := memory π; descriptors := released;
                 syscalls := tail script |})
      end
  end.

Section Session.
Local Open Scope os_scope.

(** *** sockdiag_open

    The two [goto] targets are the two ways out with -1: after a failed
    [setsockopt] the descriptor is closed first. *)
Definition sockdiag_open : OS Z :=
  let* fd := socket AF_NETLINK SOCK_DGRAM NETLINK_SOCK_DIAG in
  if fd =? -1 then os_ret (-1)
  else
    let t := {| tv_sec := 1; tv_usec := 0 |} in
    let* r := setsockopt fd SOL_SOCKET SO_RCVTIMEO t in
    if r =? -1 then close fd ;;; os_ret (-1)
    else os_ret fd.

(** *** sockdiag_close *)
Definition sockdiag_close (fd : Z) : OS Z := close fd.
End Session.

(** The socket a successful [sockdiag_open] leaves behind its descriptor. *)
Definition sockdiag_socket : socket_state :=
  {| so_domain := AF_NETLINK; so_type := SOCK_DGRAM;
     so_protocol := NETLINK_SOCK_DIAG;
     so_rcvtimeo := {| tv_sec := 1; tv_usec := 0 |} |}.

(** ** Concrete inputs

    A little-endian 64-bit Linux, where [struct tcp_info] has 232 bytes,
    and the messages of a small dump: a connection from 10.0.0.1:40000 to
    10.0.0.2:80. *)

Definition linux_amd64 : Platform :=
  {| big_endian := false; sizeof_tcp_info := 232 |}.

Section Examples.
#[local] Existing Instance linux_amd64.

Definition ex_msg : inet_diag_msg :=
  {| idiag_family := AF_INET; idiag_state := TCP_ESTABLISHED;
     idiag_timer := 0; idiag_retrans := 0;
     idiag_sport := 40000; idiag_dport := 80;
     idiag_src := [x0a; x00; x00; x01] ++ zeros 12;
     idiag_dst := [x0a; x00; x00; x02] ++ zeros 12;
     idiag_if := 0; idiag_cookie := zeros 8;
     idiag_expires := 0; idiag_rqueue := 0; idiag_wqueue := 0;
     idiag_uid := 1000; idiag_inode := 4711 |}.

Definition ex_tcp_info : list byte := byte_of <$> seqZ 1 232.

Definition ex_info : attribute :=
  {| rta_type := INET_DIAG_INFO; rta_payload := ex_tcp_info |}.

(** An attribute of another kind (INET_DIAG_TOS), one byte long. *)
Definition ex_tos : attribute :=
  {| rta_type := 5; rta_payload := [x10] |}.

Definition ex_diag : diag :=
  {| diag_type := SOCK_DIAG_BY_FAMILY; diag_flags := 2; diag_seq := 0;
     diag_pid := 0; diag_msg := ex_msg;
     diag_attrs := [ex_tos; ex_info]; diag_tail := [] |}.

(** The same, followed by a header that claims 200 bytes where 8 are left. *)
Definition ex_diag_cut : diag :=
  {| diag_type := SOCK_DIAG_BY_FAMILY; diag_flags := 2; diag_seq := 0;
     diag_pid := 0; diag_msg := ex_msg;
     diag_attrs := [ex_info];
     diag_tail := host_bytes 2 200 ++ host_bytes 2 INET_DIAG_INFO ++ zeros 4 |}.

(** A connection-info envelope without any extended-TCP-info attribute. *)
Definition ex_diag_plain : diag :=
  {| diag_type := SOCK_DIAG_BY_FAMILY; diag_flags := 2; diag_seq := 0;
     diag_pid := 0; diag_msg := ex_msg;
     diag_attrs := [ex_tos]; diag_tail := [] |}.

Definition ex_done : envelope :=
  {| env_type := NLMSG_DONE; env_flags := 2; env_seq := 0; env_pid := 0;
     env_payload := zeros 4 |}.

(** The kernel's answer to a request it rejects with ENOENT (2): the
    [error] field holds -2, followed by the header of the request. *)
Definition ex_error : envelope :=
  {| env_type := NLMSG_ERROR; env_flags := 0; env_seq := 0; env_pid := 0;
     env_payload := host_bytes 4 (-2) ++ bytes_of_nlmsghdr request_h |}.

(** An error envelope cut short after two bytes of payload. *)
Definition ex_error_short : envelope :=
  {| env_type := NLMSG_ERROR; env_flags := 0; env_seq := 0; env_pid := 0;
     env_payload := zeros 2 |}.

(** A process in which the caller's [struct samples] holds [s]. *)
Definition ex_state (s : samples) (al : list bool) (ss : list send_result)
    (rs : list recv_result) : state :=
  {| errno := 0; store := s; stack := zeros sizeof_b; allocs := al;
     sends := ss; recvs := rs; sent := [] |}.

Definition ex_sample : sample := sample_of ex_msg ex_tcp_info.

(** An extended-TCP-info attribute that carries 8 bytes only. *)
Definition ex_info_short : attribute :=
  {| rta_type := INET_DIAG_INFO; rta_payload := take 8 ex_tcp_info |}.

(** A connection-info record without attributes. *)
Definition ex_bare : envelope :=
  {| env_type := SOCK_DIAG_BY_FAMILY; env_flags := 2; env_seq := 0;
     env_pid := 0; env_payload := bytes_of_inet_diag_msg ex_msg |}.

(** A Store at the largest capacity a [uint32_t] can double to; only its
    length and capacity matter. *)
Definition ex_full : samples :=
  {| sample_ptr := Block []; len := 2 ^ 31; cap := 2 ^ 31 |}.

(** A process with one open descriptor, a stream socket. *)
Definition ex_process (script : list sys_result) : process :=
  {| memory := ex_state zero_samples [] [] [];
     descriptors := {[ 0%nat := {| so_domain := 1; so_type := 1; so_protocol := 0;
                                  so_rcvtimeo := {| tv_sec := 0; tv_usec := 0 |} |} ]};
     syscalls := script |}.

(** A call on descriptor 3 whose first allocation fails and whose dump
    holds the end-of-dump envelope only. *)
Definition ex_call : state :=
  ex_state zero_samples [false] [SendOk; SendOk]
    [RecvOk (bytes_of_envelope ex_done)].

(** A datagram of 99 connection-info envelopes and the end-of-dump
    envelope, 32888 bytes. *)
Definition ex_oversized : list byte :=
  bytes_of_diags (replicate 98 ex_diag)
  ++ bytes_of_envelope (envelope_of_diag ex_diag) ++ bytes_of_envelope ex_done.

(** A call that starts with a sample of an earlier call in the Store and
    whose dump breaks off: one datagram, then a receive that times out. *)
Definition ex_partial : state :=
  ex_state (store_of [ex_sample]) [] [SendOk]
    [RecvOk (bytes_of_diags [ex_diag; ex_diag_cut]); RecvErr 11].

(** The kernel lets [socket] and [setsockopt] succeed and reports an
    error (EIO) from the [close] that follows. *)
Definition ex_session : process := ex_process [SysOk; SysOk; SysErr 5].
End Examples.

(** * Proofs *)

(** ** Bytes and integers *)

Lemma byte_val_range b : 0 ≤ byte_val b < 256.
Proof.
  unfold byte_val. pose proof (Byte.to_N_bounded b) as Hb. lia.
Qed.

Lemma byte_val_of z : byte_val (byte_of z) = z mod 256.
Proof.
  unfold byte_val, byte_of.
  pose proof (Z.mod_pos_bound z 256 ltac:(lia)) as Hz.
  destruct (Byte.of_N (Z.to_N (z mod 256))) as [b|] eqn:Hb.
  - simpl. apply Byte.to_of_N in Hb. rewrite Hb. lia.
  - apply Byte.of_N_None_iff in Hb. lia.
Qed.

Lemma length_le_bytes n z : length (le_bytes n z) = n.
Proof. revert z. induction n; intros; simpl; auto. Qed.

Lemma le_val_bytes n z : le_val (le_bytes n z) = z mod 256 ^ Z.of_nat n.
Proof.
  revert z. induction n as [|n IH]; intros z.
  - simpl. by rewrite Z.mod_1_r.
  - cbn [le_bytes le_val]. rewrite byte_val_of, IH.
    rewrite Nat2Z.inj_succ, Z.pow_succ_r by lia.
    rewrite Z.rem_mul_r by lia. lia.
Qed.

Lemma le_val_range bs : 0 ≤ le_val bs < 256 ^ Z.of_nat (length bs).
Proof.
  induction bs as [|b bs IH]; simpl length; [simpl; lia|].
  cbn [le_val]. rewrite Nat2Z.inj_succ, Z.pow_succ_r by lia.
  pose proof (byte_val_range b). lia.
Qed.

Lemma lor_shiftl_small a b k :
  0 ≤ k → 0 ≤ b < 2 ^ k → Z.lor (Z.shiftl a k) b = a * 2 ^ k + b.
Proof.
  intros Hk Hb. rewrite <- Z.shiftl_mul_pow2 by done.
  rewrite <- Z.add_lor_land.
  assert (Z.land (Z.shiftl a k) b = 0) as ->; [|lia].
  apply Z.bits_inj'; intros i Hi. rewrite Z.land_spec, Z.bits_0.
  destruct (decide (i < k)).
  - by rewrite Z.shiftl_spec_low by lia.
  - destruct (decide (b = 0)) as [->|]; [by rewrite Z.bits_0, andb_false_r|].
    rewrite (Z.bits_above_log2 b i); [by rewrite andb_false_r|lia|].
    apply Z.lt_le_trans with k; [apply Z.log2_lt_pow2; lia|lia].
Qed.

Lemma align4 x : 0 ≤ x < 2 ^ 32 → Z.land x (wrap32 (Z.lnot (4 - 1))) = 4 * (x / 4).
Proof.
  intros Hx. change (wrap32 (Z.lnot (4 - 1))) with (Z.ldiff (Z.ones 32) (Z.ones 2)).
  transitivity (Z.ldiff (Z.land x (Z.ones 32)) (Z.ones 2)).
  { apply Z.bits_inj'; intros i Hi. rewrite !Z.land_spec, !Z.ldiff_spec, Z.land_spec.
    by rewrite andb_assoc. }
  rewrite Z.land_ones by lia. rewrite Z.mod_small by lia.
  rewrite Z.ldiff_ones_r by lia. rewrite Z.shiftl_mul_pow2, Z.shiftr_div_pow2 by lia.
  change (2 ^ 2) with 4. lia.
Qed.

(** ** Loads and alignment *)

Section Facts.
Context `{Platform}.

Lemma length_host_bytes n z : length (host_bytes n z) = n.
Proof.
  unfold host_bytes, be_bytes. destruct big_endian;
    rewrite ?length_rev; apply length_le_bytes.
Qed.

Lemma host_val_bytes n z :
  0 ≤ z < 256 ^ Z.of_nat n → host_val (host_bytes n z) = z.
Proof.
  intros Hz. unfold host_val, host_bytes, be_val, be_bytes.
  destruct big_endian; rewrite ?rev_involutive, le_val_bytes;
    by apply Z.mod_small.
Qed.

Lemma host_val_range bs : 0 ≤ host_val bs < 256 ^ Z.of_nat (length bs).
Proof.
  unfold host_val, be_val. destruct big_endian.
  - rewrite <- (length_rev bs). apply le_val_range.
  - apply le_val_range.
Qed.

Lemma be_val_bytes n z :
  0 ≤ z < 256 ^ Z.of_nat n → be_val (be_bytes n z) = z.
Proof.
  intros Hz. unfold be_val, be_bytes.
  rewrite rev_involutive, le_val_bytes. by apply Z.mod_small.
Qed.

(** [htons] turns the two bytes of a port, loaded as a host-order
    [uint16_t], into the number they spell in network byte order. *)
Lemma htons_host_val b0 b1 : htons (host_val [b0; b1]) = be_val [b0; b1].
Proof.
  unfold htons, host_val. destruct big_endian; [done|].
  unfold be_val. cbn [rev app le_val].
  pose proof (byte_val_range b0). pose proof (byte_val_range b1).
  set (x := byte_val b0 + 256 * (byte_val b1 + 256 * 0)).
  assert (x / 256 = byte_val b1) as Hq
    by (symmetry; apply Z.div_unique with (byte_val b0); lia).
  assert (x mod 256 = byte_val b0) as Hr
    by (symmetry; apply Z.mod_unique with (byte_val b1); lia).
  change 255 with (Z.ones 8). rewrite !Z.land_ones by lia.
  rewrite Z.shiftr_div_pow2 by lia. change (2 ^ 8) with 256.
  rewrite Hq, Hr, (Z.mod_small (byte_val b1)) by lia.
  rewrite lor_shiftl_small by lia. change (2 ^ 8) with 256. lia.
Qed.

Lemma load_take bs post n :
  (n ≤ length bs)%nat → load (bs ++ post) 0 n = Some (take n bs).
Proof.
  intros Hn. unfold load. rewrite drop_0, take_app_le by done.
  rewrite decide_True; [done|]. rewrite length_take. lia.
Qed.

Lemma load_exact bs post : load (bs ++ post) 0 (length bs) = Some bs.
Proof. rewrite load_take by done. by rewrite firstn_all. Qed.

Lemma load_uint_host k z post :
  0 ≤ z < 256 ^ Z.of_nat k →
  load_uint (host_bytes k z ++ post) 0 k = Some z.
Proof.
  intros Hz. unfold load_uint.
  rewrite <- (length_host_bytes k z) at 2. rewrite load_exact. simpl.
  by rewrite host_val_bytes.
Qed.

Lemma NLMSG_ALIGN_eq n :
  0 ≤ n < 2 ^ 32 - 3 → NLMSG_ALIGN n = 4 * ((n + 3) / 4).
Proof.
  intros Hn. unfold NLMSG_ALIGN, wrap32 at 1.
  replace (n + 4 - 1) with (n + 3) by lia.
  rewrite Z.mod_small by lia. apply align4. lia.
Qed.

Lemma RTA_ALIGN_eq n :
  0 ≤ n < 2 ^ 32 - 3 → RTA_ALIGN n = 4 * ((n + 3) / 4).
Proof. apply NLMSG_ALIGN_eq. Qed.

Lemma length_padding n : length (padding n) = ((4 - n mod 4) mod 4)%nat.
Proof. unfold padding, zeros. apply length_replicate. Qed.

Lemma aligned_length n :
  4 * ((Z.of_nat n + 3) / 4) = Z.of_nat (n + length (padding n)).
Proof.
  rewrite length_padding.
  rewrite Nat2Z.inj_add, Nat2Z.inj_mod, Nat2Z.inj_sub, Nat2Z.inj_mod
    by (apply Nat.lt_le_incl, Nat.mod_upper_bound; lia).
  change (Z.of_nat 4) with 4. Z.div_mod_to_equations. lia.
Qed.
End Facts.

(** ** The Sample Store *)

Section Store.
Context `{Platform}.

Lemma same_io_refl σ : same_io σ σ.
Proof. by split. Qed.

Lemma same_io_trans σ1 σ2 σ3 : same_io σ1 σ2 → same_io σ2 σ3 → same_io σ1 σ3.
Proof. intros [] []. split; congruence. Qed.

Lemma bind_Done {A B} (m : M A) (f : A → M B) σ a σ' :
  m σ = Done a σ' → bind m f σ = f a σ'.
Proof. unfold bind. by intros ->. Qed.

Lemma capacity_after_ge n : Z.of_nat n ≤ capacity_after n ∧ 16 ≤ capacity_after n.
Proof.
  induction n as [|n [IH1 IH2]]; [by compute|].
  cbn [capacity_after]. destruct (Z.eqb_spec (capacity_after n) (Z.of_nat n)); lia.
Qed.

Lemma capacity_after_le n : capacity_after n ≤ Z.max 16 (2 * Z.of_nat n).
Proof.
  induction n as [|n IH]; [by compute|].
  cbn [capacity_after]. destruct (Z.eqb_spec (capacity_after n) (Z.of_nat n)); lia.
Qed.

Lemma capacity_after_small n : (n ≤ 16)%nat → capacity_after n = 16.
Proof.
  induction n as [|n IH]; [done|]. intros Hn.
  cbn [capacity_after]. rewrite IH by lia.
  destruct (Z.eqb_spec 16 (Z.of_nat n)); [lia|done].
Qed.

Lemma realloc_ok p n σ :
  alloc_ok σ →
  ∃ σ', realloc p n σ = Done (Block (resize (Z.to_nat n) (slots_of p))) σ'
        ∧ store σ' = store σ ∧ errno σ' = errno σ
        ∧ alloc_ok σ' ∧ same_io σ σ'.
Proof.
  unfold alloc_ok, realloc. intros Hok.
  destruct (allocs σ) as [|b rest] eqn:Ha.
  - exists σ. rewrite Ha. auto using same_io_refl.
  - apply Forall_cons in Hok as [-> Hrest].
    eexists. split; [done|]. by repeat split.
Qed.

Lemma resize_store_of (l : list sample) k n :
  (length l ≤ n)%nat →
  resize n ((Some <$> l) ++ replicate k None)
  = (Some <$> l) ++ replicate (n - length l) None.
Proof.
  intros Hn. unfold resize.
  rewrite length_app, length_fmap, length_replicate.
  rewrite take_app_ge by (rewrite length_fmap; lia).
  rewrite length_fmap, take_replicate, <- app_assoc, <- replicate_add.
  do 2 f_equal. lia.
Qed.

Lemma insert_store_of (l : list sample) k x :
  (0 < k)%nat →
  <[length l := Some x]> ((Some <$> l) ++ replicate k None)
  = (Some <$> (l ++ [x])) ++ replicate (k - 1) None.
Proof.
  intros Hk. destruct k as [|k]; [lia|].
  rewrite insert_app_r_alt by (rewrite length_fmap; lia).
  rewrite length_fmap, Nat.sub_diag. cbn [replicate].
  rewrite fmap_app, <- app_assoc. cbn. by rewrite Nat.sub_0_r.
Qed.

Lemma grow_ok σ :
  alloc_ok σ →
  let c := if cap (store σ) =? 0 then INIT_CAP else wrap32 (cap (store σ) * 2) in
  ∃ σ', grow σ = Done tt σ'
        ∧ store σ' = {| sample_ptr := Block (resize (Z.to_nat c)
                                               (slots_of (sample_ptr (store σ))));
                        len := len (store σ); cap := c |}
        ∧ errno σ' = errno σ ∧ alloc_ok σ' ∧ same_io σ σ'.
Proof.
  intros Hok c. unfold grow.
  erewrite bind_Done by (unfold gets; reflexivity).
  destruct (realloc_ok (sample_ptr (store σ)) c σ Hok)
    as (σ1 & Hre & Hst1 & Herr1 & Hok1 & Hio1).
  erewrite bind_Done by exact Hre.
  eexists. split; [done|]. split; [done|]. split; [done|]. split; [done|].
  destruct Hio1. by split.
Qed.

Lemma poke_store_of l k x σ :
  store σ = {| sample_ptr := Block ((Some <$> l) ++ replicate k None);
               len := Z.of_nat (length l); cap := Z.of_nat (length l + k) |} →
  (0 < k)%nat →
  poke (Z.of_nat (length l)) x σ
  = Done tt (set_store
      {| sample_ptr := Block ((Some <$> (l ++ [x])) ++ replicate (k - 1) None);
         len := Z.of_nat (length l); cap := Z.of_nat (length l + k) |} σ).
Proof.
  intros Hst Hk. unfold poke. rewrite Hst. cbn [sample_ptr len cap].
  rewrite decide_True; last first.
  { rewrite length_app, length_fmap, length_replicate. lia. }
  by rewrite Nat2Z.id, insert_store_of.
Qed.

(** One append to a Store that holds [l]. *)
Lemma append_store_of l x σ :
  alloc_ok σ → store σ = store_of l → Z.of_nat (length l) < 2 ^ 31 →
  ∃ σ', append x σ = Done tt σ' ∧ store σ' = store_of (l ++ [x])
        ∧ errno σ' = errno σ ∧ alloc_ok σ' ∧ same_io σ σ'.
Proof.
  intros Hok Hst Hlen.
  pose proof (capacity_after_ge (length l)) as [Hc1 Hc2].
  pose proof (capacity_after_le (length l)) as Hc3.
  assert (∃ σ1, when (bool_decide (cap (store σ) ≤ len (store σ))) grow σ = Done tt σ1
            ∧ store σ1 = {| sample_ptr := Block ((Some <$> l) ++ replicate
                 (Z.to_nat (capacity_after (S (length l))) - length l) None);
               len := Z.of_nat (length l);
               cap := Z.of_nat (length l + (Z.to_nat (capacity_after (S (length l))) - length l)) |}
            ∧ Z.of_nat (length l) < capacity_after (S (length l)) < 2 ^ 32
            ∧ errno σ1 = errno σ ∧ alloc_ok σ1 ∧ same_io σ σ1)
    as (σ1 & Hw & Hst1 & Hc & Herr1 & Hok1 & Hio1).
  { rewrite Hst. cbn [cap len store_of capacity_after].
    case_bool_decide as Hfull; cbn [when].
    - assert (capacity_after (length l) = Z.of_nat (length l)) as Hcap by lia.
      destruct (grow_ok σ Hok) as (σ1 & Hg & Hst1 & Hrest).
      exists σ1. split; [done|]. split; [|split; [|done]].
      + rewrite Hst1, Hst. cbn [cap len sample_ptr store_of slots_of].
        rewrite Hcap, Z.eqb_refl.
        destruct (Z.eqb_spec (Z.of_nat (length l)) 0) as [|_]; [lia|].
        unfold wrap32. rewrite Z.mod_small by lia.
        rewrite resize_store_of by lia.
        f_equal; [do 3 f_equal|]; lia.
      + rewrite Hcap, Z.eqb_refl. lia.
    - exists σ. split; [done|].
      destruct (Z.eqb_spec (capacity_after (length l)) (Z.of_nat (length l))); [lia|].
      split; [|split; [lia|by auto using same_io_refl]].
      rewrite Hst. unfold store_of. f_equal. lia. }
  unfold append.
  erewrite bind_Done by (unfold gets; reflexivity).
  erewrite bind_Done by exact Hw.
  erewrite bind_Done by (unfold gets; reflexivity).
  rewrite Hst1. cbn [len]. erewrite bind_Done; last first.
  { apply poke_store_of; [done|lia]. }
  eexists. split; [done|]. cbn [store set_store sample_ptr len cap errno allocs].
  split; [|split; [done|split; [done|]]].
  - unfold store_of. rewrite length_app. cbn [length].
    replace (length l + 1)%nat with (S (length l)) by lia.
    unfold wrap32. rewrite Z.mod_small by lia.
    f_equal; [do 3 f_equal|..]; lia.
  - destruct Hio1. by split.
Qed.

Lemma appends_store_of l l' σ :
  alloc_ok σ → store σ = store_of l →
  Z.of_nat (length (l ++ l')) ≤ 2 ^ 31 →
  ∃ σ', appends l' σ = Done tt σ' ∧ store σ' = store_of (l ++ l')
        ∧ errno σ' = errno σ ∧ alloc_ok σ' ∧ same_io σ σ'.
Proof.
  revert l σ. induction l' as [|x l' IH]; intros l σ Hok Hst Hlen.
  - exists σ. rewrite app_nil_r. auto using same_io_refl.
  - rewrite length_app in Hlen. cbn [length] in Hlen.
    destruct (append_store_of l x σ Hok Hst ltac:(lia))
      as (σ1 & Ha & Hst1 & Herr1 & Hok1 & Hio1).
    destruct (IH (l ++ [x]) σ1 Hok1 Hst1) as (σ2 & Hb & Hst2 & Herr2 & Hok2 & Hio2).
    { rewrite !length_app. cbn [length]. lia. }
    exists σ2. cbn [appends]. erewrite bind_Done by exact Ha.
    rewrite <- app_assoc in Hst2. split; [done|]. split; [done|].
    split; [congruence|]. split; [done|]. by eapply same_io_trans.
Qed.
End Store.

(** ** Attributes *)

Section Attrs.
Context `{Platform}.

Lemma bind_ext {A B} (m : M A) (f g : A → M B) σ :
  (∀ a σ', f a σ' = g a σ') → bind m f σ = bind m g σ.
Proof. intros Hfg. unfold bind. destruct (m σ); auto. Qed.

Lemma bind_ret {A B} (a : A) (f : A → M B) σ : bind (ret a) f σ = f a σ.
Proof. done. Qed.

Lemma length_bytes_of_inet_diag_msg m :
  wf_inet_diag_msg m → length (bytes_of_inet_diag_msg m) = 72%nat.
Proof.
  intros []. unfold bytes_of_inet_diag_msg, be_bytes.
  rewrite !length_app, !length_host_bytes, !length_rev, !length_le_bytes.
  cbn [length]. lia.
Qed.

Lemma length_be_bytes n z : length (be_bytes n z) = n.
Proof. unfold be_bytes. by rewrite length_rev, length_le_bytes. Qed.

Lemma load_skip pre p off off' n :
  off = (length pre + off')%nat → load (pre ++ p) off n = load p off' n.
Proof. intros ->. unfold load. by rewrite <- drop_drop, drop_app_length. Qed.

Lemma load_app_exact bs post n :
  length bs = n → load (bs ++ post) 0 n = Some bs.
Proof. intros <-. apply load_exact. Qed.

Lemma load_msg_family m post :
  wf_inet_diag_msg m →
  load_uint (bytes_of_inet_diag_msg m ++ post) off_idiag_family 1
  = Some (idiag_family m).
Proof.
  intros []. unfold load_uint, bytes_of_inet_diag_msg. rewrite <- !app_assoc.
  rewrite load_take by (cbn; lia). cbn [take fmap option_fmap option_map].
  f_equal. unfold host_val, be_val. cbn [rev app le_val].
  destruct big_endian; rewrite byte_val_of, Z.mod_small; lia.
Qed.

Lemma load_msg_sport m post :
  wf_inet_diag_msg m →
  htons <$> load_uint (bytes_of_inet_diag_msg m ++ post) off_idiag_sport 2
  = Some (idiag_sport m).
Proof.
  intros []. unfold load_uint, bytes_of_inet_diag_msg. rewrite <- !app_assoc.
  rewrite (load_skip _ _ _ 0) by done.
  rewrite load_app_exact by apply length_be_bytes.
  cbn [fmap option_fmap option_map]. f_equal.
  change (be_bytes 2 (idiag_sport m))
    with [byte_of (idiag_sport m / 256); byte_of (idiag_sport m)].
  rewrite htons_host_val. by apply (be_val_bytes 2).
Qed.

Lemma load_msg_dport m post :
  wf_inet_diag_msg m →
  htons <$> load_uint (bytes_of_inet_diag_msg m ++ post) off_idiag_dport 2
  = Some (idiag_dport m).
Proof.
  intros []. unfold load_uint, bytes_of_inet_diag_msg. rewrite <- !app_assoc.
  rewrite (load_skip _ _ _ 2) by done.
  rewrite (load_skip _ _ _ 0) by (by rewrite length_be_bytes).
  rewrite load_app_exact by apply length_be_bytes.
  cbn [fmap option_fmap option_map]. f_equal.
  change (be_bytes 2 (idiag_dport m))
    with [byte_of (idiag_dport m / 256); byte_of (idiag_dport m)].
  rewrite htons_host_val. by apply (be_val_bytes 2).
Qed.

Lemma load_msg_src m post al :
  wf_inet_diag_msg m → (al ≤ 16)%nat →
  load (bytes_of_inet_diag_msg m ++ post) off_idiag_src al
  = Some (take al (idiag_src m)).
Proof.
  intros [] Hal. unfold bytes_of_inet_diag_msg. rewrite <- !app_assoc.
  rewrite (load_skip _ _ _ 4) by done.
  rewrite (load_skip _ _ _ 2) by (by rewrite length_be_bytes).
  rewrite (load_skip _ _ _ 0) by (by rewrite length_be_bytes).
  apply load_take. lia.
Qed.

Lemma load_msg_dst m post al :
  wf_inet_diag_msg m → (al ≤ 16)%nat →
  load (bytes_of_inet_diag_msg m ++ post) off_idiag_dst al
  = Some (take al (idiag_dst m)).
Proof.
  intros [] Hal. unfold bytes_of_inet_diag_msg. rewrite <- !app_assoc.
  rewrite (load_skip _ _ _ 20) by done.
  rewrite (load_skip _ _ _ 18) by (by rewrite length_be_bytes).
  rewrite (load_skip _ _ _ 16) by (by rewrite length_be_bytes).
  rewrite (load_skip _ _ _ 0) by lia.
  apply load_take. lia.
Qed.

Lemma bytes_of_attribute_length a :
  Z.of_nat (length (bytes_of_attribute a))
  = 4 * ((4 + Z.of_nat (length (rta_payload a)) + 3) / 4).
Proof.
  unfold bytes_of_attribute.
  rewrite !length_app, !length_host_bytes.
  pose proof (aligned_length (length (rta_payload a))) as Ha.
  rewrite Nat2Z.inj_add in Ha.
  replace (4 + Z.of_nat (length (rta_payload a)) + 3)
    with ((Z.of_nat (length (rta_payload a)) + 3) + 1 * 4) by lia.
  rewrite Z.div_add by lia. lia.
Qed.

Lemma load_attr_len a rest :
  wf_attribute a →
  load_uint (bytes_of_attribute a ++ rest) off_rta_len 2
  = Some (4 + Z.of_nat (length (rta_payload a))).
Proof.
  intros []. unfold bytes_of_attribute. rewrite <- !app_assoc.
  apply load_uint_host. change (256 ^ Z.of_nat 2) with 65536. lia.
Qed.

Lemma load_attr_type a rest :
  wf_attribute a →
  load_uint (bytes_of_attribute a ++ rest) off_rta_type 2 = Some (rta_type a).
Proof.
  intros []. unfold bytes_of_attribute, load_uint. rewrite <- !app_assoc.
  rewrite (load_skip _ _ _ 0) by (by rewrite length_host_bytes).
  by apply load_uint_host.
Qed.

Lemma load_attr_data a rest n :
  (n ≤ length (rta_payload a))%nat →
  load (RTA_DATA (bytes_of_attribute a ++ rest)) 0 n = Some (take n (rta_payload a)).
Proof.
  intros Hn. unfold RTA_DATA, advance, bytes_of_attribute.
  change (Z.to_nat (RTA_LENGTH 0)) with 4%nat. rewrite <- !app_assoc.
  rewrite app_assoc. rewrite drop_app_length'
    by (by rewrite length_app, !length_host_bytes).
  by apply load_take.
Qed.

Lemma bind_ext' {A B} (m m' : M A) (f : A → M B) σ :
  m σ = m' σ → bind m f σ = bind m' f σ.
Proof. unfold bind. by intros ->. Qed.

Lemma memcpy_zeros src al :
  (al ≤ 16)%nat → (al ≤ length src)%nat →
  memcpy (zeros 16) (take al src) al = take al src ++ zeros (16 - al).
Proof.
  intros Hal Hsrc. unfold memcpy, zeros.
  by rewrite take_take, Nat.min_id, drop_replicate.
Qed.

(** What [store_sample] makes of an encoded record and attribute is an
    [append] of the sample the design document describes. *)
Lemma store_sample_append m a post rest σ :
  wf_inet_diag_msg m →
  (sizeof_tcp_info ≤ length (rta_payload a))%nat →
  store_sample (bytes_of_inet_diag_msg m ++ post) (bytes_of_attribute a ++ rest) σ
  = append (sample_of m (take sizeof_tcp_info (rta_payload a))) σ.
Proof.
  intros Hm Ha. unfold store_sample, append.
  apply bind_ext; intros s σ1. apply bind_ext; intros [] σ2.
  apply bind_ext; intros i σ3.
  pose proof (load_msg_sport m post Hm) as (sp & Hsp & Hsp')%fmap_Some.
  pose proof (load_msg_dport m post Hm) as (dp & Hdp & Hdp')%fmap_Some.
  rewrite (load_msg_family m post Hm), Hsp, Hdp, load_attr_data by done.
  cbn [deref]. rewrite !bind_ret. cbv beta zeta.
  rewrite !load_msg_src, !load_msg_dst
    by (done || destruct (idiag_family m =? AF_INET); lia).
  rewrite <- Hsp', <- Hdp'.
  destruct Hm as [_ _ _ Hsrc Hdst _].
  unfold bind, deref, ret, poke, peek, modify.
  destruct (sample_ptr (store σ3)) as [|sl]; [done|].
  case_decide as Hi; [|done]. unfold set_store.
  repeat first
    [ rewrite list_lookup_insert_eq by (rewrite ?length_insert; done)
    | rewrite decide_True by (rewrite ?length_insert; done)
    | progress simpl ].
  rewrite !list_insert_insert_eq. unfold with_daddr, with_saddr, sample_of. simpl.
  destruct (idiag_family m =? AF_INET);
    rewrite !memcpy_zeros by lia; done.
Qed.

Lemma bind_assoc {A B C} (m : M A) (f : A → M B) (g : B → M C) σ :
  bind (bind m f) g σ = bind m (λ a, bind (f a) g) σ.
Proof. unfold bind. by destruct (m σ). Qed.

Lemma bind_ret_tt (m : M unit) σ : (m ;;; ret tt) σ = m σ.
Proof. unfold bind, ret. by destruct (m σ) as [[] ?| | |]. Qed.

Lemma load_app_l p q off n :
  (off + n ≤ length p)%nat → load (p ++ q) off n = load p off n.
Proof.
  intros Hn. unfold load. rewrite drop_app_le by lia.
  by rewrite take_app_le by (rewrite length_drop; lia).
Qed.

Lemma to_int_small z : - 2 ^ 31 ≤ z < 2 ^ 31 → to_int z = z.
Proof. intros Hz. unfold to_int. rewrite Z.mod_small; lia. Qed.

Lemma RTA_ALIGN_attribute a :
  wf_attribute a →
  RTA_ALIGN (4 + Z.of_nat (length (rta_payload a)))
  = Z.of_nat (length (bytes_of_attribute a)).
Proof.
  intros []. rewrite RTA_ALIGN_eq by lia. by rewrite bytes_of_attribute_length.
Qed.

Lemma bytes_of_attribute_ge a :
  4 + Z.of_nat (length (rta_payload a)) ≤ Z.of_nat (length (bytes_of_attribute a)).
Proof.
  unfold bytes_of_attribute. rewrite !length_app, !length_host_bytes. lia.
Qed.

Lemma RTA_OK_attribute a rest n :
  wf_attribute a → Z.of_nat (length (bytes_of_attribute a)) ≤ n →
  RTA_OK (bytes_of_attribute a ++ rest) n = Some true.
Proof.
  intros Ha Hn. pose proof (bytes_of_attribute_ge a).
  unfold RTA_OK, sizeof_rtattr.
  destruct (Z.ltb_spec n 4); [lia|].
  rewrite load_attr_len by done. cbn.
  by rewrite !bool_decide_true by lia.
Qed.

(** One turn of the attribute loop on a well-formed attribute. *)
Lemma parse_attrs_cons fuel m post a rest n σ :
  wf_inet_diag_msg m → wf_attribute a →
  Z.of_nat (length (bytes_of_attribute a)) ≤ n < 2 ^ 31 →
  parse_attrs (S fuel) (bytes_of_inet_diag_msg m ++ post)
              (bytes_of_attribute a ++ rest) n σ
  = (when (is_info a)
          (append (sample_of m (take sizeof_tcp_info (rta_payload a)))) ;;;
     parse_attrs fuel (bytes_of_inet_diag_msg m ++ post) rest
                 (n - Z.of_nat (length (bytes_of_attribute a)))) σ.
Proof.
  intros Hm Ha Hn. cbn [parse_attrs].
  rewrite RTA_OK_attribute, load_attr_len, load_attr_type by (done || lia).
  repeat (cbn [deref negb]; rewrite bind_ret; cbv beta).
  rewrite RTA_ALIGN_attribute by done.
  rewrite to_int_small by lia.
  unfold advance. rewrite Nat2Z.id, drop_app_length.
  apply bind_ext'. unfold is_info.
  destruct (rta_type a =? INET_DIAG_INFO) eqn:Hty; cbn [when]; [|done].
  apply store_sample_append; [done|]. apply Ha. by unfold is_info.
Qed.

Lemma samples_of_attrs_cons m a l :
  samples_of_attrs m (a :: l)
  = (if is_info a then [sample_of m (take sizeof_tcp_info (rta_payload a))] else [])
    ++ samples_of_attrs m l.
Proof.
  unfold samples_of_attrs. rewrite filter_cons.
  destruct (is_info a); by rewrite ?decide_True, ?decide_False by (by simpl).
Qed.

Lemma bytes_of_attributes_cons a l :
  bytes_of_attributes (a :: l) = bytes_of_attribute a ++ bytes_of_attributes l.
Proof. done. Qed.

Lemma bytes_of_attributes_length l :
  4 * Z.of_nat (length l) ≤ Z.of_nat (length (bytes_of_attributes l)).
Proof.
  induction l as [|a l IH]; [done|].
  rewrite bytes_of_attributes_cons, length_app. cbn [length].
  pose proof (bytes_of_attribute_ge a). lia.
Qed.

Lemma appends_app l l' σ : appends (l ++ l') σ = (appends l ;;; appends l') σ.
Proof.
  revert σ. induction l as [|x l IH]; intros σ; [done|].
  cbn [app appends]. rewrite bind_assoc. by apply bind_ext.
Qed.

(** The attribute loop over a run of well-formed attributes appends the
    samples of the extended-TCP-info ones and goes on behind the run. *)
Lemma parse_attrs_encoded l : ∀ fuel m post rest r σ,
  wf_inet_diag_msg m → Forall wf_attribute l →
  (length l ≤ fuel)%nat →
  0 ≤ r → Z.of_nat (length (bytes_of_attributes l)) + r < 2 ^ 31 →
  parse_attrs fuel (bytes_of_inet_diag_msg m ++ post)
              (bytes_of_attributes l ++ rest)
              (Z.of_nat (length (bytes_of_attributes l)) + r) σ
  = (appends (samples_of_attrs m l) ;;;
     parse_attrs (fuel - length l) (bytes_of_inet_diag_msg m ++ post) rest r) σ.
Proof.
  induction l as [|a l IH]; intros fuel m post rest r σ Hm Hl Hfuel Hr Hn.
  - cbn. by rewrite Nat.sub_0_r.
  - apply Forall_cons in Hl as [Ha Hl]. cbn [length] in Hfuel.
    destruct fuel as [|fuel]; [lia|].
    rewrite bytes_of_attributes_cons, length_app, <- app_assoc in *.
    rewrite parse_attrs_cons by (done || lia).
    rewrite samples_of_attrs_cons.
    replace (S fuel - length (a :: l))%nat with (fuel - length l)%nat by done.
    replace (Z.of_nat (length (bytes_of_attribute a) + length (bytes_of_attributes l))
             + r - Z.of_nat (length (bytes_of_attribute a)))
      with (Z.of_nat (length (bytes_of_attributes l)) + r) by lia.
    destruct (is_info a); cbn [when appends app].
    + rewrite bind_assoc. apply bind_ext; intros [] σ1.
      apply IH; (done || lia).
    + rewrite bind_ret. apply IH; (done || lia).
Qed.

(** The loop stops at a malformed attribute without touching anything. *)
Lemma parse_attrs_stop fuel msg tail rest σ :
  malformed tail = true →
  parse_attrs fuel msg (tail ++ rest) (Z.of_nat (length tail)) σ = Done tt σ.
Proof.
  unfold malformed. intros Hbad.
  assert (RTA_OK (tail ++ rest) (Z.of_nat (length tail)) = Some false) as Hok.
  { unfold RTA_OK, sizeof_rtattr. case_decide as Hlen.
    - destruct (Z.ltb_spec (Z.of_nat (length tail)) 4); [done|lia].
    - destruct (Z.ltb_spec (Z.of_nat (length tail)) 4); [done|].
      unfold load_uint in *. rewrite load_app_l by (unfold off_rta_len; lia).
      destruct (load tail off_rta_len 2) eqn:Hld; last first.
      { unfold load, off_rta_len in Hld. case_decide as Hc; [done|].
        rewrite length_take, length_drop in Hc. lia. }
      cbn in *.
      f_equal. apply orb_true_iff in Hbad as [Hb|Hb]; apply bool_decide_eq_true in Hb.
      + by rewrite (bool_decide_false (4 ≤ _)) by lia.
      + rewrite (bool_decide_false (_ ≤ Z.of_nat _)) by lia.
        by rewrite andb_false_r. }
  destruct fuel; cbn [parse_attrs]; by rewrite Hok.
Qed.
End Attrs.

(** ** Envelopes *)

Section Envelopes.
Context `{Platform}.

Lemma bytes_of_envelope_length e :
  Z.of_nat (length (bytes_of_envelope e))
  = 4 * ((16 + Z.of_nat (length (env_payload e)) + 3) / 4).
Proof.
  unfold bytes_of_envelope, bytes_of_nlmsghdr.
  rewrite !length_app, !length_host_bytes.
  pose proof (aligned_length (length (env_payload e))) as Ha.
  rewrite Nat2Z.inj_add in Ha.
  replace (16 + Z.of_nat (length (env_payload e)) + 3)
    with ((Z.of_nat (length (env_payload e)) + 3) + 4 * 4) by lia.
  rewrite Z.div_add by lia. lia.
Qed.

Lemma bytes_of_envelope_ge e :
  16 + Z.of_nat (length (env_payload e)) ≤ Z.of_nat (length (bytes_of_envelope e)).
Proof.
  unfold bytes_of_envelope, bytes_of_nlmsghdr.
  rewrite !length_app, !length_host_bytes. lia.
Qed.

Lemma load_env_len e rest :
  wf_envelope e →
  load_uint (bytes_of_envelope e ++ rest) off_nlmsg_len 4
  = Some (16 + Z.of_nat (length (env_payload e))).
Proof.
  intros []. unfold bytes_of_envelope, bytes_of_nlmsghdr. rewrite <- !app_assoc.
  cbn [nlmsg_len]. apply load_uint_host.
  change (256 ^ Z.of_nat 4) with (2 ^ 32). lia.
Qed.

Lemma load_env_type e rest :
  wf_envelope e →
  load_uint (bytes_of_envelope e ++ rest) off_nlmsg_type 2 = Some (env_type e).
Proof.
  intros []. unfold bytes_of_envelope, bytes_of_nlmsghdr, load_uint.
  rewrite <- !app_assoc.
  rewrite (load_skip _ _ _ 0) by (by rewrite length_host_bytes).
  by apply load_uint_host.
Qed.

Lemma NLMSG_OK_envelope e rest n :
  wf_envelope e → 16 + Z.of_nat (length (env_payload e)) ≤ n →
  NLMSG_OK (bytes_of_envelope e ++ rest) n = Some true.
Proof.
  intros He Hn. unfold NLMSG_OK, sizeof_nlmsghdr.
  destruct (Z.ltb_spec n 16); [lia|].
  rewrite load_env_len by done. cbn.
  by rewrite !bool_decide_true by lia.
Qed.

Lemma NLMSG_ALIGN_envelope e :
  wf_envelope e →
  NLMSG_ALIGN (16 + Z.of_nat (length (env_payload e)))
  = Z.of_nat (length (bytes_of_envelope e)).
Proof.
  intros []. rewrite NLMSG_ALIGN_eq by lia. by rewrite bytes_of_envelope_length.
Qed.

Lemma NLMSG_DATA_envelope e rest :
  NLMSG_DATA (bytes_of_envelope e ++ rest)
  = env_payload e ++ padding (length (env_payload e)) ++ rest.
Proof.
  unfold NLMSG_DATA, advance, bytes_of_envelope.
  change (Z.to_nat NLMSG_HDRLEN) with 16%nat.
  rewrite <- !app_assoc.
  rewrite drop_app_length'; [done|].
  unfold bytes_of_nlmsghdr. by rewrite !length_app, !length_host_bytes.
Qed.

Lemma wf_envelope_of_diag d n :
  wf_diag d → Z.of_nat (length (bytes_of_diag d)) ≤ n < 2 ^ 31 →
  wf_envelope (envelope_of_diag d).
Proof.
  intros [] Hn. pose proof (bytes_of_envelope_ge (envelope_of_diag d)).
  unfold bytes_of_diag in Hn. by split; [|lia].
Qed.

(** The connection-info record and its attributes, at [NLMSG_DATA]. *)
Lemma parse_response_diag d rest σ :
  wf_diag d →
  Z.of_nat (length (bytes_of_attributes (diag_attrs d) ++ diag_tail d)) < 2 ^ 31 →
  let rl := Z.of_nat (length (bytes_of_attributes (diag_attrs d) ++ diag_tail d)) in
  when (0 <? rl)
       (parse_response (env_payload (envelope_of_diag d) ++ rest) rl) σ
  = appends (samples_of_diag d) σ.
Proof.
  intros [_ _ _ Hm Ha Ht] Hlen rl. subst rl.
  rewrite length_app, Nat2Z.inj_add in *.
  pose proof (bytes_of_attributes_length (diag_attrs d)) as Hal.
  destruct (Z.ltb_spec 0 (Z.of_nat (length (bytes_of_attributes (diag_attrs d)))
                          + Z.of_nat (length (diag_tail d)))) as [Hpos|Hzero];
    cbn [when].
  - unfold parse_response, advance. cbn [envelope_of_diag env_payload].
    change (Z.to_nat sizeof_inet_diag_msg) with 72%nat.
    rewrite <- !app_assoc.
    rewrite drop_app_length' by (by rewrite length_bytes_of_inet_diag_msg).
    rewrite parse_attrs_encoded by (done || lia).
    rewrite <- (bind_ret_tt (appends _)). apply bind_ext; intros [] σ1.
    by apply parse_attrs_stop.
  - unfold samples_of_diag. destruct (diag_attrs d); [done|].
    cbn [length] in Hal. lia.
Qed.

(** One turn of the envelope loop on a connection-info envelope. *)
Lemma parse_msgs_diag fuel d rest n σ :
  wf_diag d → Z.of_nat (length (bytes_of_diag d)) ≤ n < 2 ^ 31 →
  parse_msgs (S fuel) (bytes_of_diag d ++ rest) n σ
  = (appends (samples_of_diag d) ;;;
     parse_msgs fuel rest (n - Z.of_nat (length (bytes_of_diag d)))) σ.
Proof.
  intros Hd Hn. pose proof (wf_envelope_of_diag d n Hd Hn) as He.
  pose proof (bytes_of_envelope_ge (envelope_of_diag d)) as Hge.
  unfold bytes_of_diag in *. cbn [parse_msgs].
  rewrite NLMSG_OK_envelope, load_env_len, load_env_type by (done || lia).
  repeat (cbn [deref negb]; rewrite bind_ret; cbv beta).
  destruct Hd as [? Hnd Hne ? ? ?].
  cbn [envelope_of_diag env_type].
  destruct (Z.eqb_spec (diag_type d) NLMSG_DONE); [done|].
  destruct (Z.eqb_spec (diag_type d) NLMSG_ERROR); [done|].
  rewrite NLMSG_ALIGN_envelope by done.
  assert (16 + Z.of_nat (length (env_payload (envelope_of_diag d)))
            - NLMSG_LENGTH sizeof_inet_diag_msg
          = Z.of_nat (length (bytes_of_attributes (diag_attrs d) ++ diag_tail d)))
    as Hrl.
  { cbn [envelope_of_diag env_payload]. rewrite !length_app.
    rewrite length_bytes_of_inet_diag_msg by done.
    change (NLMSG_LENGTH sizeof_inet_diag_msg) with 88. lia. }
  rewrite Hrl. change (NLMSG_LENGTH sizeof_inet_diag_msg) with 88 in Hrl.
  rewrite !to_int_small by lia.
  unfold advance at 1. rewrite Nat2Z.id, drop_app_length.
  apply bind_ext'. rewrite NLMSG_DATA_envelope.
  apply parse_response_diag; [by split|]. lia.
Qed.

Lemma bind_ext_Done {A B} (m : M A) (f g : A → M B) σ :
  (∀ a σ', m σ = Done a σ' → f a σ' = g a σ') → bind m f σ = bind m g σ.
Proof. intros Hfg. unfold bind. destruct (m σ) eqn:Hm; auto. Qed.

Lemma samples_of_diags_cons d ds :
  samples_of_diags (d :: ds) = samples_of_diag d ++ samples_of_diags ds.
Proof. done. Qed.

Lemma bytes_of_diags_cons d ds :
  bytes_of_diags (d :: ds) = bytes_of_diag d ++ bytes_of_diags ds.
Proof. done. Qed.

Lemma bytes_of_diag_ge d : (16 ≤ length (bytes_of_diag d))%nat.
Proof.
  unfold bytes_of_diag, bytes_of_envelope, bytes_of_nlmsghdr.
  rewrite !length_app, !length_host_bytes. lia.
Qed.

Lemma bytes_of_diags_length ds :
  (16 * length ds ≤ length (bytes_of_diags ds))%nat.
Proof.
  induction ds as [|d ds IH]; [done|].
  rewrite bytes_of_diags_cons, length_app. cbn [length].
  pose proof (bytes_of_diag_ge d). lia.
Qed.

(** The envelope loop over a run of connection-info envelopes. *)
Lemma parse_msgs_diags ds : ∀ fuel rest r σ,
  Forall wf_diag ds → (length ds ≤ fuel)%nat →
  0 ≤ r → Z.of_nat (length (bytes_of_diags ds)) + r < 2 ^ 31 →
  parse_msgs fuel (bytes_of_diags ds ++ rest)
             (Z.of_nat (length (bytes_of_diags ds)) + r) σ
  = (appends (samples_of_diags ds) ;;;
     parse_msgs (fuel - length ds) rest r) σ.
Proof.
  induction ds as [|d ds IH]; intros fuel rest r σ Hds Hfuel Hr Hn.
  - cbn. by rewrite Nat.sub_0_r.
  - apply Forall_cons in Hds as [Hd Hds]. cbn [length] in Hfuel.
    destruct fuel as [|fuel]; [lia|].
    rewrite bytes_of_diags_cons, length_app, <- app_assoc in *.
    rewrite parse_msgs_diag by (done || lia).
    rewrite samples_of_diags_cons.
    rewrite (bind_ext' _ _ _ _ (appends_app _ _ _)), bind_assoc.
    apply bind_ext; intros [] σ1.
    replace (S fuel - length (d :: ds))%nat with (fuel - length ds)%nat by done.
    replace (Z.of_nat (length (bytes_of_diag d) + length (bytes_of_diags ds))
             + r - Z.of_nat (length (bytes_of_diag d)))
      with (Z.of_nat (length (bytes_of_diags ds)) + r) by lia.
    apply IH; (done || lia).
Qed.

Lemma parse_msgs_end fuel h n σ : n < 16 → parse_msgs fuel h n σ = Done None σ.
Proof.
  intros Hn. assert (NLMSG_OK h n = Some false) as Hok.
  { unfold NLMSG_OK, sizeof_nlmsghdr. by destruct (Z.ltb_spec n 16); [|lia]. }
  destruct fuel; cbn [parse_msgs]; by rewrite Hok.
Qed.

Lemma parse_msgs_done fuel e rest n σ :
  wf_envelope e → env_type e = NLMSG_DONE →
  16 + Z.of_nat (length (env_payload e)) ≤ n →
  parse_msgs (S fuel) (bytes_of_envelope e ++ rest) n σ = Done (Some 0) σ.
Proof.
  intros He Hty Hn. cbn [parse_msgs].
  rewrite NLMSG_OK_envelope, load_env_len, load_env_type by done.
  repeat (cbn [deref negb]; rewrite bind_ret; cbv beta).
  by rewrite Hty.
Qed.

Lemma load_error_field payload rest :
  (4 ≤ length payload)%nat →
  load_int (payload ++ rest) 0 = Some (error_field payload).
Proof.
  intros Hp. unfold load_int, load_uint, error_field.
  by rewrite load_take by done.
Qed.

Lemma parse_msgs_error fuel e rest n σ :
  wf_envelope e → env_type e = NLMSG_ERROR →
  16 + Z.of_nat (length (env_payload e)) ≤ n →
  parse_msgs (S fuel) (bytes_of_envelope e ++ rest) n σ
  = Done (Some (-1))
         (set_errno (if decide (length (env_payload e) < 20)%nat then ENODATA
                     else to_int (- error_field (env_payload e))) σ).
Proof.
  intros He Hty Hn. cbn [parse_msgs].
  rewrite NLMSG_OK_envelope, load_env_len, load_env_type by done.
  repeat (cbn [deref negb]; rewrite bind_ret; cbv beta).
  rewrite Hty. change (NLMSG_ERROR =? NLMSG_DONE) with false.
  change (NLMSG_ERROR =? NLMSG_ERROR) with true. cbv iota.
  change (NLMSG_LENGTH sizeof_nlmsgerr) with 36.
  destruct (Z.ltb_spec (16 + Z.of_nat (length (env_payload e))) 36).
  - by rewrite decide_True by lia.
  - rewrite decide_False by lia. rewrite NLMSG_DATA_envelope.
    by rewrite load_error_field by lia.
Qed.
End Envelopes.

(** ** On any input at all *)

Section Any.
Context `{Platform}.

Lemma bind_Done_inv {A B} (m : M A) (f : A → M B) σ b σ' :
  bind m f σ = Done b σ' → ∃ a σ1, m σ = Done a σ1 ∧ f a σ1 = Done b σ'.
Proof. unfold bind. destruct (m σ) eqn:Hm; [eauto|done..]. Qed.

Lemma realloc_Done p n σ : ∃ q σ1, realloc p n σ = Done q σ1.
Proof. unfold realloc. destruct (allocs σ) as [|[] ?]; eauto. Qed.

Lemma grow_Done σ : ∃ σ1, grow σ = Done tt σ1.
Proof.
  unfold grow, bind, gets, modify.
  destruct (realloc_Done (sample_ptr (store σ))
    (if cap (store σ) =? 0 then INIT_CAP else wrap32 (cap (store σ) * 2)) σ)
    as (q & σ1 & ->). eauto.
Qed.

(** On any bytes at all, [store_sample] is a fault or an [append]. *)
Lemma store_sample_cases msg attr σ :
  store_sample msg attr σ = Fault
  ∨ ∃ x, store_sample msg attr σ = append x σ.
Proof.
  unfold store_sample.
  assert (∃ σ1, when (bool_decide (cap (store σ) ≤ len (store σ))) grow σ = Done tt σ1)
    as [σ1 Hw].
  { destruct (bool_decide _); [apply grow_Done|by eexists]. }
  rewrite !(bind_Done _ _ σ (store σ) σ) by done.
  rewrite !(bind_Done _ _ _ _ _ Hw).
  rewrite !(bind_Done _ _ σ1 (len (store σ1)) σ1) by done.
  destruct (load_uint msg off_idiag_family 1) as [fam|]; [|left; reflexivity].
  destruct (load_uint msg off_idiag_sport 2) as [sp|]; [|left; reflexivity].
  destruct (load_uint msg off_idiag_dport 2) as [dp|]; [|left; reflexivity].
  destruct (load (RTA_DATA attr) 0 sizeof_tcp_info) as [ti|]; [|left; reflexivity].
  cbn [deref]. rewrite !bind_ret. cbv beta zeta.
  set (al := if fam =? AF_INET then 4%nat else 16%nat).
  unfold bind, poke, peek, deref, ret, fault, modify.
  destruct (sample_ptr (store σ1)) as [|sl] eqn:Hsl; [left; reflexivity|].
  destruct (decide (Z.to_nat (len (store σ1)) < length sl)%nat) as [Hi|Hi];
    [|left; reflexivity].
  unfold set_store.
  destruct (load msg off_idiag_src al) as [src|]; [|left; reflexivity].
  repeat first
    [ rewrite list_lookup_insert_eq by (rewrite ?length_insert; done)
    | rewrite decide_True by (rewrite ?length_insert; done)
    | progress simpl ].
  destruct (load msg off_idiag_dst al) as [dst|]; [|left; reflexivity].
  repeat first
    [ rewrite list_lookup_insert_eq by (rewrite ?length_insert; done)
    | rewrite decide_True by (rewrite ?length_insert; done)
    | progress simpl ].
  right. eexists. unfold append.
  rewrite !(bind_Done _ _ σ (store σ) σ) by done.
  rewrite !(bind_Done _ _ _ _ _ Hw).
  rewrite !(bind_Done _ _ σ1 (len (store σ1)) σ1) by done.
  unfold bind, poke, modify. rewrite Hsl, decide_True by done.
  unfold set_store. simpl. rewrite !list_insert_insert_eq. reflexivity.
Qed.

Lemma length_resize n sl : length (resize n sl) = n.
Proof. unfold resize. rewrite length_app, length_take, length_replicate. lia. Qed.

Lemma realloc_cases p n σ q σ1 :
  realloc p n σ = Done q σ1 →
  same_io σ σ1 ∧ store σ1 = store σ
  ∧ (q = NULL ∨ q = Block (resize (Z.to_nat n) (slots_of p))).
Proof.
  unfold realloc. destruct (allocs σ) as [|[] ?]; intros [= <- <-];
    (split; [by split|]); auto.
Qed.

Lemma grow_cases σ σ1 :
  grow σ = Done tt σ1 →
  let c := if cap (store σ) =? 0 then INIT_CAP else wrap32 (cap (store σ) * 2) in
  same_io σ σ1 ∧ len (store σ1) = len (store σ) ∧ cap (store σ1) = c
  ∧ (sample_ptr (store σ1) = NULL
     ∨ ∃ sl, sample_ptr (store σ1) = Block sl ∧ length sl = Z.to_nat c).
Proof.
  unfold grow. intros (s & σ0 & [= <- <-] & (q & σ2 & Hre & [= <-])%bind_Done_inv)%bind_Done_inv.
  apply realloc_cases in Hre as ([] & _ & Hq). cbn.
  split; [by split|]. split; [done|]. split; [done|].
  destruct Hq as [->| ->]; [by left|right]. eexists. split; [done|].
  apply length_resize.
Qed.

Lemma append_steps x σ σ' :
  append x σ = Done tt σ' →
  same_io σ σ' ∧ (store_inv (store σ) → store_inv (store σ')).
Proof.
  unfold append.
  intros (s & σ0 & [= <- <-] & ([] & σ1 & Hw & (i & σ2 & [= <- <-] &
    ([] & σ3 & Hp & [= <-])%bind_Done_inv)%bind_Done_inv)%bind_Done_inv)%bind_Done_inv.
  unfold poke in Hp. destruct (sample_ptr (store σ1)) as [|sl] eqn:Hsl; [done|].
  case_decide as Hi; [|done]. injection Hp as <-. cbn.
  case_bool_decide as Hfull; cbn [when] in Hw.
  - apply grow_cases in Hw as (Hio & Hlen & Hcap & Hptr).
    split; [by destruct Hio|]. intros [Hl Hc Ht Hb].
    destruct Hptr as [Hn|(sl' & Hsl' & Hlen')]; [congruence|].
    assert (sl' = sl) as -> by congruence.
    destruct (Z.eqb_spec (cap (store σ)) 0); [lia|].
    unfold wrap32 in *.
    assert (cap (store σ) * 2 < 2 ^ 32) as Hsmall.
    { destruct (Z.lt_ge_cases (cap (store σ) * 2) (2 ^ 32)) as [|Hbig]; [done|].
      exfalso.
      assert ((cap (store σ) * 2) mod 2 ^ 32 = cap (store σ) * 2 - 2 ^ 32) as Hmod.
      { symmetry. apply Z.mod_unique with 1; lia. }
      lia. }
    rewrite Z.mod_small in Hcap by lia.
    rewrite (Z.mod_small (cap (store σ) * 2)) in Hlen' by lia.
    assert (Z.of_nat (length sl) = cap (store σ1)) by lia.
    split; cbn.
    + rewrite Z.mod_small by lia. lia.
    + lia.
    + rewrite Z.mod_small by lia. lia.
    + intros ? [= <-]. rewrite length_insert. lia.
  - injection Hw as <-. split; [by split|]. intros [Hl Hc Ht Hb].
    specialize (Hb _ Hsl). unfold wrap32.
    split; cbn.
    + rewrite Z.mod_small by lia. lia.
    + lia.
    + rewrite Z.mod_small by lia. lia.
    + intros ? [= <-]. rewrite length_insert. lia.
Qed.

Lemma steps_refl σ : steps σ σ.
Proof. split; [apply same_io_refl|done]. Qed.

Lemma steps_trans σ1 σ2 σ3 : steps σ1 σ2 → steps σ2 σ3 → steps σ1 σ3.
Proof. intros [? ?] [? ?]. split; [by eapply same_io_trans|auto]. Qed.

Lemma steps_set_errno e σ : steps σ (set_errno e σ).
Proof. by split. Qed.

Lemma store_sample_steps msg attr σ σ' :
  store_sample msg attr σ = Done tt σ' → steps σ σ'.
Proof.
  destruct (store_sample_cases msg attr σ) as [->|[x ->]]; [done|].
  apply append_steps.
Qed.

Lemma parse_attrs_steps fuel : ∀ msg attr n σ σ',
  parse_attrs fuel msg attr n σ = Done tt σ' → steps σ σ'.
Proof.
  induction fuel as [|fuel IH]; intros msg attr n σ σ'; cbn [parse_attrs];
    intros (ok & σ0 & Hok & Hk)%bind_Done_inv;
    destruct (RTA_OK attr n) as [[]|]; try done; injection Hok as <- <-;
    cbn [negb] in Hk; try (injection Hk as <-; apply steps_refl); [done|].
  apply bind_Done_inv in Hk as (l & σ0 & Hl & Hk).
  destruct (load_uint attr off_rta_len 2); [injection Hl as -> <-|done].
  apply bind_Done_inv in Hk as (ty & σ0 & Hty & Hk).
  destruct (load_uint attr off_rta_type 2); [injection Hty as -> <-|done].
  apply bind_Done_inv in Hk as ([] & σ1 & Hs & Hk).
  apply IH in Hk. eapply steps_trans; [|done].
  destruct (ty =? INET_DIAG_INFO); cbn [when] in Hs.
  - by eapply store_sample_steps.
  - injection Hs as <-. apply steps_refl.
Qed.

Lemma parse_msgs_steps fuel : ∀ h n σ r σ',
  parse_msgs fuel h n σ = Done r σ' → steps σ σ'.
Proof.
  induction fuel as [|fuel IH]; intros h n σ r σ'; cbn [parse_msgs];
    intros (ok & σ0 & Hok & Hk)%bind_Done_inv;
    destruct (NLMSG_OK h n) as [[]|]; try done; injection Hok as <- <-;
    cbn [negb] in Hk; try (injection Hk as <- <-; apply steps_refl); [done|].
  apply bind_Done_inv in Hk as (l & σ0 & Hl & Hk).
  destruct (load_uint h off_nlmsg_len 4); [injection Hl as -> <-|done].
  apply bind_Done_inv in Hk as (ty & σ0 & Hty & Hk).
  destruct (load_uint h off_nlmsg_type 2); [injection Hty as -> <-|done].
  destruct (ty =? NLMSG_DONE); [injection Hk as <- <-; apply steps_refl|].
  destruct (ty =? NLMSG_ERROR).
  - apply bind_Done_inv in Hk as ([] & σ1 & He & [= <- <-]).
    destruct (l <? NLMSG_LENGTH sizeof_nlmsgerr).
    + injection He as <-. apply steps_set_errno.
    + apply bind_Done_inv in He as (e & σ0 & He & [= <-]).
      destruct (load_int (NLMSG_DATA h) 0); [injection He as <- <-|done].
      apply steps_set_errno.
  - apply bind_Done_inv in Hk as ([] & σ1 & Hp & Hk).
    apply IH in Hk. eapply steps_trans; [|done].
    destruct (0 <? to_int (l - NLMSG_LENGTH sizeof_inet_diag_msg)); cbn [when] in Hp.
    + by eapply parse_attrs_steps.
    + injection Hp as <-. apply steps_refl.
Qed.

Lemma recv_cases fd σ n σ1 :
  recv fd σ = Done n σ1 →
  store σ1 = store σ ∧ sends σ1 = sends σ ∧ sent σ1 = sent σ
  ∧ allocs σ1 = allocs σ
  ∧ ((∃ e rs, recvs σ = RecvErr e :: rs ∧ n = -1 ∧ recvs σ1 = rs
             ∧ errno σ1 = e ∧ stack σ1 = stack σ)
     ∨ (∃ d rs, recvs σ = RecvOk d :: rs ∧ recvs σ1 = rs
             ∧ errno σ1 = errno σ
             ∧ n = Z.of_nat (length (take sizeof_b d))
             ∧ stack σ1 = take sizeof_b d
                          ++ drop (length (take sizeof_b d)) (stack σ))).
Proof.
  unfold recv. destruct (recvs σ) as [|[d|e] rs]; [done|..];
    intros [= <- <-]; (do 4 (split; [reflexivity|])); [right|left];
    do 2 eexists; repeat split; reflexivity.
Qed.

Lemma recv_loop_inv fuel : ∀ fd σ r σ',
  recv_loop fuel fd σ = Done r σ' →
  store_inv (store σ) → store_inv (store σ').
Proof.
  induction fuel as [|fuel IH]; intros fd σ r σ'; cbn [recv_loop];
    intros (n & σ1 & Hn & Hk)%bind_Done_inv Hinv;
    apply recv_cases in Hn as (Hst & _);
    (destruct (n =? -1); [injection Hk as <- <-; by rewrite Hst|]);
    apply bind_Done_inv in Hk as (b & σ0 & [= <- <-] & Hk);
    apply bind_Done_inv in Hk as (o & σ2 & Hp & Hk);
    apply parse_msgs_steps in Hp as [_ Hp];
    (destruct o; [injection Hk as <- <-; apply Hp; by rewrite Hst|]);
    [done|].
  eapply IH; [done|]. apply Hp. by rewrite Hst.
Qed.
End Any.

(** ** Totality *)

Section Fuel.
Context `{Platform}.

Lemma load_length p off n bs : load p off n = Some bs → length bs = n.
Proof. unfold load. case_decide; [by intros [= <-]|done]. Qed.

Lemma load_uint_range p off n l :
  load_uint p off n = Some l → 0 ≤ l < 256 ^ Z.of_nat n.
Proof.
  unfold load_uint. intros (bs & Hbs & ->)%fmap_Some.
  apply load_length in Hbs as <-. apply host_val_range.
Qed.

Lemma RTA_OK_true attr n :
  RTA_OK attr n = Some true →
  ∃ l, load_uint attr off_rta_len 2 = Some l ∧ 4 ≤ l ≤ n.
Proof.
  unfold RTA_OK, sizeof_rtattr. destruct (n <? 4); [done|].
  destruct (load_uint attr off_rta_len 2) as [l|]; [|done]. cbn.
  intros [= [?%bool_decide_eq_true ?%bool_decide_eq_true]%andb_true_iff]. eauto.
Qed.

Lemma NLMSG_OK_true h n :
  NLMSG_OK h n = Some true →
  ∃ l, load_uint h off_nlmsg_len 4 = Some l ∧ 16 ≤ l ≤ n.
Proof.
  unfold NLMSG_OK, sizeof_nlmsghdr. destruct (n <? 16); [done|].
  destruct (load_uint h off_nlmsg_len 4) as [l|]; [|done]. cbn.
  intros [= [?%bool_decide_eq_true ?%bool_decide_eq_true]%andb_true_iff]. eauto.
Qed.

Lemma append_total x σ : append x σ ≠ OutOfFuel.
Proof.
  unfold append. rewrite (bind_Done _ _ σ (store σ) σ) by done.
  assert (∃ σ1, when (bool_decide (cap (store σ) ≤ len (store σ))) grow σ = Done tt σ1)
    as [σ1 Hw].
  { destruct (bool_decide _); [apply grow_Done|by eexists]. }
  rewrite (bind_Done _ _ _ _ _ Hw).
  rewrite (bind_Done _ _ σ1 (len (store σ1)) σ1) by done.
  unfold bind, poke, modify. destruct (sample_ptr (store σ1)); [done|].
  destruct (decide _); done.
Qed.

Lemma store_sample_total msg attr σ : store_sample msg attr σ ≠ OutOfFuel.
Proof.
  destruct (store_sample_cases msg attr σ) as [->|[x ->]]; [done|].
  apply append_total.
Qed.

Lemma bind_total {A B} (m : M A) (f : A → M B) σ :
  m σ ≠ OutOfFuel → (∀ a σ', m σ = Done a σ' → f a σ' ≠ OutOfFuel) →
  bind m f σ ≠ OutOfFuel.
Proof. unfold bind. destruct (m σ); auto. Qed.

Lemma deref_total {A} (o : option A) σ : deref o σ ≠ OutOfFuel.
Proof. by destruct o. Qed.

Lemma deref_Done {A} (o : option A) σ a σ' :
  deref o σ = Done a σ' → o = Some a ∧ σ' = σ.
Proof. destruct o; [by intros [= -> ->]|done]. Qed.

(** The counter [parse_attrs] is started with never runs out. *)
Lemma parse_attrs_total fuel : ∀ msg attr n σ,
  (Z.to_nat n ≤ fuel)%nat → n < 2 ^ 31 →
  parse_attrs fuel msg attr n σ ≠ OutOfFuel.
Proof.
  induction fuel as [|fuel IH]; intros msg attr n σ Hfuel Hn; cbn [parse_attrs];
    (apply bind_total; [apply deref_total|]);
    intros [] σ0 [Hok ->]%deref_Done; cbn [negb]; try done;
    apply RTA_OK_true in Hok as (l & Hl & Hr); [lia|].
  rewrite Hl. cbn [deref]. rewrite bind_ret.
  apply bind_total; [apply deref_total|]. intros ty ? [_ ->]%deref_Done.
  apply bind_total.
  { destruct (ty =? INET_DIAG_INFO); [apply store_sample_total|done]. }
  intros [] σ1 _.
  apply load_uint_range in Hl. change (256 ^ Z.of_nat 2) with 65536 in Hl.
  rewrite RTA_ALIGN_eq by lia.
  assert (l ≤ 4 * ((l + 3) / 4) ≤ l + 3) by (Z.div_mod_to_equations; lia).
  rewrite to_int_small by lia. apply IH; lia.
Qed.

Lemma parse_msgs_total fuel : ∀ h n σ,
  (Z.to_nat n ≤ fuel)%nat → n < 2 ^ 31 →
  parse_msgs fuel h n σ ≠ OutOfFuel.
Proof.
  induction fuel as [|fuel IH]; intros h n σ Hfuel Hn; cbn [parse_msgs];
    (apply bind_total; [apply deref_total|]);
    intros [] σ0 [Hok ->]%deref_Done; cbn [negb]; try done;
    apply NLMSG_OK_true in Hok as (l & Hl & Hr); [lia|].
  rewrite Hl. cbn [deref]. rewrite bind_ret.
  apply bind_total; [apply deref_total|]. intros ty ? [_ ->]%deref_Done.
  destruct (ty =? NLMSG_DONE); [done|].
  destruct (ty =? NLMSG_ERROR).
  - apply bind_total; [|done].
    destruct (l <? NLMSG_LENGTH sizeof_nlmsgerr); [done|].
    apply bind_total; [apply deref_total|done].
  - apply bind_total.
    { change (NLMSG_LENGTH sizeof_inet_diag_msg) with 88.
      rewrite to_int_small by lia.
      destruct (0 <? l - 88); [|done].
      apply parse_attrs_total; lia. }
    intros [] σ1 _. rewrite NLMSG_ALIGN_eq by lia.
    assert (l ≤ 4 * ((l + 3) / 4) ≤ l + 3) by (Z.div_mod_to_equations; lia).
    rewrite to_int_small by lia. apply IH; lia.
Qed.

Lemma sizeof_b_Z : Z.of_nat sizeof_b = 32768.
Proof. by vm_compute. Qed.

Lemma length_take_le {A} n (l : list A) : (length (take n l) ≤ n)%nat.
Proof. rewrite length_take. lia. Qed.

Lemma recv_loop_total fuel : ∀ fd σ,
  (length (recvs σ) ≤ fuel)%nat → recv_loop fuel fd σ ≠ OutOfFuel.
Proof.
  induction fuel as [|fuel IH]; intros fd σ Hfuel; cbn [recv_loop];
    (apply bind_total; [unfold recv; by destruct (recvs σ) as [|[] ?]|]);
    intros n σ1 (Hst & _ & _ & _ & Hn)%recv_cases;
    (destruct Hn as [(e & rs & Hrs & -> & Hrs1 & _)|(d & rs & Hrs & Hrs1 & _ & -> & _)];
     [done|]);
    (destruct (_ =? -1); [done|]);
    rewrite (bind_Done _ _ σ1 (stack σ1) σ1) by done;
    rewrite Hrs in Hfuel; cbn [length] in Hfuel; [lia|].
  pose proof (length_take_le sizeof_b d) as Hd%Nat2Z.inj_le.
  rewrite sizeof_b_Z in Hd.
  apply bind_total; [apply parse_msgs_total; lia|].
  intros [v|] σ2 [[_ _ Hr2 _] _]%parse_msgs_steps; [done|].
  apply IH. rewrite Hr2, Hrs1. lia.
Qed.

(** [sockdiag_sample] is total: whatever the kernel sends, the call
    returns, faults or waits for the kernel. *)
Lemma sockdiag_sample_total fd family σ :
  sockdiag_sample fd family σ ≠ OutOfFuel.
Proof.
  unfold sockdiag_sample. apply bind_total.
  { unfold send_request, sendmsg. by destruct (sends σ) as [|[] ?]. }
  intros r σ1 _. destruct (r <? 0); [done|].
  apply bind_total; [done|]. intros [] σ2 _.
  apply bind_total; [by destruct (grow_Done σ2) as [? ->]|]. intros [] σ3 _.
  rewrite (bind_Done _ _ σ3 (length (recvs σ3)) σ3) by done.
  by apply recv_loop_total.
Qed.

Lemma parse_response_total msg rtalen σ :
  rtalen < 2 ^ 31 → parse_response msg rtalen σ ≠ OutOfFuel.
Proof. intros Hn. by apply parse_attrs_total. Qed.
End Fuel.

(** ** The receive loop *)

Section Drain.
Context `{Platform}.

Lemma appends_steps l : ∀ σ σ', appends l σ = Done tt σ' → steps σ σ'.
Proof.
  induction l as [|x l IH]; intros σ σ'; cbn [appends].
  - intros [= <-]. apply steps_refl.
  - intros ([] & σ1 & Ha%append_steps & Hl%IH)%bind_Done_inv.
    by eapply steps_trans.
Qed.

Lemma recv_ok_eq fd d rs σ :
  recvs σ = RecvOk d :: rs → (length d ≤ sizeof_b)%nat →
  recv fd σ = Done (Z.of_nat (length d))
                   (set_stack (d ++ drop (length d) (stack σ)) (set_recvs rs σ)).
Proof. intros Hr Hd. unfold recv. by rewrite Hr, take_ge. Qed.

(** One turn of the receive loop on a datagram of connection-info
    envelopes followed by [tail], whose walk [k] describes. *)
Lemma recv_loop_datagram fuel fd ds tail rs (k : M (option Z)) σ :
  recvs σ = RecvOk (bytes_of_diags ds ++ tail) :: rs →
  Forall wf_diag ds → (length (bytes_of_diags ds ++ tail) ≤ sizeof_b)%nat →
  (∀ fuel' rest σ', (length tail ≤ fuel')%nat →
     parse_msgs fuel' (tail ++ rest) (Z.of_nat (length tail)) σ' = k σ') →
  recv_loop fuel fd σ
  = (recv fd ;;; appends (samples_of_diags ds) ;;;
     let* r := k in
     match r with
     | Some v => ret v
     | None => match fuel with
               | O => λ _, OutOfFuel
               | S fuel' => recv_loop fuel' fd
               end
     end) σ.
Proof.
  intros Hr Hds Hlen Hk.
  pose proof Hlen as Hlen'%Nat2Z.inj_le. rewrite sizeof_b_Z in Hlen'.
  rewrite length_app, Nat2Z.inj_add in Hlen'.
  pose proof (bytes_of_diags_length ds) as Hn.
  assert (recv_loop fuel fd σ =
    (let* n := recv fd in
     if n =? -1 then ret (-1)
     else let* b := gets stack in
          let* r := parse_msgs (Z.to_nat n) b n in
          match r with
          | Some v => ret v
          | None => match fuel with
                    | O => λ _, OutOfFuel
                    | S fuel' => recv_loop fuel' fd
                    end
          end) σ) as -> by (by destruct fuel).
  rewrite !(bind_Done _ _ _ _ _ (recv_ok_eq fd _ rs σ Hr Hlen)).
  destruct (Z.eqb_spec (Z.of_nat (length (bytes_of_diags ds ++ tail))) (-1)); [lia|].
  erewrite bind_Done by reflexivity.
  cbn [stack set_stack]. rewrite length_app, Nat2Z.inj_add, <- !app_assoc.
  etransitivity; [apply bind_ext', parse_msgs_diags; (done || lia)|].
  rewrite bind_assoc. apply bind_ext; intros [] σ1.
  apply bind_ext'. apply Hk. lia.
Qed.

Lemma parse_msgs_nil fuel rest σ :
  parse_msgs fuel ([] ++ rest) (Z.of_nat (length (@nil byte))) σ = ret None σ.
Proof. by apply parse_msgs_end. Qed.

(** The receive loop over datagrams of connection-info envelopes. *)
Lemma recv_loop_diags fd dss : ∀ fuel rs σ,
  recvs σ = (datagram_of <$> dss) ++ rs →
  Forall (Forall wf_diag) dss → Forall fits dss → (length dss ≤ fuel)%nat →
  recv_loop fuel fd σ = drain fd dss (recv_loop (fuel - length dss) fd) σ.
Proof.
  induction dss as [|ds dss IH]; intros fuel rs σ Hr Hwf Hfit Hfuel.
  - cbn [drain length]. by rewrite Nat.sub_0_r.
  - apply Forall_cons in Hwf as [Hds Hwf]. apply Forall_cons in Hfit as [Hd Hfit].
    cbn [length] in Hfuel. destruct fuel as [|fuel]; [lia|].
    cbn [fmap list_fmap app] in Hr. unfold datagram_of at 1 in Hr.
    rewrite <- (app_nil_r (bytes_of_diags ds)) in Hr.
    rewrite (recv_loop_datagram _ _ _ _ _ (ret None) _ Hr Hds); last first.
    { intros. apply parse_msgs_nil. }
    { by rewrite app_nil_r. }
    cbn [drain]. apply bind_ext_Done; intros n σ1 Hn.
    apply bind_ext_Done; intros [] σ2 Ha. rewrite bind_ret.
    replace (S fuel - length (ds :: dss))%nat with (fuel - length dss)%nat by done.
    apply (IH _ rs); [|done|done|lia].
    apply appends_steps in Ha as [[_ _ -> _] _].
    rewrite (recv_ok_eq fd _ _ σ Hr) in Hn by (by rewrite app_nil_r).
    by injection Hn as _ <-.
Qed.

Lemma samples_of_diags_app l l' :
  samples_of_diags (l ++ l') = samples_of_diags l ++ samples_of_diags l'.
Proof. unfold samples_of_diags. apply bind_app. Qed.

(** [drain] with an allocator that never fails. *)
Lemma drain_store_of fd dss : ∀ acc rs (k : M Z) σ,
  alloc_ok σ → store σ = store_of acc →
  recvs σ = (datagram_of <$> dss) ++ rs → Forall fits dss →
  Z.of_nat (length (acc ++ samples_of_diags (concat dss))) ≤ 2 ^ 31 →
  ∃ σ', drain fd dss k σ = k σ'
        ∧ store σ' = store_of (acc ++ samples_of_diags (concat dss))
        ∧ recvs σ' = rs ∧ errno σ' = errno σ ∧ alloc_ok σ'
        ∧ sends σ' = sends σ ∧ sent σ' = sent σ.
Proof.
  induction dss as [|ds dss IH]; intros acc rs k σ Hok Hst Hr Hfit Hlen.
  - exists σ. cbn [concat]. unfold samples_of_diags. cbn. by rewrite app_nil_r.
  - apply Forall_cons in Hfit as [Hd Hfit].
    cbn [concat] in *. rewrite samples_of_diags_app, app_assoc in *.
    cbn [fmap list_fmap app] in Hr. unfold datagram_of at 1 in Hr.
    cbn [drain]. rewrite (bind_Done _ _ _ _ _ (recv_ok_eq fd _ _ σ Hr Hd)).
    set (σ1 := set_stack _ _).
    destruct (appends_store_of acc (samples_of_diags ds) σ1)
      as (σ2 & Ha & Hst2 & Herr2 & Hok2 & [_ Hs2 Hr2 Ht2]); [done..| |].
    { rewrite !length_app in *. lia. }
    rewrite (bind_Done _ _ _ _ _ Ha).
    destruct (IH (acc ++ samples_of_diags ds) rs k σ2)
      as (σ3 & Hd3 & Hst3 & Hr3 & Herr3 & Hok3 & Hs3 & Ht3); [done..|].
    exists σ3. rewrite Hd3. subst σ1.
    cbn [errno sends sent set_stack set_recvs] in *.
    repeat split; try done; congruence.
Qed.

(** [drain] when the datagrams hold no extended-TCP-info attribute. *)
Lemma drain_quiet fd dss : ∀ rs (k : M Z) σ,
  recvs σ = (datagram_of <$> dss) ++ rs → Forall fits dss →
  samples_of_diags (concat dss) = [] →
  ∃ σ', drain fd dss k σ = k σ' ∧ store σ' = store σ ∧ recvs σ' = rs
        ∧ errno σ' = errno σ.
Proof.
  induction dss as [|ds dss IH]; intros rs k σ Hr Hfit Hq.
  - by exists σ.
  - apply Forall_cons in Hfit as [Hd Hfit].
    cbn [concat] in Hq. rewrite samples_of_diags_app in Hq.
    apply app_eq_nil in Hq as [Hq1 Hq2].
    cbn [fmap list_fmap app] in Hr. unfold datagram_of at 1 in Hr.
    cbn [drain]. rewrite (bind_Done _ _ _ _ _ (recv_ok_eq fd _ _ σ Hr Hd)).
    rewrite Hq1. cbn [appends]. rewrite bind_ret.
    set (σ1 := set_stack _ _).
    destruct (IH rs k σ1) as (σ2 & Hd2 & Hst2 & Hr2 & He2); [done..|].
    exists σ2. by rewrite Hd2.
Qed.

Lemma request_length family : length (request family) = 72%nat.
Proof.
  unfold request, bytes_of_nlmsghdr, bytes_of_req. cbn [concat].
  rewrite !length_app, !length_host_bytes. done.
Qed.

(** Up to the receive loop: the request goes out, the Store is zeroed
    and grown once. *)
Lemma sockdiag_sample_start fd family ss σ :
  sends σ = SendOk :: ss →
  sockdiag_sample fd family σ
  = (grow ;;; let* k := gets (λ σ, length (recvs σ)) in recv_loop k fd)
      (after_send fd family ss σ).
Proof.
  intros Hs. unfold sockdiag_sample, send_request, sendmsg.
  unfold bind at 1. rewrite Hs.
  fold (request family). rewrite request_length.
  by change (Z.of_nat 72 <? 0) with false.
Qed.

Lemma grow_zero σ :
  alloc_ok σ → store σ = zero_samples →
  ∃ σ', grow σ = Done tt σ' ∧ store σ' = store_of [] ∧ errno σ' = errno σ
        ∧ alloc_ok σ' ∧ same_io σ σ'.
Proof.
  intros Hok Hst. destruct (grow_ok σ Hok) as (σ' & Hg & Hst' & Hrest).
  exists σ'. split; [done|]. split; [|done]. by rewrite Hst', Hst.
Qed.

(** The walk over an end-of-dump envelope. *)
Lemma parse_msgs_done' e junk fuel rest σ :
  wf_envelope e → env_type e = NLMSG_DONE →
  (length (bytes_of_envelope e ++ junk) ≤ fuel)%nat →
  parse_msgs fuel ((bytes_of_envelope e ++ junk) ++ rest)
             (Z.of_nat (length (bytes_of_envelope e ++ junk))) σ
  = ret (Some 0) σ.
Proof.
  intros He Hty Hfuel. pose proof (bytes_of_envelope_ge e).
  rewrite length_app in *. destruct fuel as [|fuel]; [lia|].
  rewrite <- app_assoc. apply parse_msgs_done; [done..|lia].
Qed.

Lemma parse_msgs_error' e junk fuel rest σ :
  wf_envelope e → env_type e = NLMSG_ERROR →
  (length (bytes_of_envelope e ++ junk) ≤ fuel)%nat →
  parse_msgs fuel ((bytes_of_envelope e ++ junk) ++ rest)
             (Z.of_nat (length (bytes_of_envelope e ++ junk))) σ
  = (modify (set_errno (if decide (length (env_payload e) < 20)%nat then ENODATA
                        else to_int (- error_field (env_payload e)))) ;;;
     ret (Some (-1))) σ.
Proof.
  intros He Hty Hfuel. pose proof (bytes_of_envelope_ge e).
  rewrite length_app in *. destruct fuel as [|fuel]; [lia|].
  rewrite <- app_assoc. apply parse_msgs_error; [done..|lia].
Qed.
End Drain.

(** ** The claims of the design document *)

Section Claims.
Context `{Platform}.

Lemma element_store_of l i x :
  l !! i = Some x → element (store_of l) i = Some x.
Proof.
  intros Hi. pose proof (lookup_lt_Some _ _ _ Hi) as Hlt.
  unfold element, store_of. cbn [len sample_ptr slots_of].
  rewrite decide_True by lia.
  rewrite lookup_app_l by (by rewrite length_fmap).
  by rewrite list_lookup_fmap, Hi.
Qed.

Lemma store_samples_appends (l : list (inet_diag_msg * attribute)) σ :
  Forall (λ p, wf_inet_diag_msg p.1
               ∧ (sizeof_tcp_info ≤ length (rta_payload p.2))%nat) l →
  store_samples ((λ p, (bytes_of_inet_diag_msg p.1, bytes_of_attribute p.2)) <$> l) σ
  = appends ((λ p, sample_of p.1 (take sizeof_tcp_info (rta_payload p.2))) <$> l) σ.
Proof.
  revert σ. induction l as [|[m a] l IH]; intros σ Hl; [done|].
  apply Forall_cons in Hl as [[Hm Ha] Hl]. cbn [fmap list_fmap store_samples appends].
  cbn [fst snd].
  rewrite <- (app_nil_r (bytes_of_inet_diag_msg m)), <- (app_nil_r (bytes_of_attribute a)).
  rewrite (bind_ext' _ _ _ _ (store_sample_append m a [] [] σ Hm Ha)).
  apply bind_ext; intros [] σ1. by apply IH.
Qed.

(** C3.  N appends to a freshly initialised Sample Store: the length is
    N, every sample is found unchanged at the index it was appended at, the
    capacity starts at 16 and doubles exactly when an append finds the
    length equal to the capacity (16 up to the 16th append, 32 from the
    17th), provided the allocations succeed and N is at most 2^31, the
    largest capacity a [uint32_t] doubling from 16 can reach. *)
Theorem store_appends (l : list (inet_diag_msg * attribute)) σ :
  alloc_ok σ →
  Forall (λ p, wf_inet_diag_msg p.1
               ∧ (sizeof_tcp_info ≤ length (rta_payload p.2))%nat) l →
  Z.of_nat (length l) ≤ 2 ^ 31 →
  ∃ σ',
    (modify (set_store zero_samples) ;;; grow ;;;
     store_samples ((λ p, (bytes_of_inet_diag_msg p.1, bytes_of_attribute p.2)) <$> l)) σ
    = Done tt σ'
    ∧ len (store σ') = Z.of_nat (length l)
    ∧ (∀ i p, l !! i = Some p →
         element (store σ') i
         = Some (sample_of p.1 (take sizeof_tcp_info (rta_payload p.2))))
    ∧ cap (store σ') = capacity_after (length l)
    ∧ ((length l ≤ 16)%nat → cap (store σ') = 16)
    ∧ (length l = 17%nat → cap (store σ') = 32).
Proof.
  intros Hok Hl Hn.
  set (xs := (λ p, sample_of p.1 (take sizeof_tcp_info (rta_payload p.2))) <$> l).
  rewrite (bind_Done _ _ σ tt (set_store zero_samples σ)) by done.
  destruct (grow_zero (set_store zero_samples σ)) as (σ1 & Hg & Hst1 & _ & Hok1 & _);
    [done..|].
  rewrite (bind_Done _ _ _ _ _ Hg), store_samples_appends by done.
  destruct (appends_store_of [] xs σ1) as (σ2 & Ha & Hst2 & _); [done..| |].
  { subst xs. cbn [app]. by rewrite length_fmap. }
  exists σ2. cbn [app] in Hst2. rewrite Hst2. split; [done|].
  assert (length xs = length l) as Hlen by apply length_fmap.
  cbn [store_of len cap]. rewrite Hlen. split; [done|]. split.
  - intros i p Hp. apply element_store_of. subst xs.
    by rewrite list_lookup_fmap, Hp.
  - split; [done|]. split.
    + apply capacity_after_small.
    + by intros ->.
Qed.

Lemma filter_no_info l :
  Forall (λ b, is_info b = false) l → filter is_info l = [].
Proof.
  induction 1 as [|b l Hb _ IH]; [done|].
  rewrite filter_cons_False by (rewrite Hb; intros []). done.
Qed.

Lemma samples_of_attrs_one m pre a post :
  is_info a = true → Forall (λ b, is_info b = false) (pre ++ post) →
  samples_of_attrs m (pre ++ a :: post)
  = [sample_of m (take sizeof_tcp_info (rta_payload a))].
Proof.
  intros Ha [Hpre Hpost]%Forall_app. unfold samples_of_attrs.
  rewrite filter_app, filter_cons, decide_True by (by rewrite Ha).
  by rewrite !filter_no_info.
Qed.

Lemma lookup_zero_padded (src : list byte) i :
  (4 ≤ i < 16)%nat → length src = 16%nat →
  (take 4 src ++ zeros (16 - 4)) !! i = Some x00.
Proof.
  intros Hi Hsrc. rewrite lookup_app_r by (rewrite length_take; lia).
  rewrite length_take, Hsrc. unfold zeros.
  apply lookup_replicate_2. lia.
Qed.

(** C4.  [parse_response] on a connection-info record whose attributes
    hold exactly one tagged [INET_DIAG_INFO], with a payload of
    [sizeof(struct tcp_info)] bytes: one sample is appended.  Its family
    is the record's, its ports are the record's big-endian ports as numbers,
    its addresses are the first 4 (AF_INET) or 16 (otherwise) bytes of the
    record's followed by zeros, its [info] is the payload; for AF_INET the
    address bytes 4 to 15 are zero.  The other attributes leave no trace. *)
Theorem parse_response_one_info d pre a post rest l σ :
  wf_diag d → diag_attrs d = pre ++ a :: post →
  is_info a = true → Forall (λ b, is_info b = false) (pre ++ post) →
  length (rta_payload a) = sizeof_tcp_info →
  alloc_ok σ → store σ = store_of l → Z.of_nat (length l) < 2 ^ 31 →
  Z.of_nat (length (bytes_of_attributes (diag_attrs d) ++ diag_tail d)) < 2 ^ 31 →
  let m := diag_msg d in
  let al := if idiag_family m =? AF_INET then 4%nat else 16%nat in
  let x := {| family := idiag_family m;
              saddr := take al (idiag_src m) ++ zeros (16 - al);
              sport := idiag_sport m;
              daddr := take al (idiag_dst m) ++ zeros (16 - al);
              dport := idiag_dport m;
              info := rta_payload a |} in
  ∃ σ',
    parse_response (env_payload (envelope_of_diag d) ++ rest)
      (Z.of_nat (length (bytes_of_attributes (diag_attrs d) ++ diag_tail d))) σ
    = Done tt σ'
    ∧ store σ' = store_of (l ++ [x])
    ∧ len (store σ') = len (store σ) + 1
    ∧ element (store σ') (length l) = Some x
    ∧ (idiag_family m = AF_INET →
       ∀ i, (4 ≤ i < 16)%nat →
            saddr x !! i = Some x00 ∧ daddr x !! i = Some x00).
Proof.
  intros Hd Hattrs Ha Hothers Hlen Hok Hst Hl Hsize m al x.
  pose proof (parse_response_diag d rest σ Hd Hsize) as Hp. cbv zeta in Hp.
  assert ((0 <? Z.of_nat (length (bytes_of_attributes (diag_attrs d)
                                      ++ diag_tail d))) = true) as Hpos.
  { apply Z.ltb_lt. rewrite Hattrs, length_app.
    pose proof (bytes_of_attributes_length (pre ++ a :: post)) as Hge.
    rewrite length_app in Hge. cbn [length] in Hge. lia. }
  rewrite Hpos in Hp. cbn [when] in Hp. rewrite Hp.
  unfold samples_of_diag. rewrite Hattrs, samples_of_attrs_one by done.
  rewrite <- Hlen, firstn_all. fold m.
  change (sample_of m (rta_payload a)) with x.
  cbn [appends]. rewrite bind_ret_tt.
  destruct (append_store_of l x σ Hok Hst Hl) as (σ' & Happ & Hst' & _).
  exists σ'. split; [done|]. split; [done|]. rewrite Hst', Hst. split.
  { cbn [store_of len]. rewrite length_app. cbn [length]. lia. }
  split.
  { apply element_store_of. by rewrite lookup_app_r, Nat.sub_diag. }
  intros Hfam i Hi. destruct Hd as [_ _ _ [_ _ _ Hsrc Hdst _] _ _].
  subst x al. cbn [saddr daddr]. fold m in Hsrc, Hdst. rewrite Hfam.
  change (AF_INET =? AF_INET) with true. cbv iota.
  by rewrite !lookup_zero_padded.
Qed.

Lemma resize_lookup n sl i :
  (i < n)%nat → (length sl ≤ n)%nat →
  mjoin (resize n sl !! i) = mjoin (sl !! i).
Proof.
  intros Hi Hn. unfold resize. rewrite take_ge by done.
  destruct (decide (i < length sl)%nat).
  - by rewrite lookup_app_l.
  - rewrite lookup_app_r, lookup_replicate_2 by lia.
    by rewrite lookup_ge_None_2 by lia.
Qed.

(** An append adds one to the length and leaves the samples already in
    the Store where they are, also when it grows the Store. *)
Lemma append_keeps x σ σ' :
  append x σ = Done tt σ' → store_inv (store σ) →
  len (store σ') = len (store σ) + 1
  ∧ ∀ i, Z.of_nat i < len (store σ) →
         element (store σ') i = element (store σ) i.
Proof.
  intros Happ Hinv.
  pose proof (append_steps x σ σ' Happ) as [_ Hinv']. specialize (Hinv' Hinv).
  revert Happ. unfold append.
  intros (s & σ0 & [= <- <-] & ([] & σ1 & Hw & (j & σ2 & [= <- <-] &
    ([] & σ3 & Hp & [= <-])%bind_Done_inv)%bind_Done_inv)%bind_Done_inv)%bind_Done_inv.
  destruct Hinv as [Hl Hc Ht Hb].
  unfold poke in Hp. destruct (sample_ptr (store σ1)) as [|sl] eqn:Hsl; [done|].
  case_decide as Hj; [|done]. injection Hp as <-.
  destruct Hinv' as [Hl' Hc' _ Hb']. cbn [store set_store len cap sample_ptr] in *.
  specialize (Hb' _ eq_refl). rewrite length_insert in Hb'.
  assert (len (store σ1) = len (store σ) ∧
          ∀ i, Z.of_nat i < len (store σ) →
               mjoin (slots_of (sample_ptr (store σ)) !! i) = mjoin (sl !! i))
    as [Hlen Hsl'].
  { case_bool_decide as Hfull; cbn [when] in Hw.
    - unfold grow in Hw.
      apply bind_Done_inv in Hw as (s & σ0 & [= <- <-] & (q & σ2 & Hre & [= <-])%bind_Done_inv).
      apply realloc_cases in Hre as (_ & _ & Hq).
      cbn [store set_store sample_ptr len] in *. split; [done|]. intros i Hi.
      destruct Hq as [->| ->]; [done|]. injection Hsl as <-.
      rewrite length_resize in Hj. symmetry. apply resize_lookup; [lia|].
      destruct (sample_ptr (store σ)) as [|sl0]; cbn [slots_of length]; [lia|].
      specialize (Hb _ eq_refl). lia.
    - injection Hw as <-. by rewrite Hsl. }
  rewrite Hlen in *. unfold wrap32 in *.
  rewrite Z.mod_small by lia. split; [done|]. intros i Hi.
  unfold element. cbn [store set_store len sample_ptr slots_of].
  rewrite !decide_True by lia.
  rewrite list_lookup_insert_ne by lia. by rewrite Hsl'.
Qed.

Lemma appends_keeps l : ∀ σ σ',
  appends l σ = Done tt σ' → store_inv (store σ) →
  len (store σ') = len (store σ) + Z.of_nat (length l)
  ∧ ∀ i, Z.of_nat i < len (store σ) →
         element (store σ') i = element (store σ) i.
Proof.
  induction l as [|x l IH]; intros σ σ'; cbn [appends length].
  - intros [= <-] _. split; [lia|done].
  - intros ([] & σ1 & Ha & Hl)%bind_Done_inv Hinv.
    pose proof (append_steps x σ σ1 Ha) as [_ Hinv1].
    destruct (append_keeps x σ σ1 Ha Hinv) as [Hlen1 Hk1].
    destruct (IH σ1 σ' Hl (Hinv1 Hinv)) as [Hlen2 Hk2].
    split; [lia|]. intros i Hi. rewrite Hk2 by lia. by apply Hk1.
Qed.

(** C5.  A connection-info envelope whose attributes end in bytes that
    fail [RTA_OK] (a header whose length is below 4 or beyond the bytes
    left in the envelope, or fewer than 4 bytes): [parse_response] does
    what the attributes before them ask for and nothing else, whatever the
    malformed bytes and the buffer behind them hold; the envelope loop
    goes on with the next envelope; and no sample that was in the Store
    before is changed. *)
Theorem malformed_attribute_stops fuel d rest n σ :
  wf_diag d → (0 < length (diag_tail d))%nat →
  Z.of_nat (length (bytes_of_diag d)) ≤ n < 2 ^ 31 →
  parse_response (env_payload (envelope_of_diag d) ++ rest)
    (Z.of_nat (length (bytes_of_attributes (diag_attrs d) ++ diag_tail d))) σ
  = appends (samples_of_attrs (diag_msg d) (diag_attrs d)) σ
  ∧ parse_msgs (S fuel) (bytes_of_diag d ++ rest) n σ
    = (appends (samples_of_attrs (diag_msg d) (diag_attrs d)) ;;;
       parse_msgs fuel rest (n - Z.of_nat (length (bytes_of_diag d)))) σ
  ∧ ∀ σ', appends (samples_of_attrs (diag_msg d) (diag_attrs d)) σ = Done tt σ' →
          store_inv (store σ) →
          ∀ i, Z.of_nat i < len (store σ) →
               element (store σ') i = element (store σ) i.
Proof.
  intros Hd Htail Hn. split; [|split].
  - pose proof (bytes_of_envelope_ge (envelope_of_diag d)) as Hge.
    unfold bytes_of_diag in Hn.
    cbn [envelope_of_diag env_payload] in Hge. rewrite !length_app in Hge.
    assert (Z.of_nat (length (bytes_of_attributes (diag_attrs d) ++ diag_tail d))
            < 2 ^ 31) as Hsize by (rewrite length_app; lia).
    pose proof (parse_response_diag d rest σ Hd Hsize) as Hp. cbv zeta in Hp.
    unfold samples_of_diag in Hp. rewrite <- Hp. rewrite length_app.
    by destruct (Z.ltb_spec 0 (Z.of_nat (length (bytes_of_attributes (diag_attrs d))
                                         + length (diag_tail d)))); [|lia].
  - by apply parse_msgs_diag.
  - intros σ' Ha Hinv. by apply (appends_keeps _ σ σ' Ha).
Qed.

(** Up to the first receive that does not hold connection-info envelopes
    only, with an allocator that never fails. *)
Lemma sockdiag_sample_drain fd family ss dss rs σ :
  sends σ = SendOk :: ss → alloc_ok σ →
  recvs σ = (datagram_of <$> dss) ++ rs →
  Forall (Forall wf_diag) dss → Forall fits dss →
  Z.of_nat (length (samples_of_diags (concat dss))) ≤ 2 ^ 31 →
  ∃ σ1, sockdiag_sample fd family σ = recv_loop (length rs) fd σ1
        ∧ store σ1 = store_of (samples_of_diags (concat dss))
        ∧ recvs σ1 = rs ∧ errno σ1 = errno σ ∧ alloc_ok σ1.
Proof.
  intros Hs Hok Hr Hwf Hfit Hn. rewrite (sockdiag_sample_start _ _ ss) by done.
  destruct (grow_zero (after_send fd family ss σ)) as (σ0 & Hg & Hst0 & He0 & Hok0 & Hio0);
    [done..|].
  rewrite (bind_Done _ _ _ _ _ Hg).
  rewrite (bind_Done _ _ σ0 (length (recvs σ0)) σ0) by done.
  assert (recvs σ0 = (datagram_of <$> dss) ++ rs) as Hr0 by (by destruct Hio0 as [_ _ -> _]).
  rewrite (recv_loop_diags fd dss _ rs) by (rewrite ?Hr0, ?length_app, ?length_fmap; done || lia).
  destruct (drain_store_of fd dss [] rs
              (recv_loop (length (recvs σ0) - length dss) fd) σ0)
    as (σ1 & Hd & Hst1 & Hr1 & He1 & Hok1 & _); [done..|].
  exists σ1. rewrite Hd, Hr0, length_app, length_fmap.
  replace (length dss + length rs - length dss)%nat with (length rs) by lia.
  repeat split; try done. by rewrite He1, He0.
Qed.

(** The last datagram: connection-info envelopes, then an envelope that
    ends the call. *)
Lemma recv_loop_last fd ds e junk rs (k : M unit) v l σ :
  recvs σ = RecvOk (bytes_of_diags ds ++ bytes_of_envelope e ++ junk) :: rs →
  Forall wf_diag ds →
  (length (bytes_of_diags ds ++ bytes_of_envelope e ++ junk) ≤ sizeof_b)%nat →
  (∀ fuel' rest σ', (length (bytes_of_envelope e ++ junk) ≤ fuel')%nat →
     parse_msgs fuel' ((bytes_of_envelope e ++ junk) ++ rest)
                (Z.of_nat (length (bytes_of_envelope e ++ junk))) σ'
     = (k ;;; ret (Some v)) σ') →
  alloc_ok σ → store σ = store_of l →
  Z.of_nat (length (l ++ samples_of_diags ds)) ≤ 2 ^ 31 →
  ∃ σ1, recv_loop (length (recvs σ)) fd σ = (k ;;; ret v) σ1
        ∧ store σ1 = store_of (l ++ samples_of_diags ds)
        ∧ recvs σ1 = rs ∧ errno σ1 = errno σ.
Proof.
  intros Hr Hds Hfit Hk Hok Hst Hn.
  rewrite (recv_loop_datagram _ _ _ _ _ (k ;;; ret (Some v)) _ Hr Hds Hfit Hk).
  rewrite (bind_Done _ _ _ _ _ (recv_ok_eq fd _ _ σ Hr Hfit)).
  set (σ0 := set_stack _ _).
  destruct (appends_store_of l (samples_of_diags ds) σ0)
    as (σ1 & Ha & Hst1 & He1 & Hok1 & [_ _ Hr1 _]); [done..|].
  rewrite (bind_Done _ _ _ _ _ Ha). exists σ1.
  split; [|by repeat split].
  rewrite bind_assoc. apply bind_ext; intros a σ2. by rewrite bind_ret.
Qed.

(** C7.  After the request is sent, datagrams of connection-info
    envelopes are each walked to their end before the next receive.  When
    one of them then holds an end-of-dump envelope, the call returns 0, the
    Store holds the samples of all extended-TCP-info attributes in the
    order they were received, and no receive was issued after that
    datagram: the script behind it is untouched.  A dump without that
    envelope, which ends in a failed receive or in no datagram at all,
    does not return 0. *)
Theorem receive_loop_until_done fd family ss dss σ :
  sends σ = SendOk :: ss → alloc_ok σ →
  Forall (Forall wf_diag) dss → Forall fits dss →
  (∀ ds e junk rs,
     recvs σ = (datagram_of <$> dss)
               ++ RecvOk (bytes_of_diags ds ++ bytes_of_envelope e ++ junk) :: rs →
     Forall wf_diag ds →
     (length (bytes_of_diags ds ++ bytes_of_envelope e ++ junk) ≤ sizeof_b)%nat →
     wf_envelope e → env_type e = NLMSG_DONE →
     Z.of_nat (length (samples_of_diags (concat dss ++ ds))) ≤ 2 ^ 31 →
     ∃ σ', sockdiag_sample fd family σ = Done 0 σ'
           ∧ store σ' = store_of (samples_of_diags (concat dss ++ ds))
           ∧ len (store σ') = Z.of_nat (length (samples_of_diags (concat dss ++ ds)))
           ∧ recvs σ' = rs)
  ∧ (∀ tl,
       recvs σ = (datagram_of <$> dss) ++ tl →
       tl = [] ∨ (∃ err rs, tl = RecvErr err :: rs) →
       Z.of_nat (length (samples_of_diags (concat dss))) ≤ 2 ^ 31 →
       ∀ σ', sockdiag_sample fd family σ ≠ Done 0 σ').
Proof.
  intros Hs Hok Hwf Hfit. split.
  - intros ds e junk rs Hr Hds Hlast He Hty Hn.
    rewrite samples_of_diags_app, length_app in Hn.
    destruct (sockdiag_sample_drain fd family ss dss _ σ Hs Hok Hr Hwf Hfit)
      as (σ1 & -> & Hst1 & Hr1 & _ & Hok1); [lia|].
    rewrite <- Hr1.
    destruct (recv_loop_last fd ds e junk rs (ret tt) 0
                (samples_of_diags (concat dss)) σ1)
      as (σ2 & -> & Hst2 & Hr2 & _); try done.
    { intros. by apply parse_msgs_done'. }
    { rewrite length_app. lia. }
    exists σ2. rewrite samples_of_diags_app, Hst2. by repeat split.
  - intros tl Hr Htl Hn σ'.
    destruct (sockdiag_sample_drain fd family ss dss _ σ Hs Hok Hr Hwf Hfit)
      as (σ1 & -> & _ & Hr1 & _); [done|].
    destruct Htl as [->|(err & rs & ->)]; cbn [length recv_loop];
      unfold bind, recv; by rewrite Hr1.
Qed.

(** C2 (as amended).  An error envelope that the walk reaches (its
    declared length covers the 16-byte header and lies within the bytes
    received) ends the call with -1.  When its declared length is below
    that of a header and a [struct nlmsgerr], [errno] is [ENODATA];
    otherwise [errno] is the negation of the [error] field the kernel
    embedded (the kernel stores minus the error number). *)
Theorem error_envelope_errno fd family ss dss ds e junk rs σ :
  sends σ = SendOk :: ss → alloc_ok σ →
  recvs σ = (datagram_of <$> dss)
            ++ RecvOk (bytes_of_diags ds ++ bytes_of_envelope e ++ junk) :: rs →
  Forall (Forall wf_diag) dss → Forall fits dss → Forall wf_diag ds →
  (length (bytes_of_diags ds ++ bytes_of_envelope e ++ junk) ≤ sizeof_b)%nat →
  wf_envelope e → env_type e = NLMSG_ERROR →
  Z.of_nat (length (samples_of_diags (concat dss ++ ds))) ≤ 2 ^ 31 →
  ∃ σ', sockdiag_sample fd family σ = Done (-1) σ'
        ∧ errno σ' =
            (if decide (16 + Z.of_nat (length (env_payload e))
                        < NLMSG_LENGTH sizeof_nlmsgerr)
             then ENODATA
             else to_int (- error_field (env_payload e))).
Proof.
  intros Hs Hok Hr Hwf Hfit Hds Hlast He Hty Hn.
  rewrite samples_of_diags_app, length_app in Hn.
  destruct (sockdiag_sample_drain fd family ss dss _ σ Hs Hok Hr Hwf Hfit)
    as (σ1 & -> & Hst1 & Hr1 & _ & Hok1); [lia|].
  rewrite <- Hr1.
  destruct (recv_loop_last fd ds e junk rs
              (modify (set_errno (if decide (length (env_payload e) < 20)%nat
                                  then ENODATA
                                  else to_int (- error_field (env_payload e)))))
              (-1) (samples_of_diags (concat dss)) σ1)
    as (σ2 & -> & Hst2 & Hr2 & _); try done.
  { intros. by apply parse_msgs_error'. }
  { rewrite length_app. lia. }
  eexists. split; [done|]. cbn [errno set_errno].
  change (NLMSG_LENGTH sizeof_nlmsgerr) with 36.
  destruct (decide (length (env_payload e) < 20)%nat);
    [rewrite decide_True by lia|rewrite decide_False by lia]; done.
Qed.

Lemma grow_from_zero σ σ1 :
  store σ = zero_samples → grow σ = Done tt σ1 →
  len (store σ1) = 0 ∧ cap (store σ1) = 16 ∧ store_inv (store σ1) ∧ same_io σ σ1.
Proof.
  intros Hst (Hio & Hlen & Hcap & Hptr)%grow_cases.
  rewrite Hst in *. cbn [len cap zero_samples] in *.
  change (0 =? 0) with true in *. cbv iota in *.
  change INIT_CAP with 16 in *.
  split; [done|]. split; [done|]. split; [|done].
  split; rewrite ?Hlen, ?Hcap; [lia|lia|by left|].
  intros sl Hsl. destruct Hptr as [Hp|(sl' & Hp & Hl)]; congruence.
Qed.

(** C10.  When [sockdiag_sample] returns 0, the length of the Store is
    at most its capacity and the capacity is at least 16, and it is 16
    when the length is 0, whatever the kernel sent and whether or not the
    allocations succeeded.  In particular a dump whose envelopes carry no
    extended-TCP-info attribute returns a Store of length 0 and capacity
    16. *)
Theorem sample_store_invariant fd family σ :
  (∀ σ', sockdiag_sample fd family σ = Done 0 σ' →
         len (store σ') ≤ cap (store σ') ∧ 16 ≤ cap (store σ')
         ∧ (len (store σ') = 0 → cap (store σ') = 16))
  ∧ (∀ ss dss ds e junk rs,
       sends σ = SendOk :: ss →
       recvs σ = (datagram_of <$> dss)
                 ++ RecvOk (bytes_of_diags ds ++ bytes_of_envelope e ++ junk) :: rs →
       Forall (Forall wf_diag) dss → Forall fits dss → Forall wf_diag ds →
       (length (bytes_of_diags ds ++ bytes_of_envelope e ++ junk) ≤ sizeof_b)%nat →
       wf_envelope e → env_type e = NLMSG_DONE →
       samples_of_diags (concat dss ++ ds) = [] →
       ∃ σ', sockdiag_sample fd family σ = Done 0 σ'
             ∧ len (store σ') = 0 ∧ cap (store σ') = 16).
Proof.
  split.
  - intros σ'. unfold sockdiag_sample.
    intros (r & σ1 & _ & Hk)%bind_Done_inv.
    destruct (r <? 0); [done|].
    apply bind_Done_inv in Hk as ([] & σ2 & [= <-] & Hk).
    apply bind_Done_inv in Hk as ([] & σ3 & Hg & Hk).
    apply bind_Done_inv in Hk as (k & σ4 & [= <- <-] & Hk).
    apply grow_from_zero in Hg as (_ & _ & Hinv & _); [|done].
    apply recv_loop_inv in Hk as [Hl Hc Ht _]; [|done].
    repeat split; lia.
  - intros ss dss ds e junk rs Hs Hr Hwf Hfit Hds Hlast He Hty Hq.
    rewrite samples_of_diags_app in Hq. apply app_eq_nil in Hq as [Hq1 Hq2].
    rewrite (sockdiag_sample_start _ _ ss) by done.
    destruct (grow_Done (after_send fd family ss σ)) as [σ0 Hg].
    rewrite (bind_Done _ _ _ _ _ Hg).
    apply grow_from_zero in Hg as (Hlen0 & Hcap0 & _ & [_ _ Hr0 _]); [|done].
    cbn [after_send recvs set_store set_sent set_sends] in Hr0.
    rewrite Hr in Hr0.
    rewrite (bind_Done _ _ σ0 (length (recvs σ0)) σ0) by done.
    rewrite (recv_loop_diags fd dss _ _ _ Hr0)
      by (rewrite ?Hr0, ?length_app, ?length_fmap; done || lia).
    destruct (drain_quiet fd dss _ (recv_loop (length (recvs σ0) - length dss) fd)
                σ0 Hr0 Hfit Hq1) as (σ1 & -> & Hst1 & Hr1 & _).
    rewrite Hr0, length_app, length_fmap.
    replace (length dss + length (RecvOk (bytes_of_diags ds ++ bytes_of_envelope e ++ junk) :: rs)
             - length dss)%nat with (S (length rs)) by (cbn [length]; lia).
    rewrite (recv_loop_datagram _ _ _ _ _ (ret (Some 0)) _ Hr1 Hds Hlast);
      [|intros; by apply parse_msgs_done'].
    rewrite (bind_Done _ _ _ _ _ (recv_ok_eq fd _ _ σ1 Hr1 Hlast)).
    rewrite Hq2. eexists. split; [reflexivity|].
    cbn [store set_stack set_recvs]. by rewrite Hst1.
Qed.

(** C1 (as amended).  [grow] does not check the allocation.  When
    [realloc] fails, [grow] still returns: the capacity is raised, the
    length is unchanged, the sample pointer is null and [errno] is [ENOMEM]
    as the C library left it.  [sockdiag_sample] does not look at any of
    this and goes on to the receive loop. *)
Theorem grow_failure_unreported fd family ss rest σ :
  allocs σ = false :: rest →
  grow σ = Done tt
    (set_store {| sample_ptr := NULL; len := len (store σ);
                  cap := if cap (store σ) =? 0 then INIT_CAP
                         else wrap32 (cap (store σ) * 2) |}
               (set_errno ENOMEM (set_allocs rest σ)))
  ∧ (sends σ = SendOk :: ss →
     sockdiag_sample fd family σ
     = recv_loop (length (recvs σ)) fd
         (set_store {| sample_ptr := NULL; len := 0; cap := INIT_CAP |}
            (set_errno ENOMEM (set_allocs rest (after_send fd family ss σ))))).
Proof.
  intros Ha. split.
  - unfold grow, bind, gets, realloc, modify. by rewrite Ha.
  - intros Hs. rewrite (sockdiag_sample_start _ _ ss) by done.
    unfold grow, bind, gets, realloc, modify.
    cbn [after_send allocs set_store set_sent set_sends]. by rewrite Ha.
Qed.

(** C9.  When [sendmsg] fails, [sockdiag_sample] returns -1 and the
    caller's [struct samples] is what it was: the same pointer, length and
    capacity. *)
Theorem send_failure_leaves_store fd family err ss σ :
  sends σ = SendErr err :: ss →
  sockdiag_sample fd family σ = Done (-1) (set_errno err (set_sends ss σ))
  ∧ store (set_errno err (set_sends ss σ)) = store σ.
Proof.
  intros Hs. split; [|done].
  unfold sockdiag_sample, send_request, sendmsg, bind. by rewrite Hs.
Qed.

(** C6 (as amended).  [sockdiag_sample] sends the request first.  Only
    when that succeeded does it zero the Store and grow it once, before the
    first receive; from there on the call does not depend on what the
    caller's [struct samples] held, so nothing of an earlier call leaks
    into it. *)
Theorem sample_starts_from_empty_store fd family ss s σ :
  sends σ = SendOk :: ss →
  sockdiag_sample fd family (set_store s σ)
  = sockdiag_sample fd family (set_store zero_samples σ)
  ∧ sockdiag_sample fd family (set_store s σ)
    = (grow ;;; let* k := gets (λ σ, length (recvs σ)) in recv_loop k fd)
        (after_send fd family ss σ).
Proof.
  intros Hs. by rewrite !(sockdiag_sample_start _ _ ss).
Qed.

Lemma load_cons b p off n : load (b :: p) (S off) n = load p off n.
Proof. done. Qed.

Lemma load_uint_byte z post :
  0 ≤ z < 256 → load_uint (byte_of z :: post) 0 1 = Some z.
Proof.
  intros Hz. unfold load_uint.
  change (byte_of z :: post) with ([byte_of z] ++ post).
  rewrite (load_take [byte_of z] post 1) by done.
  cbn [take fmap option_fmap option_map]. f_equal.
  unfold host_val, be_val. cbn [rev app le_val].
  destruct big_endian; rewrite byte_val_of, Z.mod_small; lia.
Qed.

Lemma established_only i :
  0 ≤ i → Z.testbit (Z.shiftl 1 TCP_ESTABLISHED) i = (i =? TCP_ESTABLISHED).
Proof.
  intros Hi. rewrite Z.shiftl_1_l. unfold TCP_ESTABLISHED.
  destruct (Z.eqb_spec i 1) as [->|Hne]; [done|].
  by apply Z.pow2_bits_false.
Qed.

(** C8.  For every address family (a [uint8_t]), the request is one
    message of 72 bytes: a [struct nlmsghdr] that declares these 72 bytes,
    has type [SOCK_DIAG_BY_FAMILY] and carries the flags [NLM_F_DUMP] and
    [NLM_F_REQUEST], followed by a [struct inet_diag_req_v2] with the
    family, protocol TCP, the extension bit [INET_DIAG_INFO - 1] set, and
    a state mask in which bit [TCP_ESTABLISHED] and no other is set.
    Building it has no failure of its own: [send_request] returns what
    [sendmsg] returns. *)
Theorem request_format fd family σ :
  0 ≤ family < 256 →
  let msg := request family in
  length msg = 72%nat
  ∧ load_uint msg 0 4 = Some 72
  ∧ load_uint msg 4 2 = Some SOCK_DIAG_BY_FAMILY
  ∧ (∃ flags, load_uint msg 6 2 = Some flags
              ∧ Z.land flags NLM_F_DUMP = NLM_F_DUMP
              ∧ Z.land flags NLM_F_REQUEST = NLM_F_REQUEST)
  ∧ load_uint msg 16 1 = Some family
  ∧ load_uint msg 17 1 = Some IPPROTO_TCP
  ∧ (∃ ext, load_uint msg 18 1 = Some ext
            ∧ Z.testbit ext (INET_DIAG_INFO - 1) = true)
  ∧ (∃ states, load_uint msg 20 4 = Some states
               ∧ ∀ i, 0 ≤ i → Z.testbit states i = (i =? TCP_ESTABLISHED))
  ∧ send_request fd family σ
    = match sends σ with
      | [] => Blocked
      | SendOk :: ss =>
          Done 72 (set_sent (sent σ ++ [(fd, msg)]) (set_sends ss σ))
      | SendErr err :: ss => Done (-1) (set_errno err (set_sends ss σ))
      end.
Proof.
  intros Hfam msg. split; [apply request_length|].
  assert (msg = host_bytes 4 72 ++ host_bytes 2 SOCK_DIAG_BY_FAMILY
                ++ host_bytes 2 769 ++ host_bytes 4 0 ++ host_bytes 4 0
                ++ byte_of family :: byte_of IPPROTO_TCP :: byte_of 2 :: byte_of 0
                :: host_bytes 4 2 ++ zeros sizeof_inet_diag_sockid ++ []) as Hmsg.
  { subst msg. unfold request, bytes_of_nlmsghdr, bytes_of_req. cbn [concat].
    by rewrite <- !app_assoc. }
  rewrite Hmsg.
  split; [by apply load_uint_host|].
  split.
  { unfold load_uint. rewrite !(load_skip _ _ 4 0) by (by rewrite length_host_bytes).
    by apply load_uint_host. }
  split.
  { exists 769. split; [|done].
    unfold load_uint. rewrite (load_skip _ _ 6 2) by (by rewrite length_host_bytes).
    rewrite (load_skip _ _ 2 0) by (by rewrite length_host_bytes).
    by apply load_uint_host. }
  assert (∀ off n p,
    load_uint (host_bytes 4 72 ++ host_bytes 2 SOCK_DIAG_BY_FAMILY
               ++ host_bytes 2 769 ++ host_bytes 4 0 ++ host_bytes 4 0 ++ p)
              (16 + off) n = load_uint p off n) as Hskip.
  { intros off n p. unfold load_uint. f_equal.
    rewrite (load_skip _ _ _ (12 + off)) by (by rewrite length_host_bytes).
    rewrite (load_skip _ _ _ (10 + off)) by (by rewrite length_host_bytes).
    rewrite (load_skip _ _ _ (8 + off)) by (by rewrite length_host_bytes).
    rewrite (load_skip _ _ _ (4 + off)) by (by rewrite length_host_bytes).
    by rewrite (load_skip _ _ _ off) by (by rewrite length_host_bytes). }
  split; [rewrite (Hskip 0%nat); by apply load_uint_byte|].
  split.
  { rewrite (Hskip 1%nat). unfold load_uint. rewrite load_cons.
    by apply load_uint_byte. }
  split.
  { exists 2. split; [|done]. rewrite (Hskip 2%nat). unfold load_uint.
    rewrite !load_cons. by apply load_uint_byte. }
  split.
  { exists (Z.shiftl 1 TCP_ESTABLISHED). split; [|apply established_only].
    rewrite (Hskip 4%nat). unfold load_uint. rewrite !load_cons.
    by apply load_uint_host. }
  rewrite <- Hmsg. subst msg.
  unfold send_request, sendmsg. fold (request family). rewrite request_length.
  by destruct (sends σ) as [|[] ?].
Qed.
End Claims.

(** ** Further properties of the sampler *)

Section Further.
Context `{Platform}.

(** The receive loop neither sends nor touches the send script. *)
Lemma recv_loop_sent fuel : ∀ fd σ r σ',
  recv_loop fuel fd σ = Done r σ' → sends σ' = sends σ ∧ sent σ' = sent σ.
Proof.
  induction fuel as [|fuel IH]; intros fd σ r σ'; cbn [recv_loop];
    intros (n & σ1 & Hn & Hk)%bind_Done_inv;
    apply recv_cases in Hn as (_ & Hs & Ht & _);
    (destruct (n =? -1); [injection Hk as <- <-; done|]);
    apply bind_Done_inv in Hk as (b & σ0 & [= <- <-] & Hk);
    apply bind_Done_inv in Hk as (o & σ2 & Hp & Hk);
    apply parse_msgs_steps in Hp as [[_ Hs2 _ Ht2] _];
    (destruct o; [injection Hk as <- <-; split; congruence|]);
    [done|].
  apply IH in Hk as [Hs3 Ht3]. split; congruence.
Qed.

(** X1.  A failed [recv] ends the call with -1 and [errno] as [recv] left
    it (a receive that runs into the one-second timeout set by
    [sockdiag_open] is such a failure).  The samples of the datagrams
    received before it stay in the Store, which is neither freed nor
    reset, and nothing more is received. *)
Theorem recv_failure_keeps_samples fd family ss dss err rs σ :
  sends σ = SendOk :: ss → alloc_ok σ →
  recvs σ = (datagram_of <$> dss) ++ RecvErr err :: rs →
  Forall (Forall wf_diag) dss → Forall fits dss →
  Z.of_nat (length (samples_of_diags (concat dss))) ≤ 2 ^ 31 →
  ∃ σ', sockdiag_sample fd family σ = Done (-1) σ'
        ∧ errno σ' = err
        ∧ store σ' = store_of (samples_of_diags (concat dss))
        ∧ recvs σ' = rs.
Proof.
  intros Hs Hok Hr Hwf Hfit Hn.
  destruct (sockdiag_sample_drain fd family ss dss _ σ Hs Hok Hr Hwf Hfit Hn)
    as (σ1 & -> & Hst1 & Hr1 & _).
  exists (set_errno err (set_recvs rs σ1)).
  split; [|done].
  cbn [length recv_loop]. unfold bind, recv. by rewrite Hr1.
Qed.

(** X2.  An error envelope ends the call with -1 and leaves the samples
    decoded before it in the Store, in receive order; the datagrams behind
    the one that holds it are left unread. *)
Theorem error_envelope_keeps_samples fd family ss dss ds e junk rs σ :
  sends σ = SendOk :: ss → alloc_ok σ →
  recvs σ = (datagram_of <$> dss)
            ++ RecvOk (bytes_of_diags ds ++ bytes_of_envelope e ++ junk) :: rs →
  Forall (Forall wf_diag) dss → Forall fits dss → Forall wf_diag ds →
  (length (bytes_of_diags ds ++ bytes_of_envelope e ++ junk) ≤ sizeof_b)%nat →
  wf_envelope e → env_type e = NLMSG_ERROR →
  Z.of_nat (length (samples_of_diags (concat dss ++ ds))) ≤ 2 ^ 31 →
  ∃ σ', sockdiag_sample fd family σ = Done (-1) σ'
        ∧ store σ' = store_of (samples_of_diags (concat dss ++ ds))
        ∧ recvs σ' = rs.
Proof.
  intros Hs Hok Hr Hwf Hfit Hds Hlast He Hty Hn.
  rewrite samples_of_diags_app, length_app in Hn.
  destruct (sockdiag_sample_drain fd family ss dss _ σ Hs Hok Hr Hwf Hfit)
    as (σ1 & -> & Hst1 & Hr1 & _ & Hok1); [lia|].
  rewrite <- Hr1.
  destruct (recv_loop_last fd ds e junk rs
              (modify (set_errno (if decide (length (env_payload e) < 20)%nat
                                  then ENODATA
                                  else to_int (- error_field (env_payload e)))))
              (-1) (samples_of_diags (concat dss)) σ1)
    as (σ2 & -> & Hst2 & Hr2 & _); try done.
  { intros. by apply parse_msgs_error'. }
  { rewrite length_app. lia. }
  eexists. split; [done|]. cbn [store recvs set_errno].
  by rewrite samples_of_diags_app.
Qed.

(** X3.  An envelope that is neither end-of-dump nor error and whose
    payload is no longer than a [struct inet_diag_msg] (a record without
    attributes, or a payload too short to hold the record) is stepped over:
    [rl] is not positive, [parse_response] is not called, the state is
    unchanged and the walk goes on behind the envelope. *)
Theorem short_envelope_skipped fuel e rest n σ :
  wf_envelope e → env_type e ≠ NLMSG_DONE → env_type e ≠ NLMSG_ERROR →
  (length (env_payload e) ≤ 72)%nat →
  Z.of_nat (length (bytes_of_envelope e)) ≤ n < 2 ^ 31 →
  parse_msgs (S fuel) (bytes_of_envelope e ++ rest) n σ
  = parse_msgs fuel rest (n - Z.of_nat (length (bytes_of_envelope e))) σ.
Proof.
  intros He Hnd Hne Hp Hn. pose proof (bytes_of_envelope_ge e) as Hge.
  cbn [parse_msgs].
  rewrite NLMSG_OK_envelope, load_env_len, load_env_type by (done || lia).
  repeat (cbn [deref negb]; rewrite bind_ret; cbv beta).
  destruct (Z.eqb_spec (env_type e) NLMSG_DONE); [done|].
  destruct (Z.eqb_spec (env_type e) NLMSG_ERROR); [done|].
  rewrite NLMSG_ALIGN_envelope by done.
  change (NLMSG_LENGTH sizeof_inet_diag_msg) with 88.
  rewrite !to_int_small by lia.
  destruct (Z.ltb_spec 0 (16 + Z.of_nat (length (env_payload e)) - 88)); [lia|].
  cbn [when]. rewrite bind_ret.
  unfold advance. by rewrite Nat2Z.id, drop_app_length.
Qed.

(** X4.  Whatever the kernel answers and whether or not allocations
    fail, a call that returns has called [sendmsg] once.  Either that send
    failed, the call returned -1 and neither the Store nor the log of sent
    messages changed, or exactly one message, the request, went out on the
    descriptor given: the call never sends a second time. *)
Theorem request_sent_once fd family σ r σ' :
  sockdiag_sample fd family σ = Done r σ' →
  length (sends σ) = S (length (sends σ'))
  ∧ ((r = -1 ∧ sent σ' = sent σ ∧ store σ' = store σ)
     ∨ sent σ' = sent σ ++ [(fd, request family)]).
Proof.
  unfold sockdiag_sample, send_request.
  intros (n & σ1 & Hsend & Hk)%bind_Done_inv.
  unfold sendmsg in Hsend. fold (request family) in Hsend.
  destruct (sends σ) as [|[|e] ss] eqn:Hs; [done|..];
    injection Hsend as <- <-.
  - rewrite request_length in Hk. change (Z.of_nat 72 <? 0) with false in Hk.
    apply bind_Done_inv in Hk as ([] & σ2 & [= <-] & Hk).
    apply bind_Done_inv in Hk as ([] & σ3 & Hg & Hk).
    apply bind_Done_inv in Hk as (k & σ4 & [= <- <-] & Hk).
    apply grow_cases in Hg as ([_ Hs3 _ Ht3] & _).
    apply recv_loop_sent in Hk as [Hs4 Ht4].
    cbn [sends sent set_store set_sent set_sends] in *.
    split; [by rewrite Hs4, Hs3|]. right. by rewrite Ht4, Ht3.
  - change (-1 <? 0) with true in Hk. injection Hk as <- <-.
    split; [done|]. by left.
Qed.

(** X5.  When the allocation of the first [grow] fails and the first
    datagram then starts with a connection-info envelope that carries an
    extended-TCP-info attribute, the sample is written through the null
    pointer: the call neither returns nor reports the failure. *)
Theorem failed_allocation_null_write fd family ss al d tail rs σ :
  sends σ = SendOk :: ss → allocs σ = false :: al →
  recvs σ = RecvOk (bytes_of_diag d ++ tail) :: rs →
  wf_diag d → (length (bytes_of_diag d ++ tail) ≤ sizeof_b)%nat →
  samples_of_diag d ≠ [] →
  sockdiag_sample fd family σ = Fault.
Proof.
  intros Hs Ha Hr Hd Hlen Hx.
  rewrite (sockdiag_sample_start _ _ ss) by done.
  unfold grow, realloc, gets, modify, bind at 1 2 3 4.
  cbn [after_send allocs store set_store set_sent set_sends cap len sample_ptr
       zero_samples]. rewrite Ha.
  change (0 =? 0) with true. cbv iota.
  set (σ0 := set_store _ _).
  assert (recvs σ0 = RecvOk (bytes_of_diag d ++ tail) :: rs) as Hr0 by done.
  rewrite Hr0. cbn [length recv_loop].
  rewrite (bind_Done _ _ _ _ _ (recv_ok_eq fd _ _ σ0 Hr0 Hlen)).
  pose proof Hlen as Hlen'%Nat2Z.inj_le. rewrite sizeof_b_Z in Hlen'.
  pose proof (bytes_of_diag_ge d) as Hge. rewrite length_app in *.
  destruct (Z.eqb_spec (Z.of_nat (length (bytes_of_diag d) + length tail)) (-1));
    [lia|].
  erewrite bind_Done by reflexivity. cbn [stack set_stack].
  destruct (Z.to_nat (Z.of_nat (length (bytes_of_diag d) + length tail)))
    as [|fuel] eqn:Hfuel; [lia|].
  rewrite <- app_assoc.
  erewrite bind_ext'; [|apply parse_msgs_diag; (done || lia)].
  destruct (samples_of_diag d) as [|x l]; [done|].
  reflexivity.
Qed.

(** Behind the header of an encoded attribute. *)
Lemma RTA_DATA_attribute a rest :
  RTA_DATA (bytes_of_attribute a ++ rest)
  = rta_payload a ++ padding (length (rta_payload a)) ++ rest.
Proof.
  unfold RTA_DATA, advance, bytes_of_attribute.
  change (Z.to_nat (RTA_LENGTH 0)) with 4%nat. rewrite <- !app_assoc.
  rewrite app_assoc. by rewrite drop_app_length'
    by (by rewrite length_app, !length_host_bytes).
Qed.

(** A load from the start of a buffer. *)
Lemma load_whole p n :
  load p 0 n = if decide (n ≤ length p)%nat then Some (take n p) else None.
Proof.
  unfold load. rewrite drop_0, length_take.
  destruct (decide (n ≤ length p)%nat).
  - by rewrite decide_True by lia.
  - by rewrite decide_False by lia.
Qed.

(** The header of an encoded attribute, whatever its payload. *)
Lemma attr_header a rest n :
  0 ≤ rta_type a < 65536 →
  4 + Z.of_nat (length (rta_payload a)) < 65536 →
  Z.of_nat (length (bytes_of_attribute a)) ≤ n →
  RTA_OK (bytes_of_attribute a ++ rest) n = Some true
  ∧ load_uint (bytes_of_attribute a ++ rest) off_rta_len 2
    = Some (4 + Z.of_nat (length (rta_payload a)))
  ∧ load_uint (bytes_of_attribute a ++ rest) off_rta_type 2 = Some (rta_type a)
  ∧ RTA_ALIGN (4 + Z.of_nat (length (rta_payload a)))
    = Z.of_nat (length (bytes_of_attribute a)).
Proof.
  intros Hty Hlen Hn.
  assert (load_uint (bytes_of_attribute a ++ rest) off_rta_len 2
          = Some (4 + Z.of_nat (length (rta_payload a)))) as Hl.
  { unfold bytes_of_attribute. rewrite <- !app_assoc.
    apply load_uint_host. change (256 ^ Z.of_nat 2) with 65536. lia. }
  pose proof (bytes_of_attribute_ge a).
  split; [|split; [done|split]].
  - unfold RTA_OK, sizeof_rtattr.
    destruct (Z.ltb_spec n 4); [lia|]. rewrite Hl. cbn.
    by rewrite !bool_decide_true by lia.
  - unfold bytes_of_attribute, load_uint. rewrite <- !app_assoc.
    rewrite (load_skip _ _ _ 0) by (by rewrite length_host_bytes).
    by apply load_uint_host.
  - rewrite RTA_ALIGN_eq by lia. by rewrite bytes_of_attribute_length.
Qed.

(** X6.  [parse_response] does not compare the length of an
    extended-TCP-info attribute with [sizeof(struct tcp_info)].  The [info]
    of the sample is the [sizeof(struct tcp_info)] bytes behind the
    attribute header, whatever [rta_len] says: for a shorter payload they
    run on into the padding and the bytes that follow the attribute, and
    when the buffer ends before them the read leaves the buffer. *)
Theorem info_read_ignores_rta_len fuel m post a rest n σ :
  wf_inet_diag_msg m → rta_type a = INET_DIAG_INFO →
  4 + Z.of_nat (length (rta_payload a)) < 65536 →
  Z.of_nat (length (bytes_of_attribute a)) ≤ n < 2 ^ 31 →
  let behind := rta_payload a ++ padding (length (rta_payload a)) ++ rest in
  parse_attrs (S fuel) (bytes_of_inet_diag_msg m ++ post)
              (bytes_of_attribute a ++ rest) n σ
  = (if decide (sizeof_tcp_info ≤ length behind)%nat then
       append (sample_of m (take sizeof_tcp_info behind)) ;;;
       parse_attrs fuel (bytes_of_inet_diag_msg m ++ post) rest
                   (n - Z.of_nat (length (bytes_of_attribute a)))
     else fault) σ.
Proof.
  intros Hm Hty Hlen Hn behind.
  destruct (attr_header a rest n) as (Hok & Hl & Ht & Hal); [rewrite Hty; done|lia..|].
  cbn [parse_attrs]. rewrite Hok, Hl, Ht.
  repeat (cbn [deref negb]; rewrite bind_ret; cbv beta).
  rewrite Hal, Hty. change (INET_DIAG_INFO =? INET_DIAG_INFO) with true.
  cbn [when]. rewrite to_int_small by lia.
  unfold advance. rewrite Nat2Z.id, drop_app_length.
  assert (store_sample (bytes_of_inet_diag_msg m ++ post)
                       (bytes_of_attribute a ++ rest) σ
          = (if decide (sizeof_tcp_info ≤ length behind)%nat
             then append (sample_of m (take sizeof_tcp_info behind)) else fault) σ)
    as Hs.
  { assert (∃ σ1, when (bool_decide (cap (store σ) ≤ len (store σ))) grow σ
                  = Done tt σ1) as [σ1 Hw].
    { destruct (bool_decide _); [apply grow_Done|by eexists]. }
    pose proof (load_msg_sport m post Hm) as (sp & Hsp & Hsp')%fmap_Some.
    pose proof (load_msg_dport m post Hm) as (dp & Hdp & Hdp')%fmap_Some.
    destruct (decide (sizeof_tcp_info ≤ length behind)%nat) as [Hb|Hb];
      unfold store_sample, append;
      rewrite !(bind_Done _ _ σ (store σ) σ) by done;
      rewrite !(bind_Done _ _ _ _ _ Hw);
      rewrite !(bind_Done _ _ σ1 (len (store σ1)) σ1) by done;
      rewrite (load_msg_family m post Hm), Hsp, Hdp;
      rewrite RTA_DATA_attribute, load_whole; fold behind;
      [rewrite decide_True by done|by rewrite decide_False by done].
    cbn [deref]. rewrite !bind_ret. cbv beta zeta.
    rewrite !load_msg_src, !load_msg_dst
      by (done || destruct (idiag_family m =? AF_INET); lia).
    rewrite <- Hsp', <- Hdp'.
    destruct Hm as [_ _ _ Hsrc Hdst _].
    unfold bind, deref, ret, poke, peek, modify, gets. cbv beta iota.
    destruct (sample_ptr (store σ1)) as [|sl]; [done|].
    destruct (decide (Z.to_nat (len (store σ1)) < length sl)%nat) as [Hi|Hi];
      [|done].
    unfold set_store.
    repeat first
      [ rewrite list_lookup_insert_eq by (rewrite ?length_insert; done)
      | rewrite decide_True by (rewrite ?length_insert; done)
      | progress simpl ].
    rewrite !list_insert_insert_eq. unfold with_daddr, with_saddr, sample_of. simpl.
    destruct (idiag_family m =? AF_INET);
      rewrite !memcpy_zeros by lia; done. }
  rewrite (bind_ext' _ _ _ _ Hs).
  by destruct (decide _).
Qed.

(** The walk stops at an envelope that the end of the buffer cuts. *)
Lemma parse_msgs_cut fuel e tail rest k σ :
  wf_envelope e → (k ≤ length (bytes_of_envelope e ++ tail))%nat →
  Z.of_nat k < 16 + Z.of_nat (length (env_payload e)) →
  parse_msgs fuel (take k (bytes_of_envelope e ++ tail) ++ rest) (Z.of_nat k) σ
  = Done None σ.
Proof.
  intros He Hk Hcut.
  destruct (Z.lt_ge_cases (Z.of_nat k) 16) as [Hs|Hs]; [by apply parse_msgs_end|].
  assert (NLMSG_OK (take k (bytes_of_envelope e ++ tail) ++ rest) (Z.of_nat k)
          = Some false) as Hok.
  { unfold NLMSG_OK, sizeof_nlmsghdr.
    destruct (Z.ltb_spec (Z.of_nat k) 16); [lia|].
    assert (load_uint (take k (bytes_of_envelope e ++ tail) ++ rest) off_nlmsg_len 4
            = load_uint (bytes_of_envelope e ++ tail) off_nlmsg_len 4) as ->.
    { unfold load_uint, load, off_nlmsg_len. rewrite !drop_0.
      rewrite take_app_le by (rewrite length_take; lia).
      rewrite take_take. by replace (4 `min` k)%nat with 4%nat by lia. }
    rewrite load_env_len by done. cbn.
    rewrite (bool_decide_false (_ ≤ Z.of_nat k)) by lia.
    by rewrite andb_false_r. }
  destruct fuel; cbn [parse_msgs]; by rewrite Hok.
Qed.

(** X7.  A datagram longer than the 32 KiB buffer is cut by [recv], and
    the cut goes unnoticed: the envelopes that fit are parsed, the envelope
    that the end of the buffer cuts (be it the end-of-dump envelope) and
    all behind it are dropped without an error, and the loop goes on to
    the next [recv]. *)
Theorem oversized_datagram_cut fuel fd ds e tail rs σ :
  recvs σ = RecvOk (bytes_of_diags ds ++ bytes_of_envelope e ++ tail) :: rs →
  Forall wf_diag ds → wf_envelope e →
  (length (bytes_of_diags ds) ≤ sizeof_b)%nat →
  (sizeof_b < length (bytes_of_diags ds) + 16 + length (env_payload e))%nat →
  recv_loop (S fuel) fd σ
  = (recv fd ;;; appends (samples_of_diags ds) ;;; recv_loop fuel fd) σ
  ∧ ∃ σ1, recv fd σ = Done (Z.of_nat sizeof_b) σ1 ∧ recvs σ1 = rs.
Proof.
  intros Hr Hds He Hfit Hcut.
  pose proof (bytes_of_envelope_ge e) as Hge.
  pose proof Hfit as Hfit'%Nat2Z.inj_le. rewrite sizeof_b_Z in Hfit'.
  pose proof (bytes_of_diags_length ds) as Hn.
  set (k := (sizeof_b - length (bytes_of_diags ds))%nat).
  assert (Z.of_nat k = 32768 - Z.of_nat (length (bytes_of_diags ds))) as Hk.
  { subst k. rewrite Nat2Z.inj_sub by done. by rewrite sizeof_b_Z. }
  assert (take sizeof_b (bytes_of_diags ds ++ bytes_of_envelope e ++ tail)
          = bytes_of_diags ds ++ take k (bytes_of_envelope e ++ tail)) as Htake.
  { rewrite take_app. rewrite take_ge by done. done. }
  assert (length (take k (bytes_of_envelope e ++ tail)) = k) as Hlk.
  { rewrite length_take, length_app. lia. }
  assert (∃ n, n = 32768 ∧ recv fd σ
          = Done n
              (set_stack ((bytes_of_diags ds ++ take k (bytes_of_envelope e ++ tail))
                          ++ drop sizeof_b (stack σ)) (set_recvs rs σ)))
    as (n & Hsz & Hrecv).
  { exists (Z.of_nat sizeof_b). split; [apply sizeof_b_Z|].
    unfold recv. rewrite Hr, Htake. rewrite length_app, Hlk.
    by replace (length (bytes_of_diags ds) + k)%nat with sizeof_b by lia. }
  split; [|rewrite Hrecv, sizeof_b_Z, <- Hsz; by eexists].
  cbn [recv_loop]. rewrite !(bind_Done _ _ _ _ _ Hrecv).
  destruct (Z.eqb_spec n (-1)); [lia|].
  erewrite bind_Done by reflexivity. cbn [stack set_stack].
  rewrite <- !app_assoc.
  replace n with (Z.of_nat (length (bytes_of_diags ds)) + Z.of_nat k) by lia.
  etransitivity; [apply bind_ext', parse_msgs_diags; (done || lia)|].
  rewrite bind_assoc. apply bind_ext; intros [] σ1.
  rewrite (bind_Done _ _ _ None σ1); [done|].
  apply parse_msgs_cut; [done| |lia]. rewrite length_app in *. lia.
Qed.

(** Loads inside the buffer succeed. *)
Lemma load_Some p off n :
  (off + n ≤ length p)%nat → ∃ bs, load p off n = Some bs.
Proof.
  intros Hn. unfold load. rewrite decide_True; [by eexists|].
  rewrite length_take, length_drop. lia.
Qed.

Lemma load_uint_Some p off n :
  (off + n ≤ length p)%nat →
  ∃ l, load_uint p off n = Some l ∧ 0 ≤ l < 256 ^ Z.of_nat n.
Proof.
  intros [bs Hbs]%load_Some. exists (host_val bs).
  assert (load_uint p off n = Some (host_val bs)) as Hl
    by (unfold load_uint; by rewrite Hbs).
  split; [done|]. by eapply load_uint_range.
Qed.

(** [store_sample] once its loads are known. *)
Lemma store_sample_loaded msg attr fam sp dp ti src dst σ :
  load_uint msg off_idiag_family 1 = Some fam →
  load_uint msg off_idiag_sport 2 = Some sp →
  load_uint msg off_idiag_dport 2 = Some dp →
  load (RTA_DATA attr) 0 sizeof_tcp_info = Some ti →
  load msg off_idiag_src (if fam =? AF_INET then 4%nat else 16%nat) = Some src →
  load msg off_idiag_dst (if fam =? AF_INET then 4%nat else 16%nat) = Some dst →
  ∃ x, store_sample msg attr σ = append x σ.
Proof.
  intros Hfam Hsp Hdp Hti Hsrc Hdst.
  destruct (store_sample_cases msg attr σ) as [Hf|Hx]; [|done].
  exists {| family := fam; saddr := zeros 16; sport := htons sp;
            daddr := zeros 16; dport := htons dp; info := ti |}.
  rewrite Hf. symmetry. revert Hf. unfold store_sample, append.
  assert (∃ σ1, when (bool_decide (cap (store σ) ≤ len (store σ))) grow σ
                = Done tt σ1) as [σ1 Hw].
  { destruct (bool_decide _); [apply grow_Done|by eexists]. }
  rewrite !(bind_Done _ _ σ (store σ) σ) by done.
  rewrite !(bind_Done _ _ _ _ _ Hw).
  rewrite Hfam, Hsp, Hdp, Hti.
  unfold gets, bind, deref, ret, poke, peek, modify. cbv beta iota.
  rewrite Hsrc, Hdst.
  destruct (sample_ptr (store σ1)) as [|sl]; [done|].
  destruct (decide (Z.to_nat (len (store σ1)) < length sl)%nat) as [Hi|Hi]; [|done].
  unfold set_store.
  repeat first
    [ rewrite list_lookup_insert_eq by (rewrite ?length_insert; done)
    | rewrite decide_True by (rewrite ?length_insert; done)
    | progress simpl ].
  done.
Qed.

(** An append to a Store that is [ready] and not at its last capacity. *)
Lemma append_ready x σ :
  ready σ → store_inv (store σ) → len (store σ) < 2 ^ 31 →
  ∃ σ', append x σ = Done tt σ' ∧ ready σ' ∧ store_inv (store σ')
        ∧ len (store σ') = len (store σ) + 1 ∧ same_io σ σ'.
Proof.
  intros [Hok Hptr] Hinv Hlen.
  assert (∃ σ', append x σ = Done tt σ' ∧ ready σ') as (σ' & Ha & Hr).
  { destruct Hinv as [Hl Hc Ht Hb].
    assert (∃ σ1 sl, when (bool_decide (cap (store σ) ≤ len (store σ))) grow σ
                     = Done tt σ1
              ∧ alloc_ok σ1 ∧ sample_ptr (store σ1) = Block sl
              ∧ (Z.to_nat (len (store σ1)) < length sl)%nat)
      as (σ1 & sl & Hw & Hok1 & Hsl & Hi).
    { case_bool_decide as Hfull; cbn [when].
      - destruct (grow_ok σ Hok) as (σ1 & Hg & Hst1 & _ & Hok1 & _).
        eexists σ1, _. split; [done|]. split; [done|]. rewrite Hst1.
        cbn [sample_ptr len]. split; [done|]. rewrite length_resize.
        destruct (Z.eqb_spec (cap (store σ)) 0); [lia|].
        unfold wrap32. rewrite Z.mod_small by lia. lia.
      - destruct (sample_ptr (store σ)) as [|sl] eqn:Hsl; [done|].
        exists σ, sl. repeat split; try done. rewrite (Hb _ eq_refl). lia. }
    unfold append.
    rewrite !(bind_Done _ _ σ (store σ) σ) by done.
    rewrite !(bind_Done _ _ _ _ _ Hw).
    unfold gets, bind, poke, modify. cbv beta iota.
    rewrite Hsl, decide_True by done.
    eexists. split; [done|]. by split. }
  exists σ'. pose proof (append_steps x σ σ' Ha) as [Hio Hinv'].
  destruct (append_keeps x σ σ' Ha Hinv) as [Hlen' _].
  auto.
Qed.

(** [RTA_NEXT] keeps the room behind the attributes. *)
Lemma attr_room (attr : list byte) n l :
  (4 ≤ n → n + Z.of_nat sizeof_tcp_info ≤ Z.of_nat (length attr)) →
  4 ≤ l ≤ n → l < 65536 → n < 2 ^ 31 →
  let n' := to_int (n - RTA_ALIGN l) in
  n' ≤ n - 4 ∧ - 2 ^ 31 ≤ n'
  ∧ (4 ≤ n' → n' + Z.of_nat sizeof_tcp_info
              ≤ Z.of_nat (length (advance attr (RTA_ALIGN l)))).
Proof.
  intros Hroom Hl Hl' Hn. cbv zeta.
  rewrite RTA_ALIGN_eq by lia.
  assert (l ≤ 4 * ((l + 3) / 4) ≤ l + 3) by (Z.div_mod_to_equations; lia).
  rewrite to_int_small by lia. split; [lia|]. split; [lia|].
  intros Hn'. unfold advance. rewrite length_drop. lia.
Qed.

(** The attribute loop, the envelope loop and the receive loop on any
    bytes, when there is room behind them. *)
Lemma parse_attrs_ready fuel : ∀ msg attr n σ,
  ready σ → store_inv (store σ) →
  (40 ≤ length msg)%nat → n < 2 ^ 31 →
  (4 ≤ n → n + Z.of_nat sizeof_tcp_info ≤ Z.of_nat (length attr)) →
  len (store σ) + Z.max 0 n ≤ 2 ^ 31 → (Z.to_nat n ≤ fuel)%nat →
  ∃ σ', parse_attrs fuel msg attr n σ = Done tt σ' ∧ ready σ'
        ∧ store_inv (store σ') ∧ same_io σ σ'
        ∧ len (store σ') ≤ len (store σ) + Z.max 0 n.
Proof.
  induction fuel as [|fuel IH]; intros msg attr n σ Hr Hinv Hmsg Hn Hroom Hlen Hfuel;
    cbn [parse_attrs]; unfold RTA_OK, sizeof_rtattr;
    (destruct (Z.ltb_spec n 4) as [Hsmall|Hbig];
     [exists σ; cbn [deref]; rewrite bind_ret; cbn [negb];
      split; [done|]; split; [done|]; split; [done|];
      split; [apply same_io_refl|lia]|]); [lia|].
  destruct (load_uint_Some attr off_rta_len 2) as (l & Hl & Hlr);
    [unfold off_rta_len; lia|].
  change (256 ^ Z.of_nat 2) with 65536 in Hlr.
  rewrite Hl. cbn [mbind option_bind deref]. rewrite bind_ret.
  destruct (decide (4 ≤ l ∧ l ≤ n)) as [[Hl4 Hln]|Hbad]; last first.
  { exists σ. assert (bool_decide (4 ≤ l) && bool_decide (l ≤ n) = false) as ->.
    { apply andb_false_iff. rewrite !bool_decide_eq_false. lia. }
    cbn [negb]. split; [done|]. split; [done|]. split; [done|].
    split; [apply same_io_refl|lia]. }
  rewrite !bool_decide_true by done. cbn [andb negb].
  rewrite bind_ret.
  destruct (load_uint_Some attr off_rta_type 2) as (ty & Hty & _);
    [unfold off_rta_type; lia|].
  rewrite Hty. cbn [deref]. rewrite bind_ret.
  destruct (attr_room attr n l Hroom) as (Hn1 & Hn2 & Hroom'); [lia..|].
  assert (∃ σ1, when (ty =? INET_DIAG_INFO) (store_sample msg attr) σ = Done tt σ1
            ∧ ready σ1 ∧ store_inv (store σ1) ∧ same_io σ σ1
            ∧ len (store σ1) ≤ len (store σ) + 1)
    as (σ1 & Hs & Hr1 & Hinv1 & Hio1 & Hlen1).
  { destruct (ty =? INET_DIAG_INFO); cbn [when]; last first.
    { exists σ. split; [done|]. split; [done|]. split; [done|].
      split; [apply same_io_refl|lia]. }
    destruct (load_uint_Some msg off_idiag_family 1) as (fam & Hfam & _);
      [unfold off_idiag_family; lia|].
    destruct (load_uint_Some msg off_idiag_sport 2) as (sp & Hsp & _);
      [unfold off_idiag_sport; lia|].
    destruct (load_uint_Some msg off_idiag_dport 2) as (dp & Hdp & _);
      [unfold off_idiag_dport; lia|].
    destruct (load_Some (RTA_DATA attr) 0 sizeof_tcp_info) as (ti & Hti).
    { unfold RTA_DATA, advance. change (Z.to_nat (RTA_LENGTH 0)) with 4%nat.
      rewrite length_drop. lia. }
    destruct (load_Some msg off_idiag_src (if fam =? AF_INET then 4%nat else 16%nat))
      as (src & Hsrc); [unfold off_idiag_src; destruct (fam =? AF_INET); lia|].
    destruct (load_Some msg off_idiag_dst (if fam =? AF_INET then 4%nat else 16%nat))
      as (dst & Hdst); [unfold off_idiag_dst; destruct (fam =? AF_INET); lia|].
    destruct (store_sample_loaded msg attr fam sp dp ti src dst σ) as [x ->];
      [done..|].
    destruct (append_ready x σ) as (σ1 & Ha & Hr1 & Hinv1 & Hlen1 & Hio1);
      [done|done|lia|].
    exists σ1. split; [done|]. split; [done|]. split; [done|].
    split; [done|lia]. }
  rewrite (bind_Done _ _ _ _ _ Hs).
  destruct (IH msg (advance attr (RTA_ALIGN l)) (to_int (n - RTA_ALIGN l)) σ1)
    as (σ2 & Hp & Hr2 & Hinv2 & Hio2 & Hlen2); [done|done|done|lia|done|lia|lia|].
  exists σ2. split; [done|]. split; [done|]. split; [done|].
  split; [by eapply same_io_trans|lia].
Qed.

Lemma ready_set_errno e σ : ready σ → ready (set_errno e σ).
Proof. done. Qed.

Lemma parse_msgs_ready fuel : ∀ h n σ,
  ready σ → store_inv (store σ) → n < 2 ^ 31 →
  (16 ≤ n → n + Z.of_nat sizeof_tcp_info ≤ Z.of_nat (length h)) →
  len (store σ) + Z.max 0 n ≤ 2 ^ 31 → (Z.to_nat n ≤ fuel)%nat →
  ∃ r σ', parse_msgs fuel h n σ = Done r σ' ∧ ready σ'
          ∧ store_inv (store σ') ∧ same_io σ σ'
          ∧ len (store σ') ≤ len (store σ) + Z.max 0 n.
Proof.
  induction fuel as [|fuel IH]; intros h n σ Hr Hinv Hn Hroom Hlen Hfuel;
    cbn [parse_msgs]; unfold NLMSG_OK, sizeof_nlmsghdr;
    (destruct (Z.ltb_spec n 16) as [Hsmall|Hbig];
     [exists None, σ; cbn [deref]; rewrite bind_ret; cbn [negb];
      split; [done|]; split; [done|]; split; [done|];
      split; [apply same_io_refl|lia]|]); [lia|].
  destruct (load_uint_Some h off_nlmsg_len 4) as (l & Hl & Hlr);
    [unfold off_nlmsg_len; lia|].
  change (256 ^ Z.of_nat 4) with (2 ^ 32) in Hlr.
  rewrite Hl. cbn [mbind option_bind deref]. rewrite bind_ret.
  destruct (decide (16 ≤ l ∧ l ≤ n)) as [[Hl16 Hln]|Hbad]; last first.
  { exists None, σ.
    assert (bool_decide (16 ≤ l) && bool_decide (l ≤ n) = false) as ->.
    { apply andb_false_iff. rewrite !bool_decide_eq_false. lia. }
    cbn [negb]. split; [done|]. split; [done|]. split; [done|].
    split; [apply same_io_refl|lia]. }
  rewrite !bool_decide_true by done. cbn [andb negb].
  rewrite bind_ret.
  destruct (load_uint_Some h off_nlmsg_type 2) as (ty & Hty & _);
    [unfold off_nlmsg_type; lia|].
  rewrite Hty. cbn [deref]. rewrite bind_ret.
  destruct (ty =? NLMSG_DONE).
  { exists (Some 0), σ. split; [done|]. split; [done|]. split; [done|].
    split; [apply same_io_refl|lia]. }
  destruct (ty =? NLMSG_ERROR).
  { change (NLMSG_LENGTH sizeof_nlmsgerr) with 36.
    destruct (Z.ltb_spec l 36).
    - eexists (Some (-1)), _. split; [done|]. split; [by apply ready_set_errno|].
      split; [done|]. split; [by split|cbn; lia].
    - destruct (load_uint_Some (NLMSG_DATA h) 0 4) as (e & He & _).
      { unfold NLMSG_DATA, advance. change (Z.to_nat NLMSG_HDRLEN) with 16%nat.
        rewrite length_drop. lia. }
      unfold load_int. rewrite He. cbn [fmap option_fmap option_map deref].
      eexists (Some (-1)), _. split; [done|]. split; [by apply ready_set_errno|].
      split; [done|]. split; [by split|cbn; lia]. }
  change (NLMSG_LENGTH sizeof_inet_diag_msg) with 88.
  rewrite (to_int_small (l - 88)) by lia.
  assert (∃ σ1, when (0 <? l - 88) (parse_response (NLMSG_DATA h) (l - 88)) σ
                = Done tt σ1
            ∧ ready σ1 ∧ store_inv (store σ1) ∧ same_io σ σ1
            ∧ len (store σ1) ≤ len (store σ) + Z.max 0 (l - 88))
    as (σ1 & Hp & Hr1 & Hinv1 & Hio1 & Hlen1).
  { destruct (Z.ltb_spec 0 (l - 88)); cbn [when]; last first.
    { exists σ. split; [done|]. split; [done|]. split; [done|].
      split; [apply same_io_refl|lia]. }
    unfold parse_response, NLMSG_DATA, advance.
    change (Z.to_nat NLMSG_HDRLEN) with 16%nat.
    change (Z.to_nat sizeof_inet_diag_msg) with 72%nat.
    apply parse_attrs_ready; try done; try lia.
    - rewrite length_drop. lia.
    - intros _. rewrite !length_drop. lia. }
  rewrite (bind_Done _ _ _ _ _ Hp).
  assert (l ≤ 4 * ((l + 3) / 4) ≤ l + 3) by (Z.div_mod_to_equations; lia).
  rewrite NLMSG_ALIGN_eq by lia. rewrite to_int_small by lia.
  destruct (IH (advance h (4 * ((l + 3) / 4))) (n - 4 * ((l + 3) / 4)) σ1)
    as (r & σ2 & Hk & Hr2 & Hinv2 & Hio2 & Hlen2); [done|done|lia| |lia|lia|].
  { intros Hn'. unfold advance. rewrite length_drop. lia. }
  exists r, σ2. split; [done|]. split; [done|]. split; [done|].
  split; [by eapply same_io_trans|lia].
Qed.

Lemma recv_loop_ready fuel : ∀ fd σ,
  ready σ → store_inv (store σ) → length (stack σ) = sizeof_b →
  roomy (recvs σ) →
  len (store σ) + Z.of_nat (length (received (recvs σ))) ≤ 2 ^ 31 →
  recv_loop fuel fd σ ≠ Fault.
Proof.
  induction fuel as [|fuel IH]; intros fd σ Hr Hinv Hstack Hroomy Hlen;
    cbn [recv_loop]; unfold recv, bind at 1; cbv beta;
    (destruct (recvs σ) as [|[d|e] rs] eqn:Hrs; [done| |done]);
    apply Forall_cons in Hroomy as [Hd Hroomy]; specialize (Hd d eq_refl);
    unfold received in Hlen; cbn [mbind list_bind] in Hlen;
    fold (received rs) in Hlen; rewrite length_app, Nat2Z.inj_add in Hlen;
    pose proof sizeof_b_Z as Hb;
    rewrite take_ge by lia;
    (destruct (Z.eqb_spec (Z.of_nat (length d)) (-1)); [lia|]);
    set (σ1 := set_stack _ _);
    rewrite (bind_Done _ _ σ1 (stack σ1) σ1) by done;
    (destruct (parse_msgs_ready (Z.to_nat (Z.of_nat (length d))) (stack σ1)
                (Z.of_nat (length d)) σ1)
      as (r & σ2 & Hp & Hr2 & Hinv2 & [Hst2 _ Hrs2 _] & Hlen2);
      [done|done|lia
      |intros _; subst σ1; cbn [stack set_stack];
       rewrite length_app, length_drop; lia
      |cbn [store set_stack set_recvs σ1]; lia|done|]);
    rewrite (bind_Done _ _ _ _ _ Hp);
    (destruct r as [v|]; [done|]); [done|].
  apply IH; [done|done|..].
  - rewrite Hst2. subst σ1. cbn [stack set_stack].
    rewrite length_app, length_drop. lia.
  - by rewrite Hrs2.
  - rewrite Hrs2. cbn [recvs set_stack set_recvs σ1 store] in *. lia.
Qed.

(** X8.  Memory safety on arbitrary input.  Whatever bytes the kernel
    delivers, [sockdiag_sample] reads inside the receive buffer and writes
    inside the sample array, and so returns or waits in a system call,
    provided that the allocations succeed, every datagram leaves
    [sizeof(struct tcp_info)] bytes of the buffer unused (the room the
    unchecked copy of X6 may run into) and the dump stays below 2^31 bytes
    (so that fewer than 2^31 samples are stored). *)
Theorem sockdiag_sample_memory_safe fd family σ :
  alloc_ok σ → length (stack σ) = sizeof_b → roomy (recvs σ) →
  Z.of_nat (length (received (recvs σ))) ≤ 2 ^ 31 →
  (∃ r σ', sockdiag_sample fd family σ = Done r σ')
  ∨ sockdiag_sample fd family σ = Blocked.
Proof.
  intros Hok Hstack Hroomy Hlen.
  assert (sockdiag_sample fd family σ ≠ Fault) as Hsafe.
  { destruct (sends σ) as [|[|e] ss] eqn:Hs;
      [unfold sockdiag_sample, send_request, sendmsg, bind; by rewrite Hs| |
       unfold sockdiag_sample, send_request, sendmsg, bind; by rewrite Hs].
    rewrite (sockdiag_sample_start _ _ ss) by done.
    destruct (grow_zero (after_send fd family ss σ))
      as (σ0 & Hg & Hst0 & _ & Hok0 & [Hstk0 _ Hr0 _]); [done..|].
    rewrite (bind_Done _ _ _ _ _ Hg).
    rewrite (bind_Done _ _ σ0 (length (recvs σ0)) σ0) by done.
    apply grow_from_zero in Hg as (Hl0 & _ & Hinv0 & _); [|done].
    apply recv_loop_ready; try done.
    + split; [done|]. by rewrite Hst0.
    + by rewrite Hstk0.
    + by rewrite Hr0.
    + rewrite Hl0, Hr0. cbn [after_send recvs set_store set_sent set_sends]. lia. }
  pose proof (sockdiag_sample_total fd family σ) as Htotal.
  destruct (sockdiag_sample fd family σ) as [r σ'| | |];
    [left; by eexists _, _|done|by right|done].
Qed.

(** The samples below [len] stay written through the loops. *)
Lemma append_filled x σ σ' :
  append x σ = Done tt σ' → store_inv (store σ) → filled (store σ) →
  filled (store σ').
Proof.
  intros Happ Hinv Hfull.
  destruct (append_keeps x σ σ' Happ Hinv) as [Hlen' Hkeep].
  pose proof (append_steps x σ σ' Happ) as [_ Hinv']. specialize (Hinv' Hinv).
  intros i Hi. destruct (decide (Z.of_nat i < len (store σ))) as [Hold|Hnew].
  { rewrite Hkeep by done. by apply Hfull. }
  assert (Z.of_nat i = len (store σ)) as Hidx by lia.
  revert Happ. unfold append.
  intros (s & σ0 & [= <- <-] & ([] & σ1 & Hw & (j & σ2 & [= <- <-] &
    ([] & σ3 & Hp & [= <-])%bind_Done_inv)%bind_Done_inv)%bind_Done_inv)%bind_Done_inv.
  unfold poke in Hp. destruct (sample_ptr (store σ1)) as [|sl] eqn:Hsl; [done|].
  case_decide as Hj; [|done]. injection Hp as <-.
  cbn [store set_store len cap sample_ptr] in *.
  assert (len (store σ1) = len (store σ)) as Hlen1.
  { case_bool_decide; cbn [when] in Hw; [|by injection Hw as <-].
    by apply grow_cases in Hw as (_ & -> & _). }
  unfold element. cbn [len sample_ptr slots_of]. rewrite decide_True by lia.
  rewrite Hlen1, <- Hidx, Nat2Z.id in *.
  by rewrite list_lookup_insert_eq.
Qed.

Lemma store_sample_filled msg attr σ σ' :
  store_sample msg attr σ = Done tt σ' →
  store_inv (store σ) → filled (store σ) → filled (store σ').
Proof.
  destruct (store_sample_cases msg attr σ) as [->|[x ->]]; [done|].
  apply append_filled.
Qed.

Lemma parse_attrs_filled fuel : ∀ msg attr n σ σ',
  parse_attrs fuel msg attr n σ = Done tt σ' →
  store_inv (store σ) → filled (store σ) → filled (store σ').
Proof.
  induction fuel as [|fuel IH]; intros msg attr n σ σ'; cbn [parse_attrs];
    intros (ok & σ0 & Hok & Hk)%bind_Done_inv;
    destruct (RTA_OK attr n) as [[]|]; try done; injection Hok as <- <-;
    cbn [negb] in Hk; try (by injection Hk as <-); [done|].
  apply bind_Done_inv in Hk as (l & σ0 & Hl & Hk).
  destruct (load_uint attr off_rta_len 2); [injection Hl as -> <-|done].
  apply bind_Done_inv in Hk as (ty & σ0 & Hty & Hk).
  destruct (load_uint attr off_rta_type 2); [injection Hty as -> <-|done].
  apply bind_Done_inv in Hk as ([] & σ1 & Hs & Hk).
  intros Hinv Hfull. apply IH in Hk; [done| |].
  - destruct (ty =? INET_DIAG_INFO); cbn [when] in Hs.
    + apply store_sample_steps in Hs as [_ Hs]. auto.
    + by injection Hs as <-.
  - destruct (ty =? INET_DIAG_INFO); cbn [when] in Hs.
    + by eapply store_sample_filled.
    + by injection Hs as <-.
Qed.

Lemma parse_msgs_filled fuel : ∀ h n σ r σ',
  parse_msgs fuel h n σ = Done r σ' →
  store_inv (store σ) → filled (store σ) → filled (store σ').
Proof.
  induction fuel as [|fuel IH]; intros h n σ r σ'; cbn [parse_msgs];
    intros (ok & σ0 & Hok & Hk)%bind_Done_inv;
    destruct (NLMSG_OK h n) as [[]|]; try done; injection Hok as <- <-;
    cbn [negb] in Hk; try (by injection Hk as <- <-); [done|].
  apply bind_Done_inv in Hk as (l & σ0 & Hl & Hk).
  destruct (load_uint h off_nlmsg_len 4); [injection Hl as -> <-|done].
  apply bind_Done_inv in Hk as (ty & σ0 & Hty & Hk).
  destruct (load_uint h off_nlmsg_type 2); [injection Hty as -> <-|done].
  destruct (ty =? NLMSG_DONE); [by injection Hk as <- <-|].
  destruct (ty =? NLMSG_ERROR).
  - apply bind_Done_inv in Hk as ([] & σ1 & He & [= <- <-]).
    destruct (l <? NLMSG_LENGTH sizeof_nlmsgerr).
    + by injection He as <-.
    + apply bind_Done_inv in He as (e & σ0 & He & [= <-]).
      by destruct (load_int (NLMSG_DATA h) 0); [injection He as <- <-|].
  - apply bind_Done_inv in Hk as ([] & σ1 & Hp & Hk).
    intros Hinv Hfull. apply IH in Hk; [done| |].
    + destruct (0 <? to_int (l - NLMSG_LENGTH sizeof_inet_diag_msg)); cbn [when] in Hp.
      * apply parse_attrs_steps in Hp as [_ Hp]. auto.
      * by injection Hp as <-.
    + destruct (0 <? to_int (l - NLMSG_LENGTH sizeof_inet_diag_msg)); cbn [when] in Hp.
      * by eapply parse_attrs_filled.
      * by injection Hp as <-.
Qed.

Lemma recv_loop_filled fuel : ∀ fd σ r σ',
  recv_loop fuel fd σ = Done r σ' →
  store_inv (store σ) → filled (store σ) →
  store_inv (store σ') ∧ filled (store σ').
Proof.
  induction fuel as [|fuel IH]; intros fd σ r σ'; cbn [recv_loop];
    intros (n & σ1 & Hn & Hk)%bind_Done_inv Hinv Hfull;
    apply recv_cases in Hn as (Hst & _);
    (destruct (n =? -1); [injection Hk as <- <-; by rewrite Hst|]);
    apply bind_Done_inv in Hk as (b & σ0 & [= <- <-] & Hk);
    apply bind_Done_inv in Hk as (o & σ2 & Hp & Hk);
    rewrite <- Hst in Hinv, Hfull;
    pose proof (parse_msgs_filled _ _ _ _ _ _ Hp Hinv Hfull) as Hfull2;
    apply parse_msgs_steps in Hp as [_ Hp];
    (destruct o; [by injection Hk as <- <-; auto|]);
    [done|].
  eapply IH; [done|auto..].
Qed.

(** X9.  Whenever the call returns after the request went out, with 0
    or with -1, whatever the kernel delivered and whether or not
    allocations failed: the length is at most the capacity, the array, if
    allocated, has as many slots as the capacity says, each of the first
    [len] slots holds a sample the call wrote, and a null array pointer
    goes with length 0. *)
Theorem returned_samples_initialised fd family ss σ r σ' :
  sends σ = SendOk :: ss →
  sockdiag_sample fd family σ = Done r σ' →
  0 ≤ len (store σ') ≤ cap (store σ') ∧ 16 ≤ cap (store σ') < 2 ^ 32
  ∧ (∀ sl, sample_ptr (store σ') = Block sl
           → length sl = Z.to_nat (cap (store σ')))
  ∧ (sample_ptr (store σ') = NULL → len (store σ') = 0)
  ∧ ∀ i, Z.of_nat i < len (store σ') → is_Some (element (store σ') i).
Proof.
  intros Hs. rewrite (sockdiag_sample_start _ _ ss) by done.
  intros ([] & σ1 & Hg & Hk)%bind_Done_inv.
  apply bind_Done_inv in Hk as (k & σ2 & [= <- <-] & Hk).
  apply grow_from_zero in Hg as (Hl0 & _ & Hinv0 & _); [|done].
  apply recv_loop_filled in Hk as [[Hl Hc _ Hb] Hfull]; [|done|].
  - split; [done|]. split; [done|]. split; [done|]. split; [|done].
    intros Hnull. destruct (decide (len (store σ') = 0)) as [|Hpos]; [done|].
    destruct (Hfull 0%nat) as [x Hx]; [lia|].
    unfold element in Hx. rewrite Hnull in Hx. by case_decide.
  - intros i Hi. lia.
Qed.

(** X10.  The capacity is a [uint32_t].  With 2^31 samples in a full
    Store the next [grow] doubles it to 0, and the sample is written
    outside the array, or through the null pointer when the allocation
    fails. *)
Theorem capacity_wraps_at_2_31 msg attr σ :
  len (store σ) = 2 ^ 31 → cap (store σ) = 2 ^ 31 →
  store_sample msg attr σ = Fault.
Proof.
  intros Hlen Hcap.
  destruct (store_sample_cases msg attr σ) as [Hf|[x ->]]; [done|].
  unfold append.
  rewrite (bind_Done _ _ σ (store σ) σ) by done.
  rewrite bool_decide_true by lia. cbn [when].
  destruct (grow_Done σ) as [σ1 Hg]. rewrite (bind_Done _ _ _ _ _ Hg).
  apply grow_cases in Hg as (_ & _ & _ & Hptr).
  rewrite Hcap in Hptr. change (2 ^ 31 =? 0) with false in Hptr.
  change (wrap32 (2 ^ 31 * 2)) with 0 in Hptr. cbv iota in Hptr.
  rewrite (bind_Done _ _ σ1 (len (store σ1)) σ1) by done.
  unfold bind, poke.
  destruct Hptr as [->|(sl & -> & Hsl)]; [done|].
  rewrite decide_False; [done|]. rewrite Hsl. lia.
Qed.
End Further.

(** ** The session: sockdiag_open and sockdiag_close *)

Section Descriptors.
(** Descriptors are the keys of the table. *)
Lemma descriptor_of_nat π (fd : nat) :
  descriptor π (Z.of_nat fd) = descriptors π !! fd.
Proof.
  unfold descriptor. destruct (Z.ltb_spec (Z.of_nat fd) 0); [lia|].
  by rewrite Nat2Z.id.
Qed.

Lemma fresh_descriptor π : descriptors π !! fresh (dom (descriptors π)) = None.
Proof. apply not_elem_of_dom, is_fresh. Qed.

(** The ways out of [sockdiag_open]. *)
Lemma sockdiag_open_cases π :
  ((sockdiag_open π).1 = -1
   ∧ descriptors (sockdiag_open π).2 = descriptors π)
  ∨ (∃ fd : nat,
       (sockdiag_open π).1 = Z.of_nat fd
       ∧ descriptors π !! fd = None
       ∧ descriptors (sockdiag_open π).2 = <[fd := sockdiag_socket]> (descriptors π)
       ∧ memory (sockdiag_open π).2 = memory π).
Proof.
  pose proof (fresh_descriptor π) as Hfresh.
  set (fd := fresh (dom (descriptors π))) in *.
  set (s := new_socket AF_NETLINK SOCK_DGRAM NETLINK_SOCK_DIAG).
  assert (∀ π', descriptors π' = <[fd := s]> (descriptors π) →
                descriptor π' (Z.of_nat fd) = Some s) as Hopen.
  { intros π' Hd. by rewrite descriptor_of_nat, Hd, lookup_insert_eq. }
  assert (∀ mem script,
            setsockopt (Z.of_nat fd) SOL_SOCKET SO_RCVTIMEO
              {| tv_sec := 1; tv_usec := 0 |}
              {| memory := mem; descriptors := <[fd := s]> (descriptors π);
                 syscalls := script |}
            = match script with
              | SysErr e :: rest =>
                  (-1, {| memory := set_errno e mem;
                          descriptors := <[fd := s]> (descriptors π);
                          syscalls := rest |})
              | _ => (0, {| memory := mem;
                            descriptors := <[fd := sockdiag_socket]> (descriptors π);
                            syscalls := tail script |})
              end) as Hset.
  { intros mem script. unfold setsockopt. erewrite Hopen by done.
    cbn [syscalls memory descriptors]. rewrite Nat2Z.id, insert_insert_eq.
    by destruct script as [|[|e] rest]. }
  assert (∀ mem script,
            descriptors (close (Z.of_nat fd)
                           {| memory := mem;
                              descriptors := <[fd := s]> (descriptors π);
                              syscalls := script |}).2
            = descriptors π) as Hclose.
  { intros mem script. unfold close. erewrite Hopen by done.
    cbn [syscalls descriptors]. rewrite Nat2Z.id.
    destruct script as [|[|e] rest]; cbn [snd descriptors];
      by rewrite delete_insert_id. }
  unfold sockdiag_open, os_bind, socket. fold fd. fold s.
  destruct (syscalls π) as [|[|e] script] eqn:Hs.
  - destruct (Z.eqb_spec (Z.of_nat fd) (-1)); [lia|]. rewrite Hset.
    right. by exists fd.
  - destruct (Z.eqb_spec (Z.of_nat fd) (-1)); [lia|]. rewrite Hset.
    cbn [tail]. destruct script as [|[|e] script]; [right; by exists fd..|].
    left. change (-1 =? -1) with true. cbv iota.
    specialize (Hclose (set_errno e (memory π)) script). cbv beta.
    by destruct (close _ _).
  - by left.
Qed.

(** X11.  [sockdiag_open] returns -1 with the descriptor table as it was
    (after a failed [setsockopt] the new socket is closed again, so no
    descriptor leaks), or it returns a descriptor that was not open before
    and now is a [NETLINK_SOCK_DIAG] datagram socket with a receive timeout
    of one second, with nothing else changed. *)
Theorem sockdiag_open_result π :
  ((sockdiag_open π).1 = -1
   ∧ descriptors (sockdiag_open π).2 = descriptors π)
  ∨ (∃ fd : nat,
       (sockdiag_open π).1 = Z.of_nat fd
       ∧ descriptors π !! fd = None
       ∧ descriptors (sockdiag_open π).2 = <[fd := sockdiag_socket]> (descriptors π)
       ∧ memory (sockdiag_open π).2 = memory π).
Proof. apply sockdiag_open_cases. Qed.

(** X12.  [sockdiag_close] on the descriptor a successful
    [sockdiag_open] returned puts the descriptor table back to what it was
    before the open, also when [close] reports an error.  A second
    [sockdiag_close] on it is not guarded: it returns -1 with [EBADF]. *)
Theorem open_close_round_trip π fd π1 :
  sockdiag_open π = (fd, π1) → fd ≠ -1 →
  descriptors (sockdiag_close fd π1).2 = descriptors π
  ∧ sockdiag_close fd (sockdiag_close fd π1).2
    = fail_with EBADF (syscalls (sockdiag_close fd π1).2) (sockdiag_close fd π1).2.
Proof.
  intros Hopen Hfd.
  destruct (sockdiag_open_cases π) as [[Hr _]|(k & Hr & Hk & Hd & _)];
    rewrite Hopen in *; cbn [fst snd] in *; [done|]. subst fd.
  assert (descriptors (sockdiag_close (Z.of_nat k) π1).2 = descriptors π) as Hback.
  { unfold sockdiag_close, close. rewrite descriptor_of_nat, Hd, lookup_insert_eq.
    rewrite Nat2Z.id.
    destruct (syscalls π1) as [|[|e] script]; cbn [snd descriptors];
      by rewrite delete_insert_id. }
  split; [done|].
  unfold sockdiag_close at 1, close at 1.
  by rewrite descriptor_of_nat, Hback, Hk.
Qed.

End Descriptors.

(** ** The claims on concrete inputs *)

Section Witnesses.
#[local] Existing Instance linux_amd64.

Lemma ex_msg_wf : wf_inet_diag_msg ex_msg.
Proof. split; (by vm_compute) || (vm_compute; split; discriminate). Qed.

Lemma ex_info_wf : wf_attribute ex_info.
Proof.
  split; [by vm_compute|by vm_compute|].
  intros _. apply Nat.leb_le. by vm_compute.
Qed.

Lemma ex_tos_wf : wf_attribute ex_tos.
Proof. split; [by vm_compute|by vm_compute|]. by intros [=]. Qed.

Lemma ex_diag_wf : wf_diag ex_diag.
Proof.
  split; [by vm_compute|done|done|apply ex_msg_wf| |done].
  constructor; [apply ex_tos_wf|]. constructor; [apply ex_info_wf|constructor].
Qed.

Lemma ex_diag_cut_wf : wf_diag ex_diag_cut.
Proof.
  split; [by vm_compute|done|done|apply ex_msg_wf| |by vm_compute].
  constructor; [apply ex_info_wf|constructor].
Qed.

Lemma ex_diag_plain_wf : wf_diag ex_diag_plain.
Proof.
  split; [by vm_compute|done|done|apply ex_msg_wf| |done].
  constructor; [apply ex_tos_wf|constructor].
Qed.

Lemma ex_done_wf : wf_envelope ex_done.
Proof. split; by vm_compute. Qed.

Lemma ex_error_wf : wf_envelope ex_error.
Proof. split; by vm_compute. Qed.

Lemma ex_error_short_wf : wf_envelope ex_error_short.
Proof. split; by vm_compute. Qed.

Lemma store_appends_witness :
  ∃ σ',
    (modify (set_store zero_samples) ;;; grow ;;;
     store_samples (replicate 17 (bytes_of_inet_diag_msg ex_msg,
                                  bytes_of_attribute ex_info)))
      (ex_state zero_samples [] [] [])
    = Done tt σ'
    ∧ len (store σ') = 17 ∧ cap (store σ') = 32
    ∧ element (store σ') 16 = Some ex_sample.
Proof.
  destruct (store_appends (replicate 17 (ex_msg, ex_info))
              (ex_state zero_samples [] [] []))
    as (σ' & Hrun & Hlen & Hel & _ & _ & Hcap).
  - by constructor.
  - apply Forall_replicate. split; [apply ex_msg_wf|].
    apply Nat.leb_le. by vm_compute.
  - by vm_compute.
  - exists σ'. split; [exact Hrun|]. split; [exact Hlen|].
    split; [by apply Hcap|]. by apply (Hel 16%nat (ex_msg, ex_info)).
Defined.

Lemma parse_response_one_info_witness :
  ∃ σ',
    parse_response (env_payload (envelope_of_diag ex_diag))
      (Z.of_nat (length (bytes_of_attributes [ex_tos; ex_info])))
      (ex_state (store_of []) [] [] [])
    = Done tt σ'
    ∧ len (store σ') = 1
    ∧ element (store σ') 0
      = Some {| family := AF_INET;
                saddr := [x0a; x00; x00; x01] ++ zeros 12; sport := 40000;
                daddr := [x0a; x00; x00; x02] ++ zeros 12; dport := 80;
                info := ex_tcp_info |}.
Proof.
  destruct (parse_response_one_info ex_diag [ex_tos] ex_info [] [] []
              (ex_state (store_of []) [] [] []))
    as (σ' & Hrun & _ & Hlen & Hel & _).
  - apply ex_diag_wf.
  - reflexivity.
  - reflexivity.
  - by repeat constructor.
  - reflexivity.
  - by constructor.
  - reflexivity.
  - by vm_compute.
  - by vm_compute.
  - exists σ'. rewrite !app_nil_r in Hrun. split; [exact Hrun|].
    split; [exact Hlen|exact Hel].
Defined.

Lemma malformed_attribute_stops_witness :
  parse_response (env_payload (envelope_of_diag ex_diag_cut))
    (Z.of_nat (length (bytes_of_attributes [ex_info] ++ diag_tail ex_diag_cut)))
    (ex_state (store_of [ex_sample]) [] [] [])
  = appends [ex_sample] (ex_state (store_of [ex_sample]) [] [] [])
  ∧ parse_msgs 1 (bytes_of_diag ex_diag_cut) 332
      (ex_state (store_of [ex_sample]) [] [] [])
    = (appends [ex_sample] ;;; parse_msgs 0 [] 0)
        (ex_state (store_of [ex_sample]) [] [] []).
Proof.
  destruct (malformed_attribute_stops 0 ex_diag_cut [] 332
              (ex_state (store_of [ex_sample]) [] [] []))
    as (Hparse & Hloop & _).
  - apply ex_diag_cut_wf.
  - apply Nat.ltb_lt. by vm_compute.
  - by vm_compute.
  - rewrite !app_nil_r in *. split; [exact Hparse|exact Hloop].
Defined.

Lemma receive_loop_until_done_witness :
  (∃ σ',
     sockdiag_sample 3 AF_INET
       (ex_state zero_samples [] [SendOk]
          [RecvOk (bytes_of_diags [ex_diag; ex_diag] ++ bytes_of_envelope ex_done);
           RecvOk (bytes_of_diags [ex_diag])])
     = Done 0 σ'
     ∧ len (store σ') = 2
     ∧ recvs σ' = [RecvOk (bytes_of_diags [ex_diag])])
  ∧ (∃ σ',
       sockdiag_sample 3 AF_INET
         (ex_state zero_samples [] [SendOk]
            [RecvOk (bytes_of_diags [ex_diag]);
             RecvOk (bytes_of_diags [ex_diag_plain; ex_diag]
                     ++ bytes_of_envelope ex_done)])
       = Done 0 σ'
       ∧ store σ' = store_of [ex_sample; ex_sample]
       ∧ recvs σ' = [])
  ∧ (∀ σ',
       sockdiag_sample 3 AF_INET
         (ex_state zero_samples [] [SendOk]
            [RecvOk (bytes_of_diags [ex_diag]); RecvErr 11])
       ≠ Done 0 σ').
Proof.
  split; [|split].
  - destruct (receive_loop_until_done 3 AF_INET [] []
                (ex_state zero_samples [] [SendOk]
                   [RecvOk (bytes_of_diags [ex_diag; ex_diag]
                            ++ bytes_of_envelope ex_done);
                    RecvOk (bytes_of_diags [ex_diag])]))
      as [Hdone _].
    + reflexivity.
    + by constructor.
    + by constructor.
    + by constructor.
    + destruct (Hdone [ex_diag; ex_diag] ex_done []
                  [RecvOk (bytes_of_diags [ex_diag])])
        as (σ' & Hrun & _ & Hlen & Hrest).
      * by rewrite app_nil_r.
      * constructor; [apply ex_diag_wf|].
        constructor; [apply ex_diag_wf|constructor].
      * apply Nat.leb_le. by vm_compute.
      * apply ex_done_wf.
      * reflexivity.
      * by vm_compute.
      * exists σ'. split; [exact Hrun|]. split; [exact Hlen|exact Hrest].
  - destruct (receive_loop_until_done 3 AF_INET [] [[ex_diag]]
                (ex_state zero_samples [] [SendOk]
                   [RecvOk (bytes_of_diags [ex_diag]);
                    RecvOk (bytes_of_diags [ex_diag_plain; ex_diag]
                            ++ bytes_of_envelope ex_done)]))
      as [Hdone _].
    + reflexivity.
    + by constructor.
    + constructor; [|constructor]. constructor; [apply ex_diag_wf|constructor].
    + constructor; [|constructor]. apply Nat.leb_le. by vm_compute.
    + destruct (Hdone [ex_diag_plain; ex_diag] ex_done [] [])
        as (σ' & Hrun & Hstore & _ & Hrest).
      * by rewrite app_nil_r.
      * constructor; [apply ex_diag_plain_wf|].
        constructor; [apply ex_diag_wf|constructor].
      * apply Nat.leb_le. by vm_compute.
      * apply ex_done_wf.
      * reflexivity.
      * by vm_compute.
      * exists σ'. split; [exact Hrun|]. split; [exact Hstore|exact Hrest].
  - destruct (receive_loop_until_done 3 AF_INET [] [[ex_diag]]
                (ex_state zero_samples [] [SendOk]
                   [RecvOk (bytes_of_diags [ex_diag]); RecvErr 11]))
      as [_ Hnever].
    + reflexivity.
    + by constructor.
    + constructor; [|constructor]. constructor; [apply ex_diag_wf|constructor].
    + constructor; [|constructor]. apply Nat.leb_le. by vm_compute.
    + apply (Hnever [RecvErr 11]).
      * reflexivity.
      * right. by exists 11, [].
      * by vm_compute.
Defined.

Lemma error_envelope_errno_witness :
  (∃ σ',
     sockdiag_sample 3 AF_INET
       (ex_state zero_samples [] [SendOk] [RecvOk (bytes_of_envelope ex_error)])
     = Done (-1) σ' ∧ errno σ' = 2)
  ∧ (∃ σ',
       sockdiag_sample 3 AF_INET
         (ex_state zero_samples [] [SendOk]
            [RecvOk (bytes_of_envelope ex_error_short)])
       = Done (-1) σ' ∧ errno σ' = ENODATA).
Proof.
  split.
  - destruct (error_envelope_errno 3 AF_INET [] [] [] ex_error [] []
                (ex_state zero_samples [] [SendOk]
                   [RecvOk (bytes_of_envelope ex_error)]))
      as (σ' & Hrun & Herrno).
    + reflexivity.
    + by constructor.
    + by rewrite app_nil_r.
    + by constructor.
    + by constructor.
    + by constructor.
    + apply Nat.leb_le. by vm_compute.
    + apply ex_error_wf.
    + reflexivity.
    + by vm_compute.
    + exists σ'. split; [exact Hrun|]. rewrite Herrno. by vm_compute.
  - destruct (error_envelope_errno 3 AF_INET [] [] [] ex_error_short [] []
                (ex_state zero_samples [] [SendOk]
                   [RecvOk (bytes_of_envelope ex_error_short)]))
      as (σ' & Hrun & Herrno).
    + reflexivity.
    + by constructor.
    + by rewrite app_nil_r.
    + by constructor.
    + by constructor.
    + by constructor.
    + apply Nat.leb_le. by vm_compute.
    + apply ex_error_short_wf.
    + reflexivity.
    + by vm_compute.
    + exists σ'. split; [exact Hrun|]. rewrite Herrno. by vm_compute.
Defined.

Lemma sample_store_invariant_witness :
  ∃ σ',
    sockdiag_sample 3 AF_INET
      (ex_state zero_samples [false] [SendOk]
         [RecvOk (bytes_of_diags [ex_diag_plain] ++ bytes_of_envelope ex_done)])
    = Done 0 σ'
    ∧ len (store σ') = 0 ∧ cap (store σ') = 16
    ∧ len (store σ') ≤ cap (store σ').
Proof.
  destruct (sample_store_invariant 3 AF_INET
              (ex_state zero_samples [false] [SendOk]
                 [RecvOk (bytes_of_diags [ex_diag_plain]
                          ++ bytes_of_envelope ex_done)]))
    as [Hinv Hquiet].
  destruct (Hquiet [] [] [ex_diag_plain] ex_done [] [])
    as (σ' & Hrun & Hlen & Hcap).
  - reflexivity.
  - by rewrite app_nil_r.
  - by constructor.
  - by constructor.
  - constructor; [apply ex_diag_plain_wf|constructor].
  - apply Nat.leb_le. by vm_compute.
  - apply ex_done_wf.
  - reflexivity.
  - reflexivity.
  - exists σ'. split; [exact Hrun|]. split; [exact Hlen|]. split; [exact Hcap|].
    by destruct (Hinv σ' Hrun) as (? & _).
Defined.

Lemma grow_failure_unreported_witness :
  grow (ex_state (store_of (replicate 16 ex_sample)) [false] [SendOk] [])
  = Done tt (set_store {| sample_ptr := NULL; len := 16; cap := 32 |}
               (set_errno ENOMEM
                  (set_allocs [] (ex_state (store_of (replicate 16 ex_sample))
                                    [false] [SendOk] []))))
  ∧ sockdiag_sample 3 AF_INET
      (ex_state (store_of (replicate 16 ex_sample)) [false] [SendOk] [])
    = recv_loop 0 3
        (set_store {| sample_ptr := NULL; len := 0; cap := 16 |}
           (set_errno ENOMEM
              (set_allocs []
                 (after_send 3 AF_INET []
                    (ex_state (store_of (replicate 16 ex_sample))
                       [false] [SendOk] []))))).
Proof.
  destruct (grow_failure_unreported 3 AF_INET [] []
              (ex_state (store_of (replicate 16 ex_sample)) [false] [SendOk] [])
              eq_refl) as [Hgrow Hcall].
  split; [exact Hgrow|exact (Hcall eq_refl)].
Defined.

Lemma send_failure_leaves_store_witness :
  ∃ σ',
    sockdiag_sample 3 AF_INET (ex_state (store_of [ex_sample]) [] [SendErr 9] [])
    = Done (-1) σ'
    ∧ store σ' = store_of [ex_sample] ∧ errno σ' = 9.
Proof.
  destruct (send_failure_leaves_store 3 AF_INET 9 []
              (ex_state (store_of [ex_sample]) [] [SendErr 9] []) eq_refl)
    as [Hrun Hstore].
  eexists. split; [exact Hrun|]. split; [exact Hstore|reflexivity].
Defined.

Lemma sample_starts_from_empty_store_witness :
  sockdiag_sample 3 AF_INET
    (ex_state (store_of [ex_sample]) [] [SendOk] [RecvOk (bytes_of_envelope ex_done)])
  = sockdiag_sample 3 AF_INET
      (ex_state zero_samples [] [SendOk] [RecvOk (bytes_of_envelope ex_done)]).
Proof.
  by destruct (sample_starts_from_empty_store 3 AF_INET [] (store_of [ex_sample])
                 (ex_state zero_samples [] [SendOk]
                    [RecvOk (bytes_of_envelope ex_done)]) eq_refl)
    as [Hsame _].
Defined.

Lemma request_format_witness :
  length (request AF_INET6) = 72%nat
  ∧ load_uint (request AF_INET6) 16 1 = Some AF_INET6
  ∧ send_request 3 AF_INET6 (ex_state zero_samples [] [SendOk] [])
    = Done 72 (set_sent [(3, request AF_INET6)]
                 (set_sends [] (ex_state zero_samples [] [SendOk] []))).
Proof.
  destruct (request_format 3 AF_INET6 (ex_state zero_samples [] [SendOk] []))
    as (Hlen & _ & _ & _ & Hfam & _ & _ & _ & Hsend).
  - by vm_compute.
  - split; [exact Hlen|]. split; [exact Hfam|exact Hsend].
Defined.

(** C1, counterexample.  The first allocation fails and the dump holds no
    sample: the call is not aborted, it returns 0 with a null Store. *)
Lemma allocation_failure_not_propagated :
  returns
    (sockdiag_sample 3 AF_INET
       (ex_state zero_samples [false] [SendOk] [RecvOk (bytes_of_envelope ex_done)]))
    (λ r σ', r = 0 ∧ sample_ptr (store σ') = NULL).
Proof. by vm_compute. Qed.

(** C2, counterexample.  The embedded error field is -2; the code
    reported is 2, not the field as it stands. *)
Lemma error_code_not_verbatim :
  error_field (env_payload ex_error) = -2
  ∧ returns
      (sockdiag_sample 3 AF_INET
         (ex_state zero_samples [] [SendOk] [RecvOk (bytes_of_envelope ex_error)]))
      (λ r σ', r = -1 ∧ errno σ' = 2
               ∧ errno σ' ≠ error_field (env_payload ex_error)).
Proof. split; [by vm_compute|]. vm_compute. by repeat split. Qed.

(** C6, counterexample.  The send fails: the call returns with the
    sample of an earlier call still in the Store, which was not reset. *)
Lemma store_not_reset_before_send :
  returns
    (sockdiag_sample 3 AF_INET (ex_state (store_of [ex_sample]) [] [SendErr 9] []))
    (λ r σ', r = -1 ∧ len (store σ') = 1
             ∧ element (store σ') 0 = Some ex_sample).
Proof. vm_compute. by repeat split. Qed.

(** *** Further properties, on the same dump *)

Lemma ex_bare_wf : wf_envelope ex_bare.
Proof. split; by vm_compute. Qed.

Lemma recv_failure_keeps_samples_witness :
  ∃ σ',
    sockdiag_sample 3 AF_INET
      (ex_state zero_samples [] [SendOk]
         [RecvOk (bytes_of_diags [ex_diag]); RecvErr 11;
          RecvOk (bytes_of_envelope ex_done)])
    = Done (-1) σ'
    ∧ errno σ' = 11
    ∧ store σ' = store_of (samples_of_diags [ex_diag])
    ∧ recvs σ' = [RecvOk (bytes_of_envelope ex_done)].
Proof.
  destruct (recv_failure_keeps_samples 3 AF_INET [] [[ex_diag]] 11
              [RecvOk (bytes_of_envelope ex_done)]
              (ex_state zero_samples [] [SendOk]
                 [RecvOk (bytes_of_diags [ex_diag]); RecvErr 11;
                  RecvOk (bytes_of_envelope ex_done)]))
    as (σ' & Hrun & Herrno & Hstore & Hrest).
  - reflexivity.
  - by constructor.
  - reflexivity.
  - constructor; [|constructor]. constructor; [apply ex_diag_wf|constructor].
  - constructor; [|constructor]. apply Nat.leb_le. by vm_compute.
  - by vm_compute.
  - exists σ'. cbn [concat] in Hstore. rewrite app_nil_r in Hstore.
    split; [exact Hrun|]. split; [exact Herrno|]. split; [exact Hstore|exact Hrest].
Defined.

Lemma error_envelope_keeps_samples_witness :
  ∃ σ',
    sockdiag_sample 3 AF_INET
      (ex_state zero_samples [] [SendOk]
         [RecvOk (bytes_of_diags [ex_diag] ++ bytes_of_envelope ex_error);
          RecvOk (bytes_of_envelope ex_done)])
    = Done (-1) σ'
    ∧ store σ' = store_of (samples_of_diags [ex_diag])
    ∧ recvs σ' = [RecvOk (bytes_of_envelope ex_done)].
Proof.
  destruct (error_envelope_keeps_samples 3 AF_INET [] [] [ex_diag] ex_error []
              [RecvOk (bytes_of_envelope ex_done)]
              (ex_state zero_samples [] [SendOk]
                 [RecvOk (bytes_of_diags [ex_diag] ++ bytes_of_envelope ex_error);
                  RecvOk (bytes_of_envelope ex_done)]))
    as (σ' & Hrun & Hstore & Hrest).
  - reflexivity.
  - by constructor.
  - by rewrite app_nil_r.
  - by constructor.
  - by constructor.
  - constructor; [apply ex_diag_wf|constructor].
  - apply Nat.leb_le. by vm_compute.
  - apply ex_error_wf.
  - reflexivity.
  - by vm_compute.
  - exists σ'. split; [exact Hrun|]. split; [exact Hstore|exact Hrest].
Defined.

Lemma short_envelope_skipped_witness :
  parse_msgs 1 (bytes_of_envelope ex_bare ++ bytes_of_envelope ex_done) 108
    (ex_state (store_of [ex_sample]) [] [] [])
  = parse_msgs 0 (bytes_of_envelope ex_done)
      (108 - Z.of_nat (length (bytes_of_envelope ex_bare)))
      (ex_state (store_of [ex_sample]) [] [] []).
Proof.
  apply (short_envelope_skipped 0 ex_bare (bytes_of_envelope ex_done) 108
           (ex_state (store_of [ex_sample]) [] [] [])).
  - apply ex_bare_wf.
  - by vm_compute.
  - by vm_compute.
  - apply Nat.leb_le. by vm_compute.
  - split; by vm_compute.
Defined.

Lemma request_sent_once_witness :
  ∃ r σ',
    sockdiag_sample 3 AF_INET ex_call = Done r σ'
    ∧ length (sends ex_call) = S (length (sends σ'))
    ∧ ((r = -1 ∧ sent σ' = sent ex_call ∧ store σ' = store ex_call)
       ∨ sent σ' = sent ex_call ++ [(3, request AF_INET)]).
Proof.
  assert (returns (sockdiag_sample 3 AF_INET ex_call) (λ _ _, True)) as Hret
    by (by vm_compute).
  destruct (sockdiag_sample 3 AF_INET ex_call) as [r σ'| | |] eqn:Hrun;
    [|exfalso; exact Hret..].
  exists r, σ'. split; [reflexivity|].
  exact (request_sent_once 3 AF_INET ex_call r σ' Hrun).
Defined.

Lemma failed_allocation_null_write_witness :
  sockdiag_sample 3 AF_INET
    (ex_state zero_samples [false] [SendOk]
       [RecvOk (bytes_of_diag ex_diag ++ bytes_of_envelope ex_done)])
  = Fault.
Proof.
  apply (failed_allocation_null_write 3 AF_INET [] [] ex_diag
           (bytes_of_envelope ex_done) []).
  - reflexivity.
  - reflexivity.
  - reflexivity.
  - apply ex_diag_wf.
  - apply Nat.leb_le. by vm_compute.
  - by vm_compute.
Defined.

Lemma info_read_ignores_rta_len_witness :
  parse_attrs 1 (bytes_of_inet_diag_msg ex_msg ++ [])
    (bytes_of_attribute ex_info_short ++ bytes_of_attribute ex_info) 248
    (ex_state (store_of []) [] [] [])
  = (append (sample_of ex_msg
               (take 232 (take 8 ex_tcp_info ++ bytes_of_attribute ex_info))) ;;;
     parse_attrs 0 (bytes_of_inet_diag_msg ex_msg ++ [])
       (bytes_of_attribute ex_info) 236)
      (ex_state (store_of []) [] [] [])
  ∧ parse_attrs 1 (bytes_of_inet_diag_msg ex_msg ++ [])
      (bytes_of_attribute ex_info_short ++ []) 12
      (ex_state (store_of []) [] [] [])
    = Fault.
Proof.
  split.
  - etransitivity.
    + apply (info_read_ignores_rta_len 0 ex_msg [] ex_info_short
               (bytes_of_attribute ex_info) 248).
      * apply ex_msg_wf.
      * reflexivity.
      * by vm_compute.
      * split; by vm_compute.
    + by vm_compute.
  - etransitivity.
    + apply (info_read_ignores_rta_len 0 ex_msg [] ex_info_short [] 12).
      * apply ex_msg_wf.
      * reflexivity.
      * by vm_compute.
      * split; by vm_compute.
    + by vm_compute.
Defined.

Lemma oversized_datagram_cut_witness :
  recv_loop 1 3 (ex_state zero_samples [] [] [RecvOk ex_oversized])
  = (recv 3 ;;; appends (samples_of_diags (replicate 98 ex_diag)) ;;;
     recv_loop 0 3) (ex_state zero_samples [] [] [RecvOk ex_oversized])
  ∧ ∃ σ1, recv 3 (ex_state zero_samples [] [] [RecvOk ex_oversized])
          = Done (Z.of_nat sizeof_b) σ1
          ∧ recvs σ1 = [].
Proof.
  apply (oversized_datagram_cut 0 3 (replicate 98 ex_diag)
           (envelope_of_diag ex_diag) (bytes_of_envelope ex_done) []).
  - reflexivity.
  - apply Forall_replicate, ex_diag_wf.
  - split; by vm_compute.
  - apply Nat.leb_le. by vm_compute.
  - apply Nat.ltb_lt. by vm_compute.
Defined.

Lemma sockdiag_sample_memory_safe_witness :
  (∃ r σ',
     sockdiag_sample 3 AF_INET
       (ex_state zero_samples [] [SendOk]
          [RecvOk (bytes_of_attribute ex_info_short ++ zeros 7);
           RecvOk (bytes_of_diags [ex_diag_cut] ++ bytes_of_envelope ex_done)])
     = Done r σ')
  ∨ sockdiag_sample 3 AF_INET
      (ex_state zero_samples [] [SendOk]
         [RecvOk (bytes_of_attribute ex_info_short ++ zeros 7);
          RecvOk (bytes_of_diags [ex_diag_cut] ++ bytes_of_envelope ex_done)])
    = Blocked.
Proof.
  apply sockdiag_sample_memory_safe.
  - by constructor.
  - apply length_replicate.
  - constructor; [|constructor; [|constructor]];
      intros d [= <-]; apply Nat.leb_le; by vm_compute.
  - by vm_compute.
Defined.

Lemma capacity_wraps_at_2_31_witness :
  store_sample (bytes_of_inet_diag_msg ex_msg) (bytes_of_attribute ex_info)
    (ex_state ex_full [] [] [])
  = Fault.
Proof.
  apply capacity_wraps_at_2_31; reflexivity.
Defined.

Lemma open_close_round_trip_witness :
  descriptors (sockdiag_close 1 (sockdiag_open ex_session).2).2
  = descriptors ex_session
  ∧ sockdiag_close 1 (sockdiag_close 1 (sockdiag_open ex_session).2).2
    = fail_with EBADF
        (syscalls (sockdiag_close 1 (sockdiag_open ex_session).2).2)
        (sockdiag_close 1 (sockdiag_open ex_session).2).2.
Proof.
  apply (open_close_round_trip ex_session 1).
  - transitivity ((sockdiag_open ex_session).1, (sockdiag_open ex_session).2);
      [apply surjective_pairing|].
    apply (f_equal (λ r, (r, (sockdiag_open ex_session).2))). by vm_compute.
  - done.
Defined.

Lemma returned_samples_initialised_witness :
  ∃ r σ',
    sockdiag_sample 3 AF_INET ex_partial = Done r σ'
    ∧ 0 ≤ len (store σ') ≤ cap (store σ') ∧ 16 ≤ cap (store σ') < 2 ^ 32
    ∧ (∀ sl, sample_ptr (store σ') = Block sl
             → length sl = Z.to_nat (cap (store σ')))
    ∧ (sample_ptr (store σ') = NULL → len (store σ') = 0)
    ∧ ∀ i, Z.of_nat i < len (store σ') → is_Some (element (store σ') i).
Proof.
  assert (returns (sockdiag_sample 3 AF_INET ex_partial) (λ _ _, True)) as Hret
    by (by vm_compute).
  destruct (sockdiag_sample 3 AF_INET ex_partial) as [r σ'| | |] eqn:Hrun;
    [|exfalso; exact Hret..].
  exists r, σ'. split; [reflexivity|].
  exact (returned_samples_initialised 3 AF_INET [] ex_partial r σ' eq_refl Hrun).
Defined.
End Witnesses.
